(** * pipifax-io: type-directed generation of JSON (de)serializers

    A shallow embedding of
      - [code_generator.py]      (the program builder and its compiled routine),
      - [json_serialization.py]  (the blind serializer and the two compilers),
      - [type_serializer.py]     (the abstract serializer/deserializer code generators),
      - [serializable.py]        (the file-system store),
    followed by the properties established about them.

    The Python code assembles program text and hands it to [compile]/[exec].
    Here the generated text is kept as a syntax tree ([expr], [line]); [render]
    and [to_str] give back exactly the text the f-strings of the source build,
    and [exec] is the meaning Python gives to that text. *)

From Stdlib Require Import ZArith NArith Ascii String.
From Stdlib.Strings Require Import Byte.
From stdpp Require Import base gmap strings list pretty.

Local Open Scope string_scope.
Local Open Scope list_scope.
Local Open Scope nat_scope.
Set Warnings "-register-all".
Set Default Proof Using "Type".

(* ===================================================================== *)
(** * Python data *)
(* ===================================================================== *)

Module Py.

(** Exception classes that the modelled code raises or meets. [OutOfFuel] is
    not a Python exception: it marks a recursion bound of the model that was
    set too low, and is shown never to occur for the bounds used here. *)
Inductive exc_class :=
| SerializationError | DeserializationError | TypeHintError
| IndexError | ValueError | TypeError | NameError | AttributeError | KeyError
| SyntaxError | binascii_Error
| Unmodelled | OutOfFuel.

Global Instance exc_class_eq_dec : EqDecision exc_class.
Proof. solve_decision. Defined.

Inductive result (E A : Type) :=
| Ok (a : A)
| Raise (e : E).
Global Arguments Ok {E A} a.
Global Arguments Raise {E A} e.

Definition bind {E A B} (m : result E A) (k : A → result E B) : result E B :=
  match m with
  | Ok a => k a
  | Raise e => Raise e
  end.

Definition is_ok {E A} (m : result E A) : bool :=
  match m with Ok _ => true | Raise _ => false end.

Global Instance result_ret E : MRet (result E) := λ A a, Ok a.
Global Instance result_bind E : MBind (result E) := λ A B k m, bind m k.

(** The classes that take part: the builtins the source names, and the
    containers a type descriptor is built from.  User classes carrying their
    own code-generation hooks and pydantic models are outside this fragment. *)
Inductive PyClass :=
| str_ | int_ | float_ | bool_ | NoneType_
| bytes_ | bytearray_ | datetime_
| list_ | tuple_ | dict_ | set_ | frozenset_.

Global Instance PyClass_eq_dec : EqDecision PyClass.
Proof. solve_decision. Defined.

(** [issubclass(c, d)] between the classes above ([bool] derives from [int]). *)
Definition issubclass (c d : PyClass) : bool :=
  bool_decide (c = d) || (bool_decide (c = bool_) && bool_decide (d = int_)).

(** [issubclass(c, collections.abc.Mapping)] *)
Definition issubclass_Mapping (c : PyClass) : bool :=
  match c with dict_ => true | _ => false end.

(** [issubclass(c, collections.abc.Collection)]: sized, iterable containers;
    [str], [bytes] and [bytearray] are among them. *)
Definition issubclass_Collection (c : PyClass) : bool :=
  match c with
  | str_ | bytes_ | bytearray_ | list_ | tuple_ | dict_ | set_ | frozenset_ => true
  | int_ | float_ | bool_ | NoneType_ | datetime_ => false
  end.

(** [issubclass(c, typing.Union[str, int, float, bool, None])] *)
Definition issubclass_SimpleJson (c : PyClass) : bool :=
  issubclass c str_ || issubclass c int_ || issubclass c float_
  || issubclass c bool_ || issubclass c NoneType_.

(** Type expressions, as [typing] presents them.  A [Union] node is as Python
    builds it: flat, without duplicates, with [None] already turned into
    [NoneType]. [None_] is the object [None] used as a hint; [Ellipsis_] the
    [...] of [tuple[T, ...]]. *)
Inductive TypeHint :=
| Cls (c : PyClass)
| Generic (origin : PyClass) (args : list TypeHint)
| Union (args : list TypeHint)
| Ellipsis_
| None_.

(** What [typing.get_origin] returns. *)
Inductive origin_t :=
| OClass (c : PyClass)
| OUnion.

Definition get_origin (tp : TypeHint) : option origin_t :=
  match tp with
  | Generic o _ => Some (OClass o)
  | Union _ => Some OUnion
  | Cls _ | Ellipsis_ | None_ => None
  end.

(** [origin if origin is not None else tp]: the class a hint is built on, the
    union marker, or an object that is no class. *)
Inductive base_t :=
| BClass (c : PyClass)
| BUnion
| BEllipsis
| BNone.

Global Instance base_t_eq_dec : EqDecision base_t.
Proof. solve_decision. Defined.

Definition base_of (tp : TypeHint) : base_t :=
  match tp with
  | Cls c => BClass c
  | Generic o _ => BClass o
  | Union _ => BUnion
  | Ellipsis_ => BEllipsis
  | None_ => BNone
  end.

Definition get_args (tp : TypeHint) : list TypeHint :=
  match tp with
  | Generic _ args => args
  | Union args => args
  | Cls _ | Ellipsis_ | None_ => []
  end.

Definition is_NoneType (tp : TypeHint) : bool :=
  match tp with Cls NoneType_ => true | _ => false end.

Definition is_Ellipsis (tp : TypeHint) : bool :=
  match tp with Ellipsis_ => true | _ => false end.

Definition is_Cls (c : PyClass) (tp : TypeHint) : bool :=
  match tp with Cls d => bool_decide (c = d) | _ => false end.

(** [typing.Union[args]] over members that are already flat and distinct. *)
Definition typing_Union (args : list TypeHint) : result exc_class TypeHint :=
  match args with
  | [] => Raise TypeError
  | [t] => Ok t
  | _ => Ok (Union args)
  end.

Fixpoint hint_size (tp : TypeHint) : nat :=
  match tp with
  | Generic _ args => S (S (S (list_sum (map hint_size args))))
  | Union args => S (S (S (list_sum (map hint_size args))))
  | Cls _ | Ellipsis_ | None_ => 1
  end.

(** [for i, x in enumerate(l): ...] threading a state and stopping at the
    first exception. *)
Fixpoint for_enumerate {A S} (body : N → A → S → result exc_class S)
    (i : N) (l : list A) (s : S) : result exc_class S :=
  match l with
  | [] => Ok s
  | x :: l => s ← body i x s; for_enumerate body (i + 1)%N l s
  end.

(** [len(args) == 2 and args[1] is Ellipsis] *)
Definition is_variadic (args : list TypeHint) : bool :=
  match args with
  | [_; Ellipsis_] => true
  | _ => false
  end.

(** [if args[-1] is Ellipsis: args = args[:-1]], with the [IndexError] of
    [args[-1]] on an empty tuple. *)
Definition strip_ellipsis (args : list TypeHint) : result exc_class (list TypeHint) :=
  match last args with
  | None => Raise IndexError
  | Some a => Ok (if is_Ellipsis a then removelast args else args)
  end.

Global Instance byte_eq_dec : EqDecision byte := Byte.byte_eq_dec.

(** Runtime values.  A [datetime] object is identified with its ISO-8601 text;
    floats and sets have no values here (their classes remain in the type
    expressions). *)
Inductive value :=
| VNone
| VBool (b : bool)
| VInt (z : Z)
| VStr (s : string)
| VBytes (b : list byte)
| VDatetime (iso : string)
| VList (l : list value)
| VTuple (l : list value)
| VDict (items : list (value * value))
| VClass (c : PyClass)
| VModule (name : string)
| VBuiltin (name : string)
| VEllipsis.

End Py.
Export Py.

(* ===================================================================== *)
(** * Generated program text *)
(* ===================================================================== *)

Module Syntax.

(** Expressions that occur in generated lines. *)
Inductive expr :=
| Name (id : string)                       (* id *)
| Num (n : N)                              (* 0, 1, 2, ... *)
| Str (s : string)                         (* 's' *)
| Subscript (e : expr) (i : expr)          (* e[i] *)
| Attribute (e : expr) (a : string)        (* e.a *)
| Call (f : expr) (args : list expr)       (* f(a, b) *)
| TupleComma (es : list expr)              (* (a, b,) *)
| TupleDisplay (es : list expr)            (* (a, b) *)
| ListDisplay (es : list expr)             (* [a, b] *)
| DictDisplay                              (* {} *)
| Eq (a b : expr)                          (* a == b *)
| EllipsisLit.                             (* ... *)

Definition join (sep : string) (l : list string) : string := String.concat sep l.

Fixpoint render (e : expr) : string :=
  match e with
  | Name id => id
  | Num n => pretty n
  | Str s => "'" +:+ s +:+ "'"
  | Subscript e i => render e +:+ "[" +:+ render i +:+ "]"
  | Attribute e a => render e +:+ "." +:+ a
  | Call f args => render f +:+ "(" +:+ join ", " (map render args) +:+ ")"
  | TupleComma es => "(" +:+ join ", " (map render es) +:+ ",)"
  | TupleDisplay es => "(" +:+ join ", " (map render es) +:+ ")"
  | ListDisplay es => "[" +:+ join ", " (map render es) +:+ "]"
  | DictDisplay => "{}"
  | Eq a b => render a +:+ " == " +:+ render b
  | EllipsisLit => "..."
  end.

(** The text of a literal statement. *)
Inductive line :=
| LAssign (l r : expr)                         (* l = r *)
| LFor (targets : list string) (iter : expr)   (* for a, b in iter: *)
| LIf (c : expr)                               (* if c: *)
| LElif (c : expr)                             (* elif c: *)
| LExpr (e : expr)                             (* e *)
| LComment (text : string).                    (* # text *)

Definition render_line (l : line) : string :=
  match l with
  | LAssign l r => render l +:+ " = " +:+ render r
  | LFor targets iter => "for " +:+ join ", " targets +:+ " in " +:+ render iter +:+ ":"
  | LIf c => "if " +:+ render c +:+ ":"
  | LElif c => "elif " +:+ render c +:+ ":"
  | LExpr e => render e
  | LComment text => "# " +:+ text
  end.

(** The left side of an [AssignmentStatement]: a target, or a target that
    [assign] has prefixed with ["# "]. *)
Inductive lhs :=
| Target (e : expr)
| Hashed (e : expr).

Definition render_lhs (l : lhs) : string :=
  match l with
  | Target e => render e
  | Hashed e => "# " +:+ render e
  end.

(** [LiteralStatement] and [AssignmentStatement] of [code_generator.py], with
    their [to_str]. *)
Inductive Statement :=
| LiteralStatement (stmt : line)
| AssignmentStatement (left_ : lhs) (right_ : expr).

Definition Statement_to_str (s : Statement) : string :=
  match s with
  | LiteralStatement stmt => render_line stmt
  | AssignmentStatement left_ right_ => render_lhs left_ +:+ " = " +:+ render right_
  end.

End Syntax.
Export Syntax.

(* ===================================================================== *)
(** * The Python operations that generated programs use *)
(* ===================================================================== *)

Module Builtins.

(** ** base64 (binascii) *)

Definition b64_alphabet : list ascii :=
  list_ascii_of_string "ABCDEFGHIJKLMNOPQRSTUVWXYZabcdefghijklmnopqrstuvwxyz0123456789+/".

Definition b64_char (n : N) : ascii := nth (N.to_nat n) b64_alphabet "="%char.

Fixpoint b64_index_from (i : N) (alphabet : list ascii) (c : ascii) : option N :=
  match alphabet with
  | [] => None
  | a :: alphabet => if Ascii.eqb a c then Some i else b64_index_from (i + 1)%N alphabet c
  end.

Definition b64_index (c : ascii) : option N := b64_index_from 0%N b64_alphabet c.

(** [binascii.b2a_base64] without the newline: three bytes become four
    characters, the last group is padded with [=]. *)
Fixpoint b2a_base64 (data : list N) : list ascii :=
  match data with
  | a :: b :: c :: data =>
      let n := N.lor (N.shiftl a 16) (N.lor (N.shiftl b 8) c) in
      b64_char (N.shiftr n 18) :: b64_char (N.land (N.shiftr n 12) 63)
        :: b64_char (N.land (N.shiftr n 6) 63) :: b64_char (N.land n 63)
        :: b2a_base64 data
  | [a; b] =>
      let n := N.lor (N.shiftl a 16) (N.shiftl b 8) in
      [b64_char (N.shiftr n 18); b64_char (N.land (N.shiftr n 12) 63);
       b64_char (N.land (N.shiftr n 6) 63); "="%char]
  | [a] =>
      let n := N.shiftl a 16 in
      [b64_char (N.shiftr n 18); b64_char (N.land (N.shiftr n 12) 63); "="%char; "="%char]
  | [] => []
  end.

Definition bytes_of_ascii (l : list ascii) : list byte := map byte_of_ascii l.
Definition ascii_of_bytes (l : list byte) : list ascii := map ascii_of_byte l.

(** [base64.b64encode(data)] *)
Definition b64encode (data : list byte) : list byte :=
  bytes_of_ascii (b2a_base64 (map Byte.to_N data)).

(** [binascii.a2b_base64] in its default, non-strict mode: characters outside
    the alphabet are skipped, a complete pad sequence ends the input, and a
    quad left open is an error. *)
Fixpoint a2b_base64 (input : list ascii) (quad_pos pads leftchar : N) (out : list N)
    : result exc_class (list N) :=
  match input with
  | [] => if (quad_pos =? 0)%N then Ok out else Raise binascii_Error
  | this_ch :: input =>
      if Ascii.eqb this_ch "="%char then
        if (2 <=? quad_pos)%N && (4 <=? quad_pos + (pads + 1))%N then Ok out
        else a2b_base64 input quad_pos (pads + 1)%N leftchar out
      else
        match b64_index this_ch with
        | None => a2b_base64 input quad_pos pads leftchar out
        | Some this_ch =>
            if (quad_pos =? 0)%N then a2b_base64 input 1%N 0%N this_ch out
            else if (quad_pos =? 1)%N then
              a2b_base64 input 2%N 0%N (N.land this_ch 15)
                (out ++ [N.lor (N.shiftl leftchar 2) (N.shiftr this_ch 4)])
            else if (quad_pos =? 2)%N then
              a2b_base64 input 3%N 0%N (N.land this_ch 3)
                (out ++ [N.lor (N.shiftl leftchar 4) (N.shiftr this_ch 2)])
            else
              a2b_base64 input 0%N 0%N 0%N (out ++ [N.lor (N.shiftl leftchar 6) this_ch])
        end
  end.

Definition byte_of_N (n : N) : byte :=
  match Byte.of_N n with Some b => b | None => x00 end.

(** [base64.b64decode(s)] for a bytes argument *)
Definition b64decode (s : list byte) : result exc_class (list byte) :=
  out ← a2b_base64 (ascii_of_bytes s) 0 0 0 [];
  Ok (map byte_of_N out).

(** ** str *)

(** A [str] is a sequence of code points below 256. [s.encode('utf-8')]: *)
Definition utf8_encode (s : string) : list byte :=
  flat_map (λ c : ascii,
              let n := N_of_ascii c in
              if (n <? 128)%N then [byte_of_N n]
              else [byte_of_N (N.lor 192 (N.shiftr n 6)); byte_of_N (N.lor 128 (N.land n 63))])
           (list_ascii_of_string s).

(** [b.decode('utf-8')] on ASCII bytes (all that [b64encode] produces). *)
Definition ascii_decode (b : list byte) : string :=
  string_of_list_ascii (ascii_of_bytes b).

(** ** Equality, hashing, truth *)

Fixpoint py_eq (a b : value) {struct a} : bool :=
  match a with
  | VNone => match b with VNone => true | _ => false end
  | VBool x =>
      match b with
      | VBool y => Bool.eqb x y
      | VInt y => ((if x then 1 else 0) =? y)%Z
      | _ => false
      end
  | VInt x =>
      match b with
      | VInt y => (x =? y)%Z
      | VBool y => (x =? (if y then 1 else 0))%Z
      | _ => false
      end
  | VStr x => match b with VStr y => String.eqb x y | _ => false end
  | VBytes x => match b with VBytes y => bool_decide (x = y) | _ => false end
  | VDatetime x => match b with VDatetime y => String.eqb x y | _ => false end
  | VList l =>
      match b with
      | VList m =>
          (fix go (l m : list value) : bool :=
             match l, m with
             | [], [] => true
             | x :: l, y :: m => py_eq x y && go l m
             | _, _ => false
             end) l m
      | _ => false
      end
  | VTuple l =>
      match b with
      | VTuple m =>
          (fix go (l m : list value) : bool :=
             match l, m with
             | [], [] => true
             | x :: l, y :: m => py_eq x y && go l m
             | _, _ => false
             end) l m
      | _ => false
      end
  | VDict d =>
      match b with
      | VDict e =>
          Nat.eqb (length d) (length e)
          && (fix all (d : list (value * value)) : bool :=
                match d with
                | [] => true
                | (k, v) :: d =>
                    existsb (λ '(k', v'), py_eq k k' && py_eq v v') e && all d
                end) d
      | _ => false
      end
  | VClass c => match b with VClass d => bool_decide (c = d) | _ => false end
  | VModule x => match b with VModule y => String.eqb x y | _ => false end
  | VBuiltin x => match b with VBuiltin y => String.eqb x y | _ => false end
  | VEllipsis => match b with VEllipsis => true | _ => false end
  end.

(** Lists and dicts cannot be dict keys. *)
Fixpoint hashable (v : value) : bool :=
  match v with
  | VList _ | VDict _ => false
  | VTuple l => forallb hashable l
  | _ => true
  end.

Definition truthy (v : value) : bool :=
  match v with
  | VNone => false
  | VBool b => b
  | VInt z => negb (z =? 0)%Z
  | VStr s => negb (String.eqb s EmptyString)
  | VBytes b => negb (bool_decide (b = []))
  | VList l | VTuple l => negb (bool_decide (length l = 0%nat))
  | VDict d => negb (bool_decide (length d = 0%nat))
  | _ => true
  end.

(** [isinstance(v, c)] *)
Definition type_of (v : value) : option PyClass :=
  match v with
  | VNone => Some NoneType_
  | VBool _ => Some bool_
  | VInt _ => Some int_
  | VStr _ => Some str_
  | VBytes _ => Some bytes_
  | VDatetime _ => Some datetime_
  | VList _ => Some list_
  | VTuple _ => Some tuple_
  | VDict _ => Some dict_
  | VClass _ | VModule _ | VBuiltin _ | VEllipsis => None
  end.

Definition isinstance (v : value) (c : PyClass) : bool :=
  match type_of v with
  | Some d => issubclass d c
  | None => false
  end.

(** ** Containers *)

Fixpoint dict_get (d : list (value * value)) (k : value) : option value :=
  match d with
  | [] => None
  | (k', v) :: d => if py_eq k' k then Some v else dict_get d k
  end.

(** [d[k] = v]: an existing key keeps its place, a new one goes last. *)
Fixpoint dict_set (d : list (value * value)) (k v : value) : list (value * value) :=
  match d with
  | [] => [(k, v)]
  | (k', v') :: d => if py_eq k' k then (k', v) :: d else (k', v') :: dict_set d k v
  end.

(** A sequence index, negative ones counted from the end. *)
Definition seq_index (len : nat) (i : Z) : option nat :=
  let i := if (i <? 0)%Z then (i + Z.of_nat len)%Z else i in
  if (0 <=? i)%Z && (i <? Z.of_nat len)%Z then Some (Z.to_nat i) else None.

Definition as_index (k : value) : option Z :=
  match k with
  | VInt z => Some z
  | VBool b => Some (if b then 1 else 0)%Z
  | _ => None
  end.

Definition char_str (c : ascii) : value := VStr (String c EmptyString).
Definition byte_int (b : byte) : value := VInt (Z.of_N (Byte.to_N b)).

(** [iter(v)], run to the end. *)
Definition iter_values (v : value) : result exc_class (list value) :=
  match v with
  | VList l | VTuple l => Ok l
  | VDict d => Ok (map fst d)
  | VStr s => Ok (map char_str (list_ascii_of_string s))
  | VBytes b => Ok (map byte_int b)
  | _ => Raise TypeError
  end.

(** [v[k]] *)
Definition getitem (v k : value) : result exc_class value :=
  match v with
  | VList l | VTuple l =>
      match as_index k with
      | None => Raise TypeError
      | Some i =>
          match seq_index (length l) i with
          | Some n => match l !! n with Some x => Ok x | None => Raise IndexError end
          | None => Raise IndexError
          end
      end
  | VDict d =>
      if hashable k then
        match dict_get d k with Some x => Ok x | None => Raise KeyError end
      else Raise TypeError
  | VStr s =>
      match as_index k with
      | None => Raise TypeError
      | Some i =>
          let l := list_ascii_of_string s in
          match seq_index (length l) i with
          | Some n => match l !! n with Some c => Ok (char_str c) | None => Raise IndexError end
          | None => Raise IndexError
          end
      end
  | VBytes b =>
      match as_index k with
      | None => Raise TypeError
      | Some i =>
          match seq_index (length b) i with
          | Some n => match b !! n with Some x => Ok (byte_int x) | None => Raise IndexError end
          | None => Raise IndexError
          end
      end
  | _ => Raise TypeError
  end.

(** [v[k] = x], giving the container afterwards. *)
Definition setitem (v k x : value) : result exc_class value :=
  match v with
  | VList l =>
      match as_index k with
      | None => Raise TypeError
      | Some i =>
          match seq_index (length l) i with
          | Some n => Ok (VList (<[n := x]> l))
          | None => Raise IndexError
          end
      end
  | VDict d => if hashable k then Ok (VDict (dict_set d k x)) else Raise TypeError
  | _ => Raise TypeError
  end.

(** [enumerate(v)], as the list of pairs it yields. *)
Definition enumerate (l : list value) : list value :=
  imap (λ i x, VTuple [VInt (Z.of_nat i); x]) l.

Definition items (d : list (value * value)) : list value :=
  map (λ '(k, v), VTuple [k; v]) d.

(** [dict(pairs)] *)
Fixpoint dict_of_pairs (pairs : list value) (acc : list (value * value))
    : result exc_class (list (value * value)) :=
  match pairs with
  | [] => Ok acc
  | p :: pairs =>
      kv ← iter_values p;
      match kv with
      | [k; v] => if hashable k then dict_of_pairs pairs (dict_set acc k v) else Raise TypeError
      | _ => Raise ValueError
      end
  end.

(** Calling a class or a builtin function with positional arguments. *)
Definition call (f : value) (args : list value) : result exc_class value :=
  match f, args with
  | VClass list_, [] => Ok (VList [])
  | VClass list_, [v] => l ← iter_values v; Ok (VList l)
  | VClass tuple_, [] => Ok (VTuple [])
  | VClass tuple_, [v] => l ← iter_values v; Ok (VTuple l)
  | VClass dict_, [] => Ok (VDict [])
  | VClass dict_, [VDict d] => Ok (VDict d)
  | VClass dict_, [v] => l ← iter_values v; d ← dict_of_pairs l []; Ok (VDict d)
  | VBuiltin "enumerate", [v] => l ← iter_values v; Ok (VList (enumerate l))
  | VBuiltin "isinstance", [v; VClass c] => Ok (VBool (isinstance v c))
  | VBuiltin "isinstance", [_; _] => Raise TypeError
  | VClass _, _ | VBuiltin _, _ => Raise Unmodelled
  | _, _ => Raise TypeError
  end.

(** [v.m(args)] for the method names generated programs use: [copy], [items],
    [isoformat], [encode], [fromisoformat], [b64decode], [b64encode]. A value
    whose type has no such method raises [AttributeError]. ([append] changes
    its receiver and is a statement of [exec].) *)
Definition call_method (v : value) (m : string) (args : list value) : result exc_class value :=
  if String.eqb m "copy" then
    match v, args with
    | VDict d, [] => Ok (VDict d)
    | VList l, [] => Ok (VList l)
    | VDict _, _ | VList _, _ => Raise TypeError
    | _, _ => Raise AttributeError
    end
  else if String.eqb m "items" then
    match v, args with
    | VDict d, [] => Ok (VList (items d))
    | VDict _, _ => Raise TypeError
    | _, _ => Raise AttributeError
    end
  else if String.eqb m "isoformat" then
    match v, args with
    | VDatetime iso, [] => Ok (VStr iso)
    | VDatetime _, _ => Raise Unmodelled
    | _, _ => Raise AttributeError
    end
  else if String.eqb m "encode" then
    match v, args with
    | VStr s, [VStr "utf-8"] => Ok (VBytes (utf8_encode s))
    | VStr _, _ => Raise Unmodelled
    | _, _ => Raise AttributeError
    end
  else if String.eqb m "fromisoformat" then
    match v, args with
    | VClass datetime_, [VStr iso] => Ok (VDatetime iso)
    | VClass datetime_, _ => Raise TypeError
    | _, _ => Raise AttributeError
    end
  else if String.eqb m "b64decode" then
    match v, args with
    | VModule "base64", [VBytes s] => b ← b64decode s; Ok (VBytes b)
    | VModule "base64", [VStr s] => b ← b64decode (utf8_encode s); Ok (VBytes b)
    | VModule "base64", _ => Raise TypeError
    | _, _ => Raise AttributeError
    end
  else if String.eqb m "b64encode" then
    match v, args with
    | VModule "base64", [VBytes s] => Ok (VBytes (b64encode s))
    | VModule "base64", _ => Raise TypeError
    | _, _ => Raise AttributeError
    end
  else Raise Unmodelled.

(** [v.a] not followed by a call. *)
Definition getattr (v : value) (a : string) : result exc_class value :=
  match v with
  | VModule "datetime" => if String.eqb a "datetime" then Ok (VClass datetime_)
                          else Raise AttributeError
  | _ => Raise Unmodelled
  end.

(** The names every program finds without binding them. *)
Definition builtins : list (string * value) :=
  [("list", VClass list_); ("tuple", VClass tuple_); ("dict", VClass dict_);
   ("str", VClass str_); ("int", VClass int_); ("float", VClass float_);
   ("bool", VClass bool_); ("bytes", VClass bytes_); ("bytearray", VClass bytearray_);
   ("set", VClass set_); ("frozenset", VClass frozenset_);
   ("enumerate", VBuiltin "enumerate"); ("isinstance", VBuiltin "isinstance")].

Fixpoint assoc (l : list (string * value)) (id : string) : option value :=
  match l with
  | [] => None
  | (k, v) :: l => if String.eqb k id then Some v else assoc l id
  end.

(** ** json.dumps *)

Definition hex_digit (n : N) : ascii :=
  nth (N.to_nat n) (list_ascii_of_string "0123456789abcdef") "0"%char.

Definition dquote : ascii := "034"%char.
Definition backslash : ascii := "092"%char.

(** One character of a JSON string, [ensure_ascii] being on. *)
Definition json_escape_char (c : ascii) : list ascii :=
  let n := N_of_ascii c in
  if Ascii.eqb c dquote then [backslash; dquote]
  else if Ascii.eqb c backslash then [backslash; backslash]
  else if (n =? 10)%N then [backslash; "n"%char]
  else if (n =? 13)%N then [backslash; "r"%char]
  else if (n =? 9)%N then [backslash; "t"%char]
  else if (n =? 8)%N then [backslash; "b"%char]
  else if (n =? 12)%N then [backslash; "f"%char]
  else if (32 <=? n)%N && (n <=? 126)%N then [c]
  else [backslash; "u"%char; "0"%char; "0"%char;
        hex_digit (N.shiftr n 4); hex_digit (N.land n 15)].

Definition json_string (s : string) : string :=
  string_of_list_ascii
    (dquote :: flat_map json_escape_char (list_ascii_of_string s) ++ [dquote]).

(** A dict key as [json.dumps] writes it. *)
Definition json_key (k : value) : result exc_class string :=
  match k with
  | VStr s => Ok (json_string s)
  | VInt z => Ok (json_string (pretty z))
  | VBool true => Ok (json_string "true")
  | VBool false => Ok (json_string "false")
  | VNone => Ok (json_string "null")
  | _ => Raise TypeError
  end.

(** [json.dumps(v)] with its default settings. *)
Fixpoint json_dumps (v : value) : result exc_class string :=
  let dumps_list :=
    fix dumps_list (l : list value) : result exc_class (list string) :=
      match l with
      | [] => Ok []
      | x :: l => s ← json_dumps x; ss ← dumps_list l; Ok (s :: ss)
      end in
  match v with
  | VNone => Ok "null"
  | VBool true => Ok "true"
  | VBool false => Ok "false"
  | VInt z => Ok (pretty z)
  | VStr s => Ok (json_string s)
  | VList l | VTuple l => ss ← dumps_list l; Ok ("[" +:+ join ", " ss +:+ "]")
  | VDict d =>
      ss ← (fix dumps_items (d : list (value * value)) : result exc_class (list string) :=
              match d with
              | [] => Ok []
              | (k, x) :: d =>
                  ks ← json_key k; s ← json_dumps x; ss ← dumps_items d;
                  Ok ((ks +:+ ": " +:+ s) :: ss)
              end) d;
      Ok ("{" +:+ join ", " ss +:+ "}")
  | _ => Raise TypeError
  end.

End Builtins.
Export Builtins.

(* ===================================================================== *)
(** * What [compile] and [exec] do with a generated program *)
(* ===================================================================== *)

Module Interp.

(** A line of the program: its number in the source text (from 1), its
    indentation, its statement. *)
Abbreviation pline := (nat * nat * Statement)%type.

Definition is_comment (s : Statement) : bool :=
  match s with
  | LiteralStatement (LComment _) => true
  | AssignmentStatement (Hashed _) _ => true
  | _ => false
  end.

(** The lines the tokenizer keeps: comment lines vanish, wherever they stand. *)
Definition program_lines (statements : list (Z * Statement)) : list pline :=
  filter (λ '(_, _, s), is_comment s = false)
         (imap (λ i '(ind, s), (S i, Z.to_nat ind, s)) statements).

(** ** Syntax *)

Definition is_alpha (c : ascii) : bool :=
  let n := nat_of_ascii c in
  ((65 <=? n) && (n <=? 90)) || ((97 <=? n) && (n <=? 122)) || (n =? 95).

Definition is_alnum (c : ascii) : bool :=
  let n := nat_of_ascii c in
  is_alpha c || ((48 <=? n) && (n <=? 57)).

Definition is_identifier (id : string) : bool :=
  match id with
  | EmptyString => false
  | String c rest => is_alpha c && forallb is_alnum (list_ascii_of_string rest)
  end.

Fixpoint expr_ok (e : expr) : bool :=
  match e with
  | Name id => is_identifier id
  | Num _ | Str _ | DictDisplay | EllipsisLit => true
  | Subscript e i => expr_ok e && expr_ok i
  | Attribute e a => expr_ok e && is_identifier a
  | Call f args => expr_ok f && forallb expr_ok args
  | TupleComma es => negb (bool_decide (length es = 0%nat)) && forallb expr_ok es
  | TupleDisplay es => forallb expr_ok es
  | ListDisplay es => forallb expr_ok es
  | Eq a b => expr_ok a && expr_ok b
  end.

Definition target_ok (e : expr) : bool :=
  match e with
  | Name _ | Subscript _ _ | Attribute _ _ => expr_ok e
  | _ => false
  end.

Definition statement_ok (s : Statement) : bool :=
  match s with
  | AssignmentStatement (Hashed _) _ | LiteralStatement (LComment _) => true
  | AssignmentStatement (Target l) r | LiteralStatement (LAssign l r) =>
      target_ok l && expr_ok r
  | LiteralStatement (LFor targets iter) =>
      negb (bool_decide (length targets = 0%nat)) && forallb is_identifier targets
      && expr_ok iter
  | LiteralStatement (LIf c) | LiteralStatement (LElif c) => expr_ok c
  | LiteralStatement (LExpr e) => expr_ok e
  end.

Definition is_header (s : Statement) : bool :=
  match s with
  | LiteralStatement (LFor _ _) | LiteralStatement (LIf _) | LiteralStatement (LElif _) => true
  | _ => false
  end.

Definition is_if_clause (s : Statement) : bool :=
  match s with
  | LiteralStatement (LIf _) | LiteralStatement (LElif _) => true
  | _ => false
  end.

Definition is_elif (s : Statement) : bool :=
  match s with
  | LiteralStatement (LElif _) => true
  | _ => false
  end.

(** The indentation stack of the tokenizer; beside each open level, whether
    the statement last seen on it was an [if]/[elif] clause. *)
Fixpoint pop_to (ind : nat) (stack : list (nat * bool)) : list (nat * bool) :=
  match stack with
  | (i, _) :: rest => if ind <? i then pop_to ind rest else stack
  | [] => []
  end.

Fixpoint blocks_ok (prog : list pline) (stack : list (nat * bool)) (after_header : bool)
    : bool :=
  match prog with
  | [] => negb after_header
  | (_, ind, s) :: prog =>
      let stack :=
        if after_header then
          match stack with
          | (top, _) :: _ => if top <? ind then Some ((ind, false) :: stack) else None
          | [] => None
          end
        else
          match pop_to ind stack with
          | (top, flag) :: rest => if top =? ind then Some ((top, flag) :: rest) else None
          | [] => None
          end in
      match stack with
      | Some ((top, can_elif) :: rest) =>
          (if is_elif s then can_elif else true)
          && blocks_ok prog ((top, is_if_clause s) :: rest) (is_header s)
      | _ => false
      end
  end.

(** [compile(src, name, "exec")] accepts the program. *)
Definition syntax_ok (statements : list (Z * Statement)) : bool :=
  forallb (λ '(_, s), statement_ok s) statements
  && blocks_ok (program_lines statements) [(0%nat, false)] false.

(** ** Evaluation *)

Definition lookup_name (globals locals : gmap string value) (id : string)
    : result exc_class value :=
  match locals !! id with
  | Some v => Ok v
  | None =>
      match globals !! id with
      | Some v => Ok v
      | None =>
          match assoc builtins id with
          | Some v => Ok v
          | None => Raise NameError
          end
      end
  end.

Fixpoint eval (globals locals : gmap string value) (e : expr) : result exc_class value :=
  let evals :=
    fix evals (es : list expr) : result exc_class (list value) :=
      match es with
      | [] => Ok []
      | e :: es => v ← eval globals locals e; vs ← evals es; Ok (v :: vs)
      end in
  match e with
  | Name id => lookup_name globals locals id
  | Num n => Ok (VInt (Z.of_N n))
  | Str s => Ok (VStr s)
  | Subscript e i =>
      v ← eval globals locals e; k ← eval globals locals i; getitem v k
  | Attribute e a => v ← eval globals locals e; getattr v a
  | Call (Attribute e m) args =>
      v ← eval globals locals e; vs ← evals args; call_method v m vs
  | Call f args => fv ← eval globals locals f; vs ← evals args; call fv vs
  | TupleComma [] => Raise SyntaxError
  | TupleComma es => vs ← evals es; Ok (VTuple vs)
  | TupleDisplay [e] => eval globals locals e
  | TupleDisplay es => vs ← evals es; Ok (VTuple vs)
  | ListDisplay es => vs ← evals es; Ok (VList vs)
  | DictDisplay => Ok (VDict [])
  | Eq a b => x ← eval globals locals a; y ← eval globals locals b; Ok (VBool (py_eq x y))
  | EllipsisLit => Ok VEllipsis
  end.

(** [target = v]. Containers are values here: storing into [t[k]] rebinds [t]
    to the container after the store, which is what the in-place store does
    as long as the container is reached through [t] alone. *)
Fixpoint assign_target (globals : gmap string value) (target : expr) (v : value)
    (locals : gmap string value) : result exc_class (gmap string value) :=
  match target with
  | Name id => Ok (<[id := v]> locals)
  | Subscript t k =>
      c ← eval globals locals t;
      kv ← eval globals locals k;
      c ← setitem c kv v;
      assign_target globals t c locals
  | _ => Raise SyntaxError
  end.

(** An expression statement; [t.append(x)] changes the list bound to [t]. *)
Definition exec_expr (globals : gmap string value) (e : expr) (locals : gmap string value)
    : result exc_class (gmap string value) :=
  match e with
  | Call (Attribute t "append") [x] =>
      c ← eval globals locals t;
      v ← eval globals locals x;
      match c with
      | VList l => assign_target globals t (VList (l ++ [v])) locals
      | _ => Raise AttributeError
      end
  | _ => _ ← eval globals locals e; Ok locals
  end.

(** [for targets in ...]: binding the targets to one item. *)
Fixpoint bind_names (targets : list string) (vs : list value) (locals : gmap string value)
    : result exc_class (gmap string value) :=
  match targets, vs with
  | [], [] => Ok locals
  | t :: targets, v :: vs => bind_names targets vs (<[t := v]> locals)
  | _, _ => Raise ValueError
  end.

Definition bind_targets (targets : list string) (item : value) (locals : gmap string value)
    : result exc_class (gmap string value) :=
  match targets with
  | [] => Raise SyntaxError
  | [t] => Ok (<[t := item]> locals)
  | _ => vs ← iter_values item; bind_names targets vs locals
  end.

(** ** Execution *)

(** An exception together with the line of the program it was raised on. *)
Abbreviation raised_at := (nat * exc_class)%type.

Definition at_line {A} (n : nat) (m : result exc_class A) : result raised_at A :=
  match m with
  | Ok a => Ok a
  | Raise e => Raise (n, e)
  end.

(** The suite of a header at indentation [ind]: the lines that follow and are
    indented deeper; and what comes after it. *)
Fixpoint span_deeper (ind : nat) (prog : list pline) : list pline * list pline :=
  match prog with
  | [] => ([], [])
  | (n, i, s) :: rest =>
      if ind <? i then
        let '(body, rest) := span_deeper ind rest in ((n, i, s) :: body, rest)
      else ([], prog)
  end.

(** After a clause of an [if] chain was taken: pass over the [elif] clauses
    that follow on the same level, suites included. *)
Fixpoint skip_elifs (ind : nat) (prog : list pline) : list pline :=
  match prog with
  | [] => []
  | (n, i, s) :: rest =>
      if (ind <? i) || ((i =? ind) && is_elif s) then skip_elifs ind rest else prog
  end.

Fixpoint for_each {E S} (bind_item : value → S → result E S) (body : S → result E S)
    (items : list value) (s : S) : result E S :=
  match items with
  | [] => Ok s
  | x :: items => s ← bind_item x s; s ← body s; for_each bind_item body items s
  end.

(** [exec(code, globals, locals)].  The iterable of a [for] is read when the
    loop starts.  [fuel] bounds the nesting of the recursion; one more than
    the number of lines is always enough. *)
Fixpoint exec (fuel : nat) (globals : gmap string value) (prog : list pline)
    (locals : gmap string value) : result raised_at (gmap string value) :=
  match fuel with
  | O => Raise (0%nat, OutOfFuel)
  | S fuel =>
    match prog with
    | [] => Ok locals
    | (n, ind, s) :: rest =>
      match s with
      | AssignmentStatement (Hashed _) _ | LiteralStatement (LComment _) =>
          exec fuel globals rest locals
      | AssignmentStatement (Target l) r | LiteralStatement (LAssign l r) =>
          locals ← at_line n (v ← eval globals locals r; assign_target globals l v locals);
          exec fuel globals rest locals
      | LiteralStatement (LExpr e) =>
          locals ← at_line n (exec_expr globals e locals);
          exec fuel globals rest locals
      | LiteralStatement (LFor targets iter) =>
          let '(body, rest) := span_deeper ind rest in
          items ← at_line n (v ← eval globals locals iter; iter_values v);
          locals ← for_each (λ x locals, at_line n (bind_targets targets x locals))
                            (exec fuel globals body) items locals;
          exec fuel globals rest locals
      | LiteralStatement (LIf c) | LiteralStatement (LElif c) =>
          let '(body, rest) := span_deeper ind rest in
          b ← at_line n (v ← eval globals locals c; Ok (truthy v));
          if (b : bool) then
            locals ← exec fuel globals body locals;
            exec fuel globals (skip_elifs ind rest) locals
          else exec fuel globals rest locals
      end
    end
  end.

Definition run (globals : gmap string value) (prog : list pline)
    (locals : gmap string value) : result raised_at (gmap string value) :=
  exec (S (length prog)) globals prog locals.

(** ** [str.splitlines] *)

Definition is_linebreak (c : ascii) : bool :=
  let n := nat_of_ascii c in
  (n =? 10) || (n =? 11) || (n =? 12) || (n =? 13)
  || (n =? 28) || (n =? 29) || (n =? 30) || (n =? 133).

Fixpoint splitlines_from (cur : list ascii) (started : bool) (s : string) : list string :=
  match s with
  | EmptyString => if started then [string_of_list_ascii (reverse cur)] else []
  | String c rest =>
      if Ascii.eqb c "013"%char then
        match rest with
        | String "010"%char rest' =>
            string_of_list_ascii (reverse cur) :: splitlines_from [] false rest'
        | _ => string_of_list_ascii (reverse cur) :: splitlines_from [] false rest
        end
      else if is_linebreak c then
        string_of_list_ascii (reverse cur) :: splitlines_from [] false rest
      else splitlines_from (c :: cur) true rest
  end.

Definition splitlines (s : string) : list string := splitlines_from [] false s.

End Interp.
Export Interp.

(* ===================================================================== *)
(** * code_generator.py: statements and the program builder *)
(* ===================================================================== *)

Module code_generator.

Record CodeGenerator := mkCodeGenerator {
  statements : list (Z * Statement);
  current_indent : Z;
  consts : gmap string value;
  var_i : N
}.

(** [CodeGenerator()] *)
Definition new : CodeGenerator :=
  {| statements := []; current_indent := 0; consts := ∅; var_i := 0 |}.

(** [f"var{i}"] *)
Definition var_name (i : N) : string := "var" +:+ pretty i.

Definition get_var (self : CodeGenerator) : string * CodeGenerator :=
  (var_name (var_i self),
   {| statements := statements self; current_indent := current_indent self;
      consts := consts self; var_i := var_i self + 1 |}).

Fixpoint get_vars (n : nat) (self : CodeGenerator) : list string * CodeGenerator :=
  match n with
  | O => ([], self)
  | S n =>
      let '(v, self) := get_var self in
      let '(vs, self) := get_vars n self in
      (v :: vs, self)
  end.

Definition get_const (val : value) (self : CodeGenerator) : string * CodeGenerator :=
  let '(var, self) := get_var self in
  (var,
   {| statements := statements self; current_indent := current_indent self;
      consts := <[var := val]> (consts self); var_i := var_i self |}).

Definition ensure_import (module : string) (self : CodeGenerator) : CodeGenerator :=
  {| statements := statements self; current_indent := current_indent self;
     consts := <[module := VModule module]> (consts self); var_i := var_i self |}.

Definition indent (self : CodeGenerator) : CodeGenerator :=
  {| statements := statements self; current_indent := current_indent self + 1;
     consts := consts self; var_i := var_i self |}.

Definition add_statement (statement : Statement) (self : CodeGenerator) : CodeGenerator :=
  {| statements := statements self ++ [(current_indent self, statement)];
     current_indent := current_indent self;
     consts := consts self; var_i := var_i self |}.

Definition assign (left_ right_ : expr) (self : CodeGenerator) : CodeGenerator :=
  let left_ :=
    if String.eqb (render left_) (render right_) then Hashed left_ else Target left_ in
  add_statement (AssignmentStatement left_ right_) self.

Definition assign_new (e : expr) (self : CodeGenerator) : string * CodeGenerator :=
  let '(new, self) := get_var self in
  (new, assign (Name new) e self).

Definition literal (statement : line) (self : CodeGenerator) : CodeGenerator :=
  add_statement (LiteralStatement statement) self.

Definition comment (statement : string) (self : CodeGenerator) : CodeGenerator :=
  add_statement (LiteralStatement (LComment statement)) self.

Definition dedent (self : CodeGenerator) : CodeGenerator :=
  let self := literal (LExpr EllipsisLit) self in
  {| statements := statements self; current_indent := current_indent self - 1;
     consts := consts self; var_i := var_i self |}.

(** [blocks]: a new block is opened whenever the indentation changes. *)
Fixpoint blocks_from (current : option Z) (acc : list (Z * list Statement))
    (l : list (Z * Statement)) : list (Z * list Statement) :=
  match l with
  | [] => acc
  | (ind, statement) :: l =>
      let acc := if bool_decide (Some ind = current) then acc else acc ++ [(ind, [])] in
      let acc :=
        match reverse acc with
        | (i, b) :: r => reverse r ++ [(i, b ++ [statement])]
        | [] => acc
        end in
      blocks_from (Some ind) acc l
  end.

Definition blocks (self : CodeGenerator) : list (Z * list Statement) :=
  blocks_from None [] (statements self).

Definition nl : string := String "010" EmptyString.

(** ["    " * indent]: a negative count gives the empty string. *)
Fixpoint spaces (n : nat) : string :=
  match n with
  | O => EmptyString
  | S n => "    " +:+ spaces n
  end.

Definition to_str (self : CodeGenerator) : string :=
  join nl (map (λ '(ind, statement), spaces (Z.to_nat ind) +:+ Statement_to_str statement)
               (statements self)).

(** ** [_TracebackSourceContextManager] *)

(** [linecache.cache]: per file name, [(size, mtime, lines, fullname)]; the
    [mtime] stored is always [None] and is left out. *)
Abbreviation linecache_entry := (nat * list string * string)%type.

(** A raised exception as [__exit__] sees it: its class, the notes attached
    so far, and [exc_tb.tb_next.tb_lineno] when the traceback has a frame
    below the one of [func], that is, when it was raised while the generated
    program ran. *)
Record raised := mkRaised {
  exc : exc_class;
  notes : list string;
  tb_next_lineno : option nat
}.

Record _TracebackSourceContextManager := mkTraceback {
  src : string;
  name : string
}.

Definition __enter__ (self : _TracebackSourceContextManager)
    (cache : gmap string linecache_entry) : gmap string linecache_entry :=
  <[name self := (String.length (src self),
                  map (λ line, line +:+ nl) (splitlines (src self)),
                  name self)]> cache.

Definition add_note (note : string) (e : raised) : raised :=
  {| exc := exc e; notes := notes e ++ [note]; tb_next_lineno := tb_next_lineno e |}.

(** [__exit__] returns [False] on every path: what was raised goes on to the
    caller.  The result is the cache afterwards and the exception on its way
    out, if any. *)
Definition __exit__ (self : _TracebackSourceContextManager) (exc_val : option raised)
    (cache : gmap string linecache_entry)
    : gmap string linecache_entry * option raised :=
  match exc_val with
  | None => (delete (name self) cache, None)
  | Some exc_val =>
      let lines := splitlines (src self) in
      match tb_next_lineno exc_val with
      | Some lineno =>
          match lines !! (lineno - 1) with
          | Some failing =>
              (cache,
               Some (add_note ("Exception occurred in dynamically generated code:" +:+ nl
                               +:+ failing +:+ nl +:+ nl
                               +:+ "Full source:" +:+ nl +:+ src self) exc_val))
          | None =>
              (* lines[...] itself fails *)
              (cache, Some {| exc := IndexError; notes := []; tb_next_lineno := None |})
          end
      | None => (cache, Some exc_val)
      end
  end.

(** ** [CodeGenerator.compile] *)

(** What the closure [func] holds on to. *)
Record CompiledRoutine := mkRoutine {
  routine_src : string;
  routine_name : string;
  routine_code : list pline;
  routine_consts : gmap string value;
  routine_in_var : string;
  routine_out_var : string
}.

Definition compile (self : CodeGenerator) (name : string) (in_var out_var : string)
    : result exc_class CompiledRoutine :=
  let src := to_str self in
  if syntax_ok (statements self) then
    Ok {| routine_src := src; routine_name := name;
          routine_code := program_lines (statements self);
          routine_consts := consts self;
          routine_in_var := in_var; routine_out_var := out_var |}
  else Raise SyntaxError.

(** [func(data)], with the line cache it works on made explicit. *)
Definition func (r : CompiledRoutine) (data : value) (cache : gmap string linecache_entry)
    : result raised value * gmap string linecache_entry :=
  let cm := {| src := routine_src r; name := routine_name r |} in
  let cache := __enter__ cm cache in
  let scope : gmap string value := {[ routine_in_var r := data ]} in
  let leave (e : raised) :=
    match __exit__ cm (Some e) cache with
    | (cache, Some e) => (Raise e, cache)
    | (cache, None) => (Raise e, cache)
    end in
  match run (routine_consts r) (routine_code r) scope with
  | Raise (lineno, e) =>
      leave {| exc := e; notes := []; tb_next_lineno := Some lineno |}
  | Ok scope =>
      match scope !! routine_out_var r with
      | None => leave {| exc := KeyError; notes := []; tb_next_lineno := None |}
      | Some v => (Ok v, fst (__exit__ cm None cache))
      end
  end.

(** The result of a call alone. *)
Definition call_routine (r : CompiledRoutine) (data : value) : result exc_class value :=
  match fst (func r data ∅) with
  | Ok v => Ok v
  | Raise e => Raise (exc e)
  end.

End code_generator.
Export code_generator.

(* ===================================================================== *)
(** * json_serialization.py: the two compilers *)
(* ===================================================================== *)

(** [json_serialization.py] takes its [CodeGenerator] from a module
    [dyn_codegen] that is not among the sources; the [CodeGenerator] of
    [code_generator.py] above (same class, same methods) stands for it. *)

Module json_serialization.

(** [_serialize_json_type_blind]: the checks of the source in their order:
    simple JSON values, [bytes], (no value here has a [serialize_json]
    attribute), mappings, collections, [datetime]. *)
Fixpoint _serialize_json_type_blind (data : value) : result exc_class value :=
  match data with
  | VNone | VBool _ | VInt _ | VStr _ => Ok data
  | VBytes b => Ok (VStr (ascii_decode (b64encode b)))
  | VDict d =>
      (fix comprehension (d acc : list (value * value)) : result exc_class value :=
         match d with
         | [] => Ok (VDict acc)
         | (key, value) :: d =>
             k ← _serialize_json_type_blind key;
             k ← json_dumps k;
             v ← _serialize_json_type_blind value;
             comprehension d (dict_set acc (VStr k) v)
         end) d []
  | VList l | VTuple l =>
      l ← (fix comprehension (l : list value) : result exc_class (list value) :=
             match l with
             | [] => Ok []
             | item :: l =>
                 x ← _serialize_json_type_blind item; xs ← comprehension l; Ok (x :: xs)
             end) l;
      Ok (VList l)
  | VDatetime iso => Ok (VStr iso)
  | VClass _ | VModule _ | VBuiltin _ | VEllipsis => Raise SerializationError
  end.

Fixpoint issubclass_json_type (tp : TypeHint) : bool :=
  match tp with
  | Cls c =>
      (* tp in (str, int, float, bool, NoneType); (bytes, bytearray) and
         every other bare class (no origin) give False *)
      match c with
      | str_ | int_ | float_ | bool_ | NoneType_ => true
      | _ => false
      end
  | Union args => forallb issubclass_json_type args
  | Generic origin args =>
      if issubclass_Mapping origin then
        match args with
        | [key_t; val_t] => is_Cls str_ key_t && issubclass_json_type val_t
        | _ => false
        end
      else if issubclass_Collection origin then
        match args with
        | [] => false
        | _ =>
            if bool_decide (origin = tuple_) then
              match args with
              | [a; Ellipsis_] => issubclass_json_type a          (* Tuple[T, ...] *)
              | _ => forallb issubclass_json_type args            (* Tuple[T1, T2, ...] *)
              end
            else
              match args with
              | [a] => issubclass_json_type a
              | _ => false
              end
        end
      else false
  | Ellipsis_ | None_ => false
  end.

(** [type(type_) in (typing.Union, types.UnionType)] *)
Definition is_union (type_ : TypeHint) : bool :=
  match type_ with Union _ => true | _ => false end.

(** The "remove None from union types" step. *)
Definition remove_none (type_ : TypeHint) : result exc_class TypeHint :=
  let args := get_args type_ in
  if is_union type_ then
    if existsb is_NoneType args then
      let args := filter (λ arg, is_NoneType arg = false) args in
      typing_Union args
    else Ok type_
  else Ok type_.

Definition b64decode_of (in_var : expr) : expr :=
  Call (Attribute (Name "base64") "b64decode") [Call (Attribute in_var "encode") [Str "utf-8"]].

Fixpoint _compile_json_serializer (fuel : nat) (type_ : TypeHint) (in_var out_var : expr)
    (codegen : CodeGenerator) : result exc_class CodeGenerator :=
  match fuel with
  | O => Raise OutOfFuel
  | S fuel =>
    if issubclass_json_type type_ then Ok (assign out_var in_var codegen)
    else
      type_ ← remove_none type_;
      let args := get_args type_ in
      match base_of type_ with
      | BUnion | BEllipsis | BNone =>
          (* [Ellipsis], [None] and [typing.Union] are no instances of [type]:
             the error is raised at once.  [types.UnionType] is one, passes
             every test below without a match, and meets the same error at
             the end. *)
          Raise SerializationError
      | BClass base_class =>
        if issubclass_SimpleJson base_class then Ok (assign out_var in_var codegen)
        else if issubclass_Mapping base_class then
          if negb (bool_decide (length args = 2%nat)) then Raise DeserializationError
          else
            (* key_var, value_var = codegen.get_vars() *)
            let '(vars, codegen) := get_vars 1 codegen in
            match vars, args with
            | [key_var; value_var], [key_type; value_type] =>
                (* issubclass(args[0], str): a class, or a generic alias, which
                   answers as its origin; anything else is no class *)
                key_is_str ← match key_type with
                             | Cls c | Generic c _ => Ok (issubclass c str_)
                             | Union _ | Ellipsis_ | None_ => Raise TypeError
                             end;
                if (key_is_str : bool) then
                  let codegen :=
                    literal (LAssign out_var (Call (Attribute in_var "copy") [])) codegen in
                  let codegen :=
                    literal (LFor [key_var; value_var]
                               (Call (Attribute out_var "items") [])) codegen in
                  let codegen := indent codegen in
                  codegen ← _compile_json_serializer fuel key_type
                              (Name value_var) (Name value_var) codegen;
                  let codegen :=
                    assign (Subscript out_var (Name key_var)) (Name value_var) codegen in
                  Ok (dedent codegen)
                else
                  let codegen := literal (LAssign out_var DictDisplay) codegen in
                  let codegen :=
                    literal (LFor [key_var; value_var]
                               (Call (Attribute in_var "items") [])) codegen in
                  let codegen := indent codegen in
                  codegen ← _compile_json_serializer fuel key_type
                              (Name key_var) (Name key_var) codegen;
                  codegen ← _compile_json_serializer fuel value_type
                              (Name value_var) (Name value_var) codegen;
                  let codegen :=
                    assign (Subscript out_var (Name key_var)) (Name value_var) codegen in
                  Ok (dedent codegen)
            | _, _ => Raise ValueError
            end
        else if issubclass_Collection base_class then
          if bool_decide (base_class = tuple_) && negb (is_variadic args) then
            '(out, codegen) ←
              for_enumerate
                (λ i elem_type '(out, codegen),
                   let '(var, codegen) := get_var codegen in
                   codegen ← _compile_json_serializer fuel elem_type
                               (Subscript out_var (Num i)) (Name var) codegen;
                   Ok (out ++ [var], codegen))
                0%N args ([], codegen);
            Ok (assign out_var (TupleComma (map Name out)) codegen)
          else
            args ← strip_ellipsis args;
            match args with
            | [elem_type] =>
                let '(vars, codegen) := get_vars 2 codegen in
                match vars with
                | [elem_i; elem_var] =>
                    let codegen := assign out_var (Call (Name "list") [in_var]) codegen in
                    let codegen :=
                      literal (LFor [elem_i; elem_var]
                                 (Call (Name "enumerate") [out_var])) codegen in
                    let codegen := indent codegen in
                    codegen ← _compile_json_serializer fuel elem_type
                                (Name elem_var) (Name elem_var) codegen;
                    let codegen :=
                      assign (Subscript out_var (Name elem_i)) (Name elem_var) codegen in
                    Ok (dedent codegen)
                | _ => Raise ValueError
                end
            | _ => Raise DeserializationError
            end
        else if issubclass base_class bytes_ then
          let codegen := ensure_import "base64" codegen in
          Ok (assign out_var (b64decode_of in_var) codegen)
        else if issubclass base_class datetime_ then
          Ok (assign out_var (Call (Attribute in_var "isoformat") []) codegen)
        else
          (* no hook, no pydantic model among the classes modelled *)
          Raise SerializationError
      end
  end.

Definition fromisoformat_of (in_var : expr) : expr :=
  Call (Attribute (Attribute (Name "datetime") "datetime") "fromisoformat") [in_var].

Fixpoint _compile_json_deserializer (fuel : nat) (type_ : TypeHint) (in_var out_var : expr)
    (codegen : CodeGenerator) : result exc_class CodeGenerator :=
  match fuel with
  | O => Raise OutOfFuel
  | S fuel =>
    if issubclass_json_type type_ then Ok (assign out_var in_var codegen)
    else
      type_ ← remove_none type_;
      let args := get_args type_ in
      match base_of type_ with
      | BUnion | BEllipsis | BNone => Raise DeserializationError
      | BClass base_class =>
        if issubclass_SimpleJson base_class then Ok (assign out_var in_var codegen)
        else if issubclass_Mapping base_class then
          match args with
          | [key_type; value_type] =>
              let '(base_class_name, codegen) := get_const (VClass base_class) codegen in
              let '(vars, codegen) := get_vars 2 codegen in
              match vars with
              | [key_var; value_var] =>
                  let codegen := assign out_var (Call (Name base_class_name) []) codegen in
                  let codegen :=
                    literal (LFor [key_var; value_var]
                               (Call (Attribute in_var "items") [])) codegen in
                  let codegen := indent codegen in
                  codegen ← _compile_json_deserializer fuel key_type
                              (Name key_var) (Name key_var) codegen;
                  codegen ← _compile_json_deserializer fuel value_type
                              (Name value_var) (Name value_var) codegen;
                  let codegen :=
                    assign (Subscript out_var (Name key_var)) (Name value_var) codegen in
                  Ok (dedent codegen)
              | _ => Raise ValueError
              end
          | _ => Raise DeserializationError
          end
        else if issubclass_Collection base_class then
          if bool_decide (base_class = tuple_) && negb (is_variadic args) then
            (* the two tests [base_class is not tuple] inside this branch
               never hold *)
            '(out, codegen) ←
              for_enumerate
                (λ i elem_type '(out, codegen),
                   let '(var, codegen) := get_var codegen in
                   codegen ← _compile_json_deserializer fuel elem_type
                               (Subscript in_var (Num i)) (Name var) codegen;
                   Ok (out ++ [var], codegen))
                0%N args ([], codegen);
            Ok (assign out_var (TupleComma (map Name out)) codegen)
          else
            args ← strip_ellipsis args;
            match args with
            | [elem_type] =>
                let '(base_class_name, codegen) := get_const (VClass base_class) codegen in
                let '(elem_var, codegen) := get_var codegen in
                let codegen := assign out_var (ListDisplay []) codegen in
                let codegen := literal (LFor [elem_var] in_var) codegen in
                let codegen := indent codegen in
                codegen ← _compile_json_deserializer fuel elem_type
                            (Name elem_var) (Name elem_var) codegen;
                let codegen :=
                  literal (LExpr (Call (Attribute out_var "append") [Name elem_var])) codegen in
                let codegen := dedent codegen in
                Ok (assign out_var (Call (Name base_class_name) [out_var]) codegen)
            | _ => Raise DeserializationError
            end
        else if issubclass base_class bytes_ then
          let codegen := ensure_import "base64" codegen in
          Ok (assign out_var (b64decode_of in_var) codegen)
        else if issubclass base_class datetime_ then
          let codegen := ensure_import "datetime" codegen in
          Ok (assign out_var (fromisoformat_of in_var) codegen)
        else Raise DeserializationError
      end
  end.

(** [repr(type_)], for the name a compiled routine is registered under. *)
Definition class_name (c : PyClass) : string :=
  match c with
  | str_ => "str" | int_ => "int" | float_ => "float" | bool_ => "bool"
  | NoneType_ => "NoneType" | bytes_ => "bytes" | bytearray_ => "bytearray"
  | datetime_ => "datetime.datetime" | list_ => "list" | tuple_ => "tuple"
  | dict_ => "dict" | set_ => "set" | frozenset_ => "frozenset"
  end.

Fixpoint repr_arg (tp : TypeHint) : string :=
  match tp with
  | Cls NoneType_ => "None"
  | Cls c => class_name c
  | Generic o args => class_name o +:+ "[" +:+ join ", " (map repr_arg args) +:+ "]"
  | Union args => join " | " (map repr_arg args)
  | Ellipsis_ => "..."
  | None_ => "None"
  end.

Definition repr (tp : TypeHint) : string :=
  match tp with
  | Cls c => "<class '" +:+ class_name c +:+ "'>"
  | _ => repr_arg tp
  end.

Definition compile_json_serializer (type_ : TypeHint) : result exc_class CompiledRoutine :=
  let codegen := code_generator.new in
  codegen ← _compile_json_serializer (hint_size type_) type_ (Name "inp") (Name "out") codegen;
  compile codegen ("<pipifax_io compiled json serialization for " +:+ repr type_ +:+ ">")
          "inp" "out".

Definition compile_json_deserializer (type_ : TypeHint) : result exc_class CompiledRoutine :=
  let codegen := code_generator.new in
  codegen ← _compile_json_deserializer (hint_size type_) type_ (Name "inp") (Name "out") codegen;
  compile codegen ("<pipifax_io compiled json deserialization for " +:+ repr type_ +:+ ">")
          "inp" "out".

(** [serialize_json(data, type_)]; [None_] is the [None] of [type_ is None]. *)
Definition serialize_json (data : value) (type_ : TypeHint) : result exc_class value :=
  match type_ with
  | None_ => _serialize_json_type_blind data
  | _ => r ← compile_json_serializer type_; call_routine r data
  end.

Definition deserialize_json (data : value) (type_ : TypeHint) : result exc_class value :=
  r ← compile_json_deserializer type_; call_routine r data.

End json_serialization.

(* ===================================================================== *)
(** * type_serializer.py: the abstract code generators *)
(* ===================================================================== *)

Module type_serializer.

Definition read_type_hint (type_ : TypeHint) : base_t * list TypeHint :=
  let type_ := match type_ with None_ => Cls NoneType_ | _ => type_ end in
  let base_type := base_of type_ in
  let args := get_args type_ in
  let args := map (λ t, match t with None_ => Cls NoneType_ | _ => t end) args in
  (base_type, args).

(** The object a base type is when it is captured as a constant. *)
Definition base_value (b : base_t) : value :=
  match b with
  | BClass c => VClass c
  | BUnion => VBuiltin "types.UnionType"
  | BEllipsis => VEllipsis
  | BNone => VNone
  end.

(** The two nested loops of [union] over [base_types]: some two different
    positions hold the same object. *)
Definition same_origin_twice (base_types : list base_t) : bool :=
  existsb (λ '(i, base_type),
             existsb (λ '(j, base_type2),
                        if i =? j then false else bool_decide (base_type = base_type2))
                     (imap pair base_types))
          (imap pair base_types).

(** [f"{'el' if i != 0 else ''}if cond:"] *)
Definition if_or_elif (i : N) (cond : expr) : line :=
  if (i =? 0)%N then LIf cond else LElif cond.

(** ** [SerializerCodegen] *)

(** The abstract methods. *)
Class SerializerCodegen := {
  ser_is_scalar : TypeHint → bool;
  ser_scalar : TypeHint → expr → expr → CodeGenerator → result exc_class CodeGenerator;
  ser_tuple_ : list expr → expr → CodeGenerator → result exc_class CodeGenerator
}.

Module Serializer.
Section methods.
Context `{SerializerCodegen}.

(** [self.any], as the other methods call it. *)
Variable any : TypeHint → expr → expr → CodeGenerator → result exc_class CodeGenerator.

Definition mapping (key_type value_type : TypeHint) (in_var out_var : expr)
    (codegen : CodeGenerator) : result exc_class CodeGenerator :=
  let codegen :=
    assign in_var (Call (Name "list") [Call (Attribute in_var "items") []]) codegen in
  any (Generic list_ [Generic tuple_ [key_type; value_type]]) in_var out_var codegen.

Definition collection (element_type : TypeHint) (in_var out_var : expr)
    (codegen : CodeGenerator) : result exc_class CodeGenerator :=
  let '(vars, codegen) := get_vars 2 codegen in
  match vars with
  | [elem_i; elem_var] =>
      let codegen := assign out_var (Call (Name "list") [in_var]) codegen in
      let codegen :=
        literal (LFor [elem_i; elem_var] (Call (Name "enumerate") [out_var])) codegen in
      let codegen := indent codegen in
      codegen ← any element_type (Name elem_var) (Name elem_var) codegen;
      let codegen := assign (Subscript out_var (Name elem_i)) (Name elem_var) codegen in
      Ok (dedent codegen)
  | _ => Raise ValueError
  end.

Definition union (args : list TypeHint) (in_var out_var : expr)
    (codegen : CodeGenerator) : result exc_class CodeGenerator :=
  let base_types := map base_of args in
  if same_origin_twice base_types then Raise SerializationError
  else
    for_enumerate
      (λ i '(arg, origin) codegen,
         let '(type_var, codegen) := get_const (base_value origin) codegen in
         let codegen :=
           literal (if_or_elif i (Call (Name "isinstance") [in_var; Name type_var]))
                   codegen in
         let codegen := indent codegen in
         let '(tmp, codegen) := assign_new (TupleDisplay [Num i; in_var]) codegen in
         codegen ← any (Generic tuple_ [Cls int_; arg]) (Name tmp) out_var codegen;
         Ok (dedent codegen))
      0%N (zip args base_types) codegen.

Definition type_ (type_ : TypeHint) (base_type : PyClass) (args : list TypeHint)
    (in_var out_var : expr) (codegen : CodeGenerator) : result exc_class CodeGenerator :=
  if issubclass_Mapping base_type then
    match args with
    | [key_type; value_type] => mapping key_type value_type in_var out_var codegen
    | _ => Raise SerializationError
    end
  else if issubclass_Collection base_type
          && negb (issubclass base_type str_ || issubclass base_type bytes_) then
    if bool_decide (base_type = tuple_) && negb (is_variadic args) then
      let '(args_vars, codegen) := get_vars (length args) codegen in
      codegen ←
        for_enumerate
          (λ i '(arg_var, arg_type) codegen,
             let '(tmp, codegen) := assign_new (Subscript in_var (Num i)) codegen in
             any arg_type (Name tmp) (Name arg_var) codegen)
          0%N (zip args_vars args) codegen;
      ser_tuple_ (map Name args_vars) out_var codegen
    else
      args ← strip_ellipsis args;
      match args with
      | [element_type] => collection element_type in_var out_var codegen
      | _ => Raise SerializationError
      end
  else Raise SerializationError.

Definition any_body (type__ : TypeHint) (in_var out_var : expr)
    (codegen : CodeGenerator) : result exc_class CodeGenerator :=
  if ser_is_scalar type__ then ser_scalar type__ in_var out_var codegen
  else
    let '(base_type, args) := read_type_hint type__ in
    match base_type with
    | BUnion => union args in_var out_var codegen
    | BEllipsis | BNone => Raise TypeHintError
    | BClass base_type => type_ type__ base_type args in_var out_var codegen
    end.

End methods.

(** [any]: [fuel] bounds the depth of the calls of [self.any]. *)
Fixpoint any `{SerializerCodegen} (fuel : nat) (type_ : TypeHint) (in_var out_var : expr)
    (codegen : CodeGenerator) : result exc_class CodeGenerator :=
  match fuel with
  | O => Raise OutOfFuel
  | S fuel => any_body (any fuel) type_ in_var out_var codegen
  end.

End Serializer.

(** ** [DeserializerCodegen] *)

Class DeserializerCodegen := {
  de_is_scalar : TypeHint → bool;
  de_scalar : TypeHint → expr → expr → CodeGenerator → result exc_class CodeGenerator;
  de_tuple_ : PyClass → list expr → expr → CodeGenerator → result exc_class CodeGenerator
}.

Module Deserializer.
Section methods.
Context `{DeserializerCodegen}.

Variable any : TypeHint → expr → expr → CodeGenerator → result exc_class CodeGenerator.

Definition mapping (class_ : PyClass) (key_type value_type : TypeHint)
    (in_var out_var : expr) (codegen : CodeGenerator) : result exc_class CodeGenerator :=
  let '(class_var, codegen) := get_const (VClass class_) codegen in
  let '(vars, codegen) := get_vars 3 codegen in
  match vars with
  | [tmp; key_var; value_var] =>
      let codegen := assign (Name tmp) (Call (Name class_var) []) codegen in
      let codegen := literal (LFor [key_var; value_var] in_var) codegen in
      let codegen := indent codegen in
      codegen ← any key_type (Name key_var) (Name key_var) codegen;
      codegen ← any value_type (Name value_var) (Name value_var) codegen;
      let codegen :=
        assign (Subscript (Name tmp) (Name key_var)) (Name value_var) codegen in
      let codegen := dedent codegen in
      Ok (assign out_var (Name tmp) codegen)
  | _ => Raise ValueError
  end.

Definition collection (class_ : PyClass) (element_type : TypeHint)
    (in_var out_var : expr) (codegen : CodeGenerator) : result exc_class CodeGenerator :=
  let '(class_var, codegen) := get_const (VClass class_) codegen in
  let '(vars, codegen) := get_vars 2 codegen in
  match vars with
  | [elem_i; elem_var] =>
      let codegen := assign out_var (Call (Name class_var) [in_var]) codegen in
      let codegen :=
        literal (LFor [elem_i; elem_var] (Call (Name "enumerate") [in_var])) codegen in
      let codegen := indent codegen in
      codegen ← any element_type (Name elem_var) (Name elem_var) codegen;
      let codegen := assign (Subscript out_var (Name elem_i)) (Name elem_var) codegen in
      Ok (dedent codegen)
  | _ => Raise ValueError
  end.

Definition union (args : list TypeHint) (in_var out_var : expr)
    (codegen : CodeGenerator) : result exc_class CodeGenerator :=
  let base_types := map base_of args in
  for_enumerate
    (λ i '(arg, origin) codegen,
       let codegen :=
         literal (if_or_elif i (Eq (Subscript in_var (Num 0)) (Num i))) codegen in
       let codegen := indent codegen in
       let '(tmp, codegen) := assign_new (Subscript in_var (Num 1)) codegen in
       codegen ← any arg (Name tmp) out_var codegen;
       Ok (dedent codegen))
    0%N (zip args base_types) codegen.

Definition type_ (type_ : TypeHint) (base_type : PyClass) (args : list TypeHint)
    (in_var out_var : expr) (codegen : CodeGenerator) : result exc_class CodeGenerator :=
  if issubclass_Mapping base_type then
    match args with
    | [key_type; value_type] => mapping base_type key_type value_type in_var out_var codegen
    | _ => Raise SerializationError
    end
  else if issubclass_Collection base_type
          && negb (issubclass base_type str_ || issubclass base_type bytes_) then
    if bool_decide (base_type = tuple_) && negb (is_variadic args) then
      let '(args_vars, codegen) := get_vars (length args) codegen in
      codegen ←
        for_enumerate
          (λ i '(arg_var, arg_type) codegen,
             let '(tmp, codegen) := assign_new (Subscript in_var (Num i)) codegen in
             any arg_type (Name tmp) (Name arg_var) codegen)
          0%N (zip args_vars args) codegen;
      de_tuple_ base_type (map Name args_vars) out_var codegen
    else
      args ← strip_ellipsis args;
      match args with
      | [element_type] => collection base_type element_type in_var out_var codegen
      | _ => Raise SerializationError
      end
  else Raise SerializationError.

Definition any_body (type__ : TypeHint) (in_var out_var : expr)
    (codegen : CodeGenerator) : result exc_class CodeGenerator :=
  if de_is_scalar type__ then de_scalar type__ in_var out_var codegen
  else
    let '(base_type, args) := read_type_hint type__ in
    match base_type with
    | BUnion => union args in_var out_var codegen
    | BEllipsis | BNone => Raise TypeHintError
    | BClass base_type => type_ type__ base_type args in_var out_var codegen
    end.

End methods.

Fixpoint any `{DeserializerCodegen} (fuel : nat) (type_ : TypeHint) (in_var out_var : expr)
    (codegen : CodeGenerator) : result exc_class CodeGenerator :=
  match fuel with
  | O => Raise OutOfFuel
  | S fuel => any_body (any fuel) type_ in_var out_var codegen
  end.

End Deserializer.

(** ** The JSON code generators *)

(** Modelled from the spec: the concrete subclasses of [SerializerCodegen] and
    [DeserializerCodegen] (their [is_scalar], [scalar] and [tuple_]) and the
    entry points that drive them are not among the sources.  The spec gives:
    a primitive ([str], [int], [float], [bool], null) is an identity
    assignment; a fixed tuple is assembled from the per-position variables
    into a fixed-length array; on the way back the concrete class is captured
    as a constant and its constructor is invoked; an entry point creates a
    fresh builder, drives the compiler from the canonical names [inp] and
    [out], and finalizes. *)
Module Json.

Definition is_scalar (type_ : TypeHint) : bool :=
  match type_ with
  | Cls (str_ | int_ | float_ | bool_ | NoneType_) => true
  | _ => false
  end.

Definition scalar (type_ : TypeHint) (in_var out_var : expr) (codegen : CodeGenerator)
    : result exc_class CodeGenerator :=
  Ok (assign out_var in_var codegen).

Definition ser_tuple (in_vars : list expr) (out_var : expr) (codegen : CodeGenerator)
    : result exc_class CodeGenerator :=
  Ok (assign out_var (ListDisplay in_vars) codegen).

Definition de_tuple (class_ : PyClass) (in_vars : list expr) (out_var : expr)
    (codegen : CodeGenerator) : result exc_class CodeGenerator :=
  let '(class_var, codegen) := get_const (VClass class_) codegen in
  Ok (assign out_var (Call (Name class_var) [ListDisplay in_vars]) codegen).

Global Instance serializer : SerializerCodegen :=
  {| ser_is_scalar := is_scalar; ser_scalar := scalar; ser_tuple_ := ser_tuple |}.

Global Instance deserializer : DeserializerCodegen :=
  {| de_is_scalar := is_scalar; de_scalar := scalar; de_tuple_ := de_tuple |}.

(** A call of [any] on a type, one of [mapping], [collection] or [union], and
    the call of [any] on the type it builds: at most three calls deep per
    level of the descriptor. *)
Definition any_fuel (type_ : TypeHint) : nat := 3 * hint_size type_.

Definition compile_serializer (type_ : TypeHint) : result exc_class CompiledRoutine :=
  codegen ← Serializer.any (any_fuel type_) type_ (Name "inp") (Name "out")
              code_generator.new;
  compile codegen "<compiled serializer>" "inp" "out".

Definition compile_deserializer (type_ : TypeHint) : result exc_class CompiledRoutine :=
  codegen ← Deserializer.any (any_fuel type_) type_ (Name "inp") (Name "out")
              code_generator.new;
  compile codegen "<compiled deserializer>" "inp" "out".

Definition serialize (data : value) (type_ : TypeHint) : result exc_class value :=
  r ← compile_serializer type_; call_routine r data.

Definition deserialize (data : value) (type_ : TypeHint) : result exc_class value :=
  r ← compile_deserializer type_; call_routine r data.

End Json.

End type_serializer.

(* ===================================================================== *)
(** * serializable.py: the file-system store *)
(* ===================================================================== *)

Module serializable.

(** Modelled from the spec: the module [saferw] is not among the sources.  It
    reads and writes a byte blob durably; a file system is a finite map from
    paths to contents, and reading a path that is absent raises
    [FileNotFoundError]. *)
Definition safe_write_bytes (path : string) (content : list byte)
    (fs : gmap string (list byte)) : gmap string (list byte) :=
  <[path := content]> fs.

Definition safe_read_bytes (path : string) (fs : gmap string (list byte))
    : option (list byte) :=
  fs !! path.

Section FileSystemStore.
(** The [Serializable] type [T]: its [serialize], [deserialize] and [T()]. *)
Context {T : Type}.
Variable serialize : T → list byte.
Variable deserialize : list byte → T.
Variable default : T.

Record FileSystemStore := mkStore {
  data : T;
  path : string
}.

Definition open (path : string) (fs : gmap string (list byte)) : FileSystemStore :=
  let data :=
    match safe_read_bytes path fs with
    | None => default
    | Some serialized_data => deserialize serialized_data
    end in
  {| data := data; path := path |}.

(** [save(path=None)]: the store after the call and the file system after
    the call.  The body has one statement, the write. *)
Definition save (self : FileSystemStore) (path_arg : option string)
    (fs : gmap string (list byte)) : FileSystemStore * gmap string (list byte) :=
  (self,
   safe_write_bytes (match path_arg with None => path self | Some p => p end)
                    (serialize (data self)) fs).

End FileSystemStore.

End serializable.

(* ===================================================================== *)
(** * Notions used by the statements *)
(* ===================================================================== *)

Module Notions.
Import json_serialization.

(** The statements a compiler leaves in a fresh builder when driven from the
    canonical names, as [compile_json_serializer] drives it. *)
Definition emitted_serializer (type_ : TypeHint) : result exc_class (list (Z * Statement)) :=
  codegen ← _compile_json_serializer (hint_size type_) type_ (Name "inp") (Name "out")
              code_generator.new;
  Ok (statements codegen).


(** The program [out = inp]. *)
Definition identity_program : list (Z * Statement) :=
  [(0%Z, AssignmentStatement (Target (Name "out")) (Name "inp"))].

(** The line [out = inp.copy()]. *)
Definition copy_statement : Statement :=
  LiteralStatement (LAssign (Name "out") (Call (Attribute (Name "inp") "copy") [])).


(** Values built from [None], booleans, integers, text and lists of such. *)
Fixpoint plain (v : value) : bool :=
  match v with
  | VNone | VBool _ | VInt _ | VStr _ => true
  | VList l => forallb plain l
  | _ => false
  end.

(** Type expressions for the examples. *)
Definition Int : TypeHint := Cls int_.
Definition String_ : TypeHint := Cls str_.
Definition Bytes : TypeHint := Cls bytes_.
Definition Timestamp : TypeHint := Cls datetime_.
Definition Tuple (args : list TypeHint) : TypeHint := Generic tuple_ args.
Definition Mapping (k v : TypeHint) : TypeHint := Generic dict_ [k; v].
Definition Sequence (t : TypeHint) : TypeHint := Generic list_ [t].

(** The text of three characters: a double quote, [a], a double quote. *)
Definition quoted_a : string := String dquote (String "a"%char (String dquote EmptyString)).

(** The text of the program a builder holds after a successful build. *)
Definition program_text (m : result exc_class CodeGenerator) : result exc_class string :=
  codegen ← m; Ok (to_str codegen).

(** [b"ab"] *)
Definition b_ab : list byte := ["a"%byte; "b"%byte].

(** The routine inside a successful build. *)
Definition built (m : result exc_class CompiledRoutine) : CompiledRoutine :=
  match m with
  | Ok r => r
  | Raise _ =>
      {| routine_src := EmptyString; routine_name := EmptyString; routine_code := [];
         routine_consts := ∅; routine_in_var := "inp"; routine_out_var := "out" |}
  end.

(** The linecache entry [__enter__] stores for a routine. *)
Definition registered (r : CompiledRoutine) : linecache_entry :=
  (String.length (routine_src r),
   map (λ line, line +:+ nl) (splitlines (routine_src r)),
   routine_name r).

(** The note [__exit__] attaches for a failure on line [lineno]. *)
Definition diagnostic_note (r : CompiledRoutine) (failing : string) : string :=
  "Exception occurred in dynamically generated code:" +:+ nl
  +:+ failing +:+ nl +:+ nl +:+ "Full source:" +:+ nl +:+ routine_src r.

(** Every line of the program carries a line number of the source text,
    which counts from one. *)
Definition numbered_from_one (prog : list pline) : Prop := Forall (λ '(n, _, _), 0 < n) prog.

(** A list of timestamps, and the list of their ISO texts. *)
Definition timestamps (isos : list string) : value := VList (map VDatetime isos).
Definition iso_texts (isos : list string) : value := VList (map VStr isos).

(** The program compiled to serialize a list of timestamps: the suite of its
    loop, and the whole. *)
Definition seq_timestamp_serializer_loop : list pline :=
  [(3, 1, AssignmentStatement (Target (Name "var1"))
            (Call (Attribute (Name "var1") "isoformat") []));
   (4, 1, AssignmentStatement (Target (Subscript (Name "out") (Name "var0"))) (Name "var1"));
   (5, 1, LiteralStatement (LExpr EllipsisLit))].

Definition seq_timestamp_serializer_lines : list pline :=
  [(1, 0, AssignmentStatement (Target (Name "out")) (Call (Name "list") [Name "inp"]));
   (2, 0, LiteralStatement (LFor ["var0"; "var1"] (Call (Name "enumerate") [Name "out"])))]
  ++ seq_timestamp_serializer_loop.




End Notions.
Import Notions.
Import json_serialization.

(* ===================================================================== *)
(** * The programs built for unions of primitives *)
(* ===================================================================== *)

(** The text that [SerializerCodegen.union] and [DeserializerCodegen.union]
    leave in a fresh builder for a union whose members are primitive classes,
    written out: what the statements about unions are proved against. *)
Module UnionPrograms.
Import type_serializer.

Definition is_digit (c : ascii) : bool :=
  let n := nat_of_ascii c in (48 <=? n) && (n <=? 57).
















End UnionPrograms.

(* ===================================================================== *)
(** * Notions used by the further properties *)
(* ===================================================================== *)

Module Layout.
Import json_serialization.

(** Neighbouring blocks: the list of the blocks' indentations has no two equal
    neighbours. *)
Fixpoint no_equal_neighbours {A} `{EqDecision A} (l : list A) : bool :=
  match l with
  | x :: (y :: _) as l => negb (bool_decide (x = y)) && no_equal_neighbours l
  | _ => true
  end.



(** The text of one line of [to_str]. *)
Definition line_text (x : Z * Statement) : string :=
  spaces (Z.to_nat x.1) +:+ Statement_to_str x.2.

(** A text that [str.splitlines] keeps in one piece. *)
Definition one_line (s : string) : bool :=
  forallb (λ c, negb (is_linebreak c)) (list_ascii_of_string s).

(** The tokenizer's state between two lines: the indentation stack and
    whether the line before was a header; one line taken, and a whole
    program with its comment lines passed over. *)
Definition tok_state : Type := list (nat * bool) * bool.

Definition tok_step (st : tok_state) (ind : nat) (s : Statement) : option tok_state :=
  let '(stack, after_header) := st in
  let stack :=
    if after_header then
      match stack with
      | (top, _) :: _ => if top <? ind then Some ((ind, false) :: stack) else None
      | [] => None
      end
    else
      match pop_to ind stack with
      | (top, flag) :: rest => if top =? ind then Some ((top, flag) :: rest) else None
      | [] => None
      end in
  match stack with
  | Some ((top, can_elif) :: rest) =>
      if (if is_elif s then can_elif else true)
      then Some ((top, is_if_clause s) :: rest, is_header s)
      else None
  | _ => None
  end.

Fixpoint tok_steps (st : tok_state) (l : list (Z * Statement)) : option tok_state :=
  match l with
  | [] => Some st
  | (ind, s) :: l =>
      if is_comment s then tok_steps st l
      else match tok_step st (Z.to_nat ind) s with
           | Some st => tok_steps st l
           | None => None
           end
  end.

(** Some line of the statements is not a comment. *)
Definition has_code (l : list (Z * Statement)) : bool :=
  existsb (λ '(_, s), negb (is_comment s)) l.

(** Statements laid out as blocks at indentation [c]: plain statements at
    [c], and [for] headers at [c] followed by a suite one level deeper that
    holds at least one line of code. *)
Inductive shape : Z → list (Z * Statement) → Prop :=
| shape_nil c : shape c []
| shape_plain c s rest :
    is_header s = false → shape c rest → shape c ((c, s) :: rest)
| shape_for c targets iter body rest :
    shape (c + 1) body → has_code body = true → shape c rest →
    shape c ((c, LiteralStatement (LFor targets iter)) :: body ++ rest).

(** A statement at level [c] is accepted next, and leaves [(c, _) :: rest]. *)
Definition ready (c : nat) (rest : list (nat * bool)) (st : tok_state) : Prop :=
  match st with
  | (stack, true) => stack = rest ∧ ∃ top f tl, rest = (top, f) :: tl ∧ top < c
  | (stack, false) => ∃ f, pop_to c stack = (c, f) :: rest
  end.

Definition settled (c : nat) (rest : list (nat * bool)) (st : tok_state) : Prop :=
  snd st = false ∧ pop_to c (fst st) = (c, false) :: rest.

(** A fixed tuple without members occurs in the descriptor: bare [tuple], or
    [tuple[()]]. *)
Fixpoint has_empty_tuple (tp : TypeHint) : bool :=
  match tp with
  | Cls c => bool_decide (c = tuple_)
  | Generic o args =>
      (bool_decide (o = tuple_) && bool_decide (length args = 0%nat))
      || existsb has_empty_tuple args
  | Union args => existsb has_empty_tuple args
  | Ellipsis_ | None_ => false
  end.

(** What a builder method leaves of the builder it was given: the statements
    that were there, followed by [emitted]; the indentation moved by [d];
    the counter no lower; the constants of the names handed out before, and
    every constant whose name is neither a generated name nor one of the two
    modules, as they were. *)
Definition appends (d : Z) (emitted : list (Z * Statement)) (cg cg' : CodeGenerator) : Prop :=
  statements cg' = statements cg ++ emitted
  ∧ current_indent cg' = (current_indent cg + d)%Z
  ∧ (var_i cg ≤ var_i cg')%N
  ∧ (∀ i, (i < var_i cg)%N → consts cg' !! var_name i = consts cg !! var_name i)
  ∧ ∀ k, (∀ i, k ≠ var_name i) → k ≠ "base64" → k ≠ "datetime" →
         consts cg' !! k = consts cg !! k.

(** The statement [assign] adds. *)
Definition assign_statement (left_ right_ : expr) : Statement :=
  AssignmentStatement
    (if String.eqb (render left_) (render right_) then Hashed left_ else Target left_)
    right_.

(** Expressions whose text literals hold no line break; statements that
    [compile] accepts and that are written on one line. *)
Fixpoint strs_one_line (e : expr) : bool :=
  match e with
  | Str s => one_line s
  | Name _ | Num _ | DictDisplay | EllipsisLit => true
  | Subscript e i => strs_one_line e && strs_one_line i
  | Attribute e _ => strs_one_line e
  | Call f args => strs_one_line f && forallb strs_one_line args
  | TupleComma es | TupleDisplay es | ListDisplay es => forallb strs_one_line es
  | Eq a b => strs_one_line a && strs_one_line b
  end.

Definition tidy_expr (e : expr) : bool := expr_ok e && strs_one_line e.
Definition tidy_target (e : expr) : bool := target_ok e && strs_one_line e.

Definition tidy (s : Statement) : bool :=
  match s with
  | AssignmentStatement (Hashed l) r | AssignmentStatement (Target l) r
  | LiteralStatement (LAssign l r) => tidy_target l && tidy_expr r
  | LiteralStatement (LFor targets iter) =>
      negb (bool_decide (length targets = 0%nat)) && forallb is_identifier targets
      && tidy_expr iter
  | LiteralStatement (LIf c) | LiteralStatement (LElif c) | LiteralStatement (LExpr c) =>
      tidy_expr c
  | LiteralStatement (LComment text) => one_line text
  end.

(** A call that adds a block of statements at the builder's indentation and
    returns the builder at the same indentation; the statements are tidy
    when [ok_if] holds. *)
Definition emits_block (ok_if : Prop) (cg cg' : CodeGenerator) : Prop :=
  ∃ emitted,
    appends 0 emitted cg cg'
    ∧ shape (current_indent cg) emitted
    ∧ (ok_if → forallb (λ '(_, s), tidy s) emitted = true).





End Layout.
Import Layout.


(** ** serializable.py: [SimpleSerializable] *)

Module simple_serializable.

(** [dataclasses]: a [Field] with its [name], its [type] and the kind
    [_field_type] of field it is; [fields(cls)] keeps the true fields of
    [cls.__dataclass_fields__] and leaves out the [ClassVar] and [InitVar]
    pseudo-fields. *)
Inductive field_kind := _FIELD | _FIELD_CLASSVAR | _FIELD_INITVAR.

Global Instance field_kind_eq_dec : EqDecision field_kind.
Proof. solve_decision. Defined.

Record Field := mkField {
  name : string;
  type : TypeHint;
  _field_type : field_kind
}.

Definition fields (__dataclass_fields__ : list Field) : list Field :=
  filter (λ f, _field_type f = _FIELD) __dataclass_fields__.

(** A [dict] with text keys, as the list of its items in insertion order:
    [d[k] = v], [d | e], [d.pop(k, None)] and [d.get(k)]. *)
Fixpoint dict_store {A} (d : list (string * A)) (k : string) (v : A) : list (string * A) :=
  match d with
  | [] => [(k, v)]
  | (k', v') :: d => if String.eqb k' k then (k', v) :: d else (k', v') :: dict_store d k v
  end.

Definition dict_or {A} (d e : list (string * A)) : list (string * A) :=
  fold_left (λ d '(k, v), dict_store d k v) e d.

Definition dict_pop {A} (d : list (string * A)) (k : string) : list (string * A) :=
  filter (λ '(k', _), k' ≠ k) d.

Fixpoint dict_get {A} (d : list (string * A)) (k : string) : option A :=
  match d with
  | [] => None
  | (k', v) :: d => if String.eqb k' k then Some v else dict_get d k
  end.

(** [cls._get_serialize_fields()], from [cls.__dataclass_fields__],
    [cls.__serialize_fields__] (or [{}]) and [cls.__exclude_fields__] (or
    [set()], in the order the set is iterated). *)
Definition _get_serialize_fields (__dataclass_fields__ : list Field)
    (__serialize_fields__ : list (string * TypeHint)) (__exclude_fields__ : list string)
    : list (string * TypeHint) :=
  let dataclass_fields := fields __dataclass_fields__ in
  let out :=
    dict_or
      (dict_or [] (map (λ field, (name field, type field))
                     (filter (λ field, _field_type field ≠ _FIELD_CLASSVAR)
                             dataclass_fields)))
      __serialize_fields__ in
  fold_left dict_pop __exclude_fields__ out.

(** The loop of [SimpleSerializable._compile_json_serializer] over
    [fields.items()]: a new variable for the field, bound to the attribute
    of [in_var] and then serialized in place; [out] collects the variables. *)
Fixpoint serializer_fields (fuel : nat) (fields : list (string * TypeHint)) (in_var : expr)
    (out : list string) (codegen : CodeGenerator)
    : result exc_class (list string * CodeGenerator) :=
  match fields with
  | [] => Ok (out, codegen)
  | (field_name, field_type) :: fields =>
      let '(tmp, codegen) := get_var codegen in
      let out := out ++ [tmp] in
      let codegen := assign (Name tmp) (Attribute in_var field_name) codegen in
      codegen ← json_serialization._compile_json_serializer fuel field_type
                  (Name tmp) (Name tmp) codegen;
      serializer_fields fuel fields in_var out codegen
  end.

(** [cls._compile_json_serializer(in_var, out_var, codegen)], for the fields
    that [cls._get_serialize_fields()] returned. *)
Definition _compile_json_serializer (fuel : nat) (fields : list (string * TypeHint))
    (in_var out_var : expr) (codegen : CodeGenerator) : result exc_class CodeGenerator :=
  '(out, codegen) ← serializer_fields fuel fields in_var [] codegen;
  Ok (assign out_var (TupleComma (map Name out)) codegen).

End simple_serializable.

(* ===================================================================== *)
(** * Properties *)
(* ===================================================================== *)

(** ** Basic facts *)

Lemma hint_size_pos (tp : TypeHint) : ∃ n, hint_size tp = S n.
Proof. destruct tp; simpl; eauto. Qed.

Lemma serializer_json_type fuel type_ in_var out_var codegen :
  issubclass_json_type type_ = true →
  _compile_json_serializer (S fuel) type_ in_var out_var codegen
  = Ok (assign out_var in_var codegen).
Proof. intros H. simpl. by rewrite H. Qed.


Lemma emitted_serializer_json_type type_ :
  issubclass_json_type type_ = true → emitted_serializer type_ = Ok identity_program.
Proof.
  intros H. unfold emitted_serializer.
  destruct (hint_size_pos type_) as [n ->].
  by rewrite serializer_json_type.
Qed.


(** The routine compiled from [out = inp] hands its argument back. *)
Lemma identity_routine name v :
  (r ← compile (assign (Name "out") (Name "inp") code_generator.new) name "inp" "out";
   call_routine r v) = Ok v.
Proof. vm_compute. reflexivity. Qed.

Lemma serialize_json_json_type type_ v :
  issubclass_json_type type_ = true → serialize_json v type_ = Ok v.
Proof.
  intros H. unfold serialize_json, compile_json_serializer.
  destruct (hint_size_pos type_) as [n ->].
  rewrite serializer_json_type by done.
  destruct type_; try discriminate; apply identity_routine.
Qed.


(** ** The recursion bounds are enough

    [exec] and the two compilers recurse on a bound.  A run of a program
    built by [program_lines] never stops for want of it, and neither does a
    compiler started with the size of the descriptor. *)

Lemma span_deeper_app ind prog :
  (span_deeper ind prog).1 ++ (span_deeper ind prog).2 = prog.
Proof.
  induction prog as [|[[n i] s] prog IH]; [done|].
  simpl. destruct (ind <? i); [|done].
  destruct (span_deeper ind prog) as [body rest]. simpl in *. by rewrite IH.
Qed.

Lemma skip_elifs_suffix ind prog : ∃ skipped, prog = skipped ++ skip_elifs ind prog.
Proof.
  induction prog as [|[[n i] s] prog [sk IH]]; [by exists []|].
  simpl. destruct ((ind <? i) || ((i =? ind) && is_elif s)).
  - exists ((n, i, s) :: sk). simpl. by rewrite <- IH.
  - by exists [].
Qed.

Lemma at_line_raise {A} n (m : result exc_class A) n' e :
  at_line n m = Raise (n', e) → n' = n.
Proof. destruct m; simpl; [discriminate|]. by intros [= <- _]. Qed.

Lemma for_each_raise_line {S} (bind_item : value → S → result raised_at S)
    (body : S → result raised_at S) items :
  (∀ x s n e, bind_item x s = Raise (n, e) → 0 < n) →
  (∀ s n e, body s = Raise (n, e) → 0 < n) →
  ∀ s n e, for_each bind_item body items s = Raise (n, e) → 0 < n.
Proof.
  intros Hb Hbody. induction items as [|x items IH]; intros s n e; [discriminate|].
  simpl. destruct (bind_item x s) as [s1|[n1 e1]] eqn:E1; simpl.
  - destruct (body s1) as [s2|[n2 e2]] eqn:E2; simpl.
    + apply IH.
    + intros [= <- <-]. by eapply Hbody.
  - intros [= <- <-]. by eapply Hb.
Qed.

Lemma exec_raise_line G : ∀ fuel prog locals n e,
  length prog < fuel → numbered_from_one prog →
  exec fuel G prog locals = Raise (n, e) → 0 < n.
Proof.
  induction fuel as [|fuel IH]; intros prog locals n e Hlen Hnum; [lia|].
  destruct prog as [|[[ln ind] s] rest]; [discriminate|].
  simpl in Hlen. apply Forall_cons in Hnum as [Hln Hrest].
  assert (Hsub : ∀ p, (∃ a b, rest = a ++ p ++ b) → length p < fuel ∧ numbered_from_one p).
  { intros p (a & b & Hp). split.
    - rewrite Hp, !length_app in Hlen. lia.
    - unfold numbered_from_one in *. rewrite Hp in Hrest.
      by apply Forall_app in Hrest as [_ [? _]%Forall_app]. }
  assert (Hrest' : length rest < fuel ∧ numbered_from_one rest).
  { apply Hsub. exists [], []. by rewrite app_nil_r. }
  assert (Hbody : length (span_deeper ind rest).1 < fuel
                  ∧ numbered_from_one (span_deeper ind rest).1).
  { apply Hsub. exists [], (span_deeper ind rest).2. simpl. by rewrite span_deeper_app. }
  assert (Hafter : length (span_deeper ind rest).2 < fuel
                   ∧ numbered_from_one (span_deeper ind rest).2).
  { apply Hsub. exists (span_deeper ind rest).1, []. rewrite app_nil_r.
    by rewrite span_deeper_app. }
  assert (Hskip : length (skip_elifs ind (span_deeper ind rest).2) < fuel
                  ∧ numbered_from_one (skip_elifs ind (span_deeper ind rest).2)).
  { apply Hsub. destruct (skip_elifs_suffix ind (span_deeper ind rest).2) as [sk Hsk].
    exists ((span_deeper ind rest).1 ++ sk), []. rewrite app_nil_r, <- app_assoc, <- Hsk.
    by rewrite span_deeper_app. }
  assert (Hstep : ∀ (m : result exc_class (gmap string value)),
            (at_line ln m ≫= λ l, exec fuel G rest l) = Raise (n, e) → 0 < n).
  { intros m. destruct m as [l|e']; simpl.
    - (intros HH; eapply IH; [| |exact HH]; tauto).
    - by intros [= <- _]. }
  assert (Hif : ∀ c,
    (let '(body, rest0) := span_deeper ind rest in
     at_line ln (eval G locals c ≫= λ v, Ok (truthy v)) ≫= λ b : bool,
       if b then exec fuel G body locals ≫= λ l, exec fuel G (skip_elifs ind rest0) l
       else exec fuel G rest0 locals) = Raise (n, e) → 0 < n).
  { intros c. destruct (span_deeper ind rest) as [body rest0]. simpl in *.
    destruct (eval G locals c) as [v|e']; simpl; [|by intros [= <- _]].
    destruct (truthy v).
    - destruct (exec fuel G body locals) as [l|[n1 e1]] eqn:E; simpl.
      + (intros HH; eapply IH; [| |exact HH]; tauto).
      + intros [= <- <-]. eapply IH; [| |exact E]; tauto.
    - (intros HH; eapply IH; [| |exact HH]; tauto). }
  destruct s as [[l r|targets iter|c|c|e0|text]|[l|l] r]; cbn [exec].
  - apply Hstep.
  - destruct (span_deeper ind rest) as [body rest0]. simpl in *.
    destruct (at_line ln _) as [items|[n1 e1]] eqn:E; simpl.
    + destruct (for_each _ _ items locals) as [l|[n2 e2]] eqn:E2; simpl.
      * (intros HH; eapply IH; [| |exact HH]; tauto).
      * intros [= <- <-]. eapply for_each_raise_line; [| |exact E2].
        -- intros x s0 n0 e0 H0. apply at_line_raise in H0. lia.
        -- intros s0 n0 e0. (intros HH; eapply IH; [| |exact HH]; tauto).
    + intros [= <- <-]. apply at_line_raise in E. lia.
  - apply Hif.
  - apply Hif.
  - apply Hstep.
  - (intros HH; eapply IH; [| |exact HH]; tauto).
  - apply Hstep.
  - (intros HH; eapply IH; [| |exact HH]; tauto).
Qed.

Lemma program_lines_numbered stmts : numbered_from_one (program_lines stmts).
Proof.
  unfold program_lines, numbered_from_one.
  apply Forall_forall. intros [[n i] s] Hin.
  apply list_elem_of_filter in Hin as [_ Hin].
  apply elem_of_lookup_imap in Hin as (k & [ind s'] & Heq & _).
  injection Heq as -> _ _. lia.
Qed.

Lemma run_within_fuel G stmts locals e :
  run G (program_lines stmts) locals ≠ Raise (0, e).
Proof.
  intros H. unfold run in H.
  apply exec_raise_line in H; [lia | lia | apply program_lines_numbered].
Qed.

Lemma hint_size_arg tp a : a ∈ get_args tp → hint_size a < hint_size tp.
Proof.
  assert (Hsum : ∀ l : list TypeHint, a ∈ l → hint_size a ≤ list_sum (map hint_size l)).
  { induction l as [|x l IH]; intros Hin; [by apply elem_of_nil in Hin|].
    apply elem_of_cons in Hin as [->|Hin]; simpl; [lia|]. specialize (IH Hin). lia. }
  destruct tp; simpl; intros Hin; try (by apply elem_of_nil in Hin);
    specialize (Hsum _ Hin); lia.
Qed.

Lemma remove_none_size tp tp' : remove_none tp = Ok tp' → hint_size tp' ≤ hint_size tp.
Proof.
  unfold remove_none. destruct (is_union tp) eqn:Hu; [|by intros [= ->]].
  destruct (existsb is_NoneType (get_args tp)); [|by intros [= ->]].
  destruct tp; try discriminate. simpl.
  assert (Hle : list_sum (map hint_size (filter (λ arg, is_NoneType arg = false) args))
                ≤ list_sum (map hint_size args)).
  { induction args as [|a args IH]; [done|].
    rewrite filter_cons. destruct (decide _); simpl in *; lia. }
  unfold typing_Union.
  destruct (filter _ args) as [|a [|b l]] eqn:Hf; [discriminate| |]; intros [= <-].
  - simpl in Hle. lia.
  - simpl in *. lia.
Qed.

Lemma hint_size_arg_after_remove tp tp' a :
  remove_none tp = Ok tp' → a ∈ get_args tp' → hint_size a < hint_size tp.
Proof.
  intros Hr Ha. apply remove_none_size in Hr. apply hint_size_arg in Ha. lia.
Qed.

Lemma strip_ellipsis_elem args args' a :
  strip_ellipsis args = Ok args' → a ∈ args' → a ∈ args.
Proof.
  unfold strip_ellipsis. destruct (last args) as [x|]; [|discriminate].
  intros [= <-]. destruct (is_Ellipsis x); [|done].
  intros Hin. apply list_elem_of_In in Hin. apply list_elem_of_In.
  clear -Hin. induction args as [|y [|z args] IH]; simpl in *; [done|done|].
  destruct Hin as [->|Hin]; [by left|right; by apply IH].
Qed.

Lemma for_enumerate_not_raise {A S} (body : N → A → S → result exc_class S) (l : list A) e :
  (∀ i x s, x ∈ l → body i x s ≠ Raise e) →
  ∀ i s, for_enumerate body i l s ≠ Raise e.
Proof.
  induction l as [|x l IH]; intros Hbody i s; [done|].
  simpl. destruct (body i x s) as [s'|e'] eqn:E; simpl.
  - apply IH. intros i' x' s'' Hin. apply Hbody. by apply list_elem_of_further.
  - intros [= ->]. by eapply (Hbody i x s); [apply list_elem_of_here|].
Qed.

Lemma serializer_within_fuel : ∀ fuel type_ in_var out_var codegen,
  hint_size type_ ≤ fuel →
  _compile_json_serializer fuel type_ in_var out_var codegen ≠ Raise OutOfFuel.
Proof.
  induction fuel as [|fuel IH]; intros type_ in_var out_var codegen Hsize.
  { destruct (hint_size_pos type_) as [n Hn]. lia. }
  cbn [_compile_json_serializer].
  destruct (issubclass_json_type type_); [done|].
  destruct (remove_none type_) as [type_'|e] eqn:Hr; cbn [mbind result_bind bind];
    [|intros [= ->]; revert Hr; unfold remove_none, typing_Union;
      repeat case_match; discriminate].
  assert (Hrec : ∀ a i o cg, a ∈ get_args type_' →
            _compile_json_serializer fuel a i o cg ≠ Raise OutOfFuel).
  { intros a i o cg Ha. apply IH.
    pose proof (hint_size_arg_after_remove _ _ _ Hr Ha). lia. }
  destruct (base_of type_'); [|done..].
  repeat match goal with
         | |- context [if ?b then _ else _] => destruct b
         | |- (match ?x with _ => _ end) ≠ _ => destruct x eqn:?
         | |- _ ≠ _ => done
         end.
  - destruct (for_enumerate _ _ _ _) as [[out cg]|e] eqn:E; cbn [mbind result_bind bind];
      [done|].
    intros [= ->]. revert E. apply for_enumerate_not_raise.
    intros i x [out cg] Hx. destruct (get_var cg) as [var cg1].
    destruct (_compile_json_serializer fuel x _ _ cg1) eqn:E; cbn [mbind result_bind bind];
      [done|].
    intros [= ->]. by apply Hrec in E.
  - destruct (strip_ellipsis (get_args type_')) as [args|e] eqn:E;
      cbn [mbind result_bind bind];
      [|intros [= ->]; revert E; unfold strip_ellipsis; by repeat case_match].
    destruct args as [|elem_type [|]]; [done| |done].
    destruct (get_vars 2 codegen) as [[|elem_i [|elem_var [|]]] cg]; [done|done| |done].
    destruct (_compile_json_serializer fuel elem_type _ _ _) eqn:E2;
      cbn [mbind result_bind bind]; [done|].
    intros [= ->]. apply Hrec in E2; [done|].
    eapply strip_ellipsis_elem; [exact E|]. apply list_elem_of_here.
Qed.

Lemma deserializer_within_fuel : ∀ fuel type_ in_var out_var codegen,
  hint_size type_ ≤ fuel →
  _compile_json_deserializer fuel type_ in_var out_var codegen ≠ Raise OutOfFuel.
Proof.
  induction fuel as [|fuel IH]; intros type_ in_var out_var codegen Hsize.
  { destruct (hint_size_pos type_) as [n Hn]. lia. }
  cbn [_compile_json_deserializer].
  destruct (issubclass_json_type type_); [done|].
  destruct (remove_none type_) as [type_'|e] eqn:Hr; cbn [mbind result_bind bind];
    [|intros [= ->]; revert Hr; unfold remove_none, typing_Union;
      repeat case_match; discriminate].
  assert (Hrec : ∀ a i o cg, a ∈ get_args type_' →
            _compile_json_deserializer fuel a i o cg ≠ Raise OutOfFuel).
  { intros a i o cg Ha. apply IH.
    pose proof (hint_size_arg_after_remove _ _ _ Hr Ha). lia. }
  destruct (base_of type_'); [|done..].
  repeat match goal with
         | |- context [if ?b then _ else _] => destruct b
         | |- (match ?x with _ => _ end) ≠ _ => destruct x eqn:?
         | |- _ ≠ _ => done
         end.
  - destruct (_compile_json_deserializer fuel t _ _ _) as [cg1|e1] eqn:E1;
      cbn [mbind result_bind bind].
    + destruct (_compile_json_deserializer fuel t0 _ _ cg1) as [cg2|e2] eqn:E2;
        cbn [mbind result_bind bind]; [done|].
      intros [= ->]. apply Hrec in E2; [done|]. apply list_elem_of_further, list_elem_of_here.
    + intros [= ->]. apply Hrec in E1; [done|]. apply list_elem_of_here.
  - destruct (for_enumerate _ _ _ _) as [[out cg]|e] eqn:E; cbn [mbind result_bind bind];
      [done|].
    intros [= ->]. revert E. apply for_enumerate_not_raise.
    intros i x [out cg] Hx. destruct (get_var cg) as [var cg1].
    destruct (_compile_json_deserializer fuel x _ _ cg1) eqn:E; cbn [mbind result_bind bind];
      [done|].
    intros [= ->]. by apply Hrec in E.
  - destruct (strip_ellipsis (get_args type_')) as [args|e] eqn:E;
      cbn [mbind result_bind bind];
      [|intros [= ->]; revert E; unfold strip_ellipsis; by repeat case_match].
    destruct args as [|elem_type [|]]; [done| |done].
    destruct (get_const (VClass c) codegen) as [base_class_name cg0].
    destruct (get_var cg0) as [elem_var cg1].
    destruct (_compile_json_deserializer fuel elem_type _ _ _) eqn:E2;
      cbn [mbind result_bind bind]; [done|].
    intros [= ->]. apply Hrec in E2; [done|].
    eapply strip_ellipsis_elem; [exact E|]. apply list_elem_of_here.
Qed.

Lemma compile_json_serializer_within_fuel type_ :
  compile_json_serializer type_ ≠ Raise OutOfFuel.
Proof.
  unfold compile_json_serializer.
  destruct (_compile_json_serializer _ _ _ _ _) eqn:E; cbn [mbind result_bind bind].
  - unfold compile. by case_match.
  - intros [= ->]. by apply serializer_within_fuel in E.
Qed.

Lemma compile_json_deserializer_within_fuel type_ :
  compile_json_deserializer type_ ≠ Raise OutOfFuel.
Proof.
  unfold compile_json_deserializer.
  destruct (_compile_json_deserializer _ _ _ _ _) eqn:E; cbn [mbind result_bind bind].
  - unfold compile. by case_match.
  - intros [= ->]. by apply deserializer_within_fuel in E.
Qed.

(** ** Running a program line by line *)


Lemma exec_assign_name f G n ind x e rest locals val :
  eval G locals e = Ok val →
  exec (S f) G ((n, ind, AssignmentStatement (Target (Name x)) e) :: rest) locals
  = exec f G rest (<[x := val]> locals).
Proof. intros H. cbn [exec]. rewrite H. reflexivity. Qed.


Lemma call_routine_run r v final w :
  run (routine_consts r) (routine_code r) {[ routine_in_var r := v ]} = Ok final →
  final !! routine_out_var r = Some w →
  call_routine r v = Ok w.
Proof. intros Hrun Hout. unfold call_routine, func. rewrite Hrun, Hout. reflexivity. Qed.

(** ** Lists of timestamps

    The routines compiled for [list[datetime]] hold a loop.  They are run
    here on a list of any length. *)

Lemma seq_index_nat len k : k < len → seq_index len (Z.of_nat k) = Some k.
Proof.
  intros H. unfold seq_index.
  destruct (Z.ltb_spec (Z.of_nat k) 0); [lia|].
  destruct (Z.leb_spec 0 (Z.of_nat k)); [|lia].
  destruct (Z.ltb_spec (Z.of_nat k) (Z.of_nat len)); [|lia].
  simpl. by rewrite Nat2Z.id.
Qed.

Ltac lookup_names :=
  repeat match goal with
         | |- context [ <[?i := ?x]> ?m !! ?i ] => rewrite (lookup_insert_eq m i x)
         | |- context [ <[?i := ?x]> ?m !! ?j ] =>
             rewrite (lookup_insert_ne m i j x) by discriminate
         | |- context [ {[ ?i := ?x ]} !! ?i ] => rewrite (lookup_singleton_eq i x)
         end.

Lemma exec_for f G n ind targets iter rest locals items :
  (v ← eval G locals iter; iter_values v) = Ok items →
  exec (S f) G ((n, ind, LiteralStatement (LFor targets iter)) :: rest) locals
  = (locals ← for_each (λ x locals, at_line n (bind_targets targets x locals))
                       (exec f G (span_deeper ind rest).1) items locals;
     exec f G (span_deeper ind rest).2 locals).
Proof. intros H. cbn [exec]. rewrite H. destruct (span_deeper ind rest). reflexivity. Qed.

Lemma exec_serializer_loop_body G locals (done rest : list value) iso :
  locals !! "out" = Some (VList (done ++ VDatetime iso :: rest)) →
  ∃ locals',
    (locals1 ← at_line 2 (bind_targets ["var0"; "var1"]
                            (VTuple [VInt (Z.of_nat (length done)); VDatetime iso]) locals);
     exec 4 G seq_timestamp_serializer_loop locals1) = Ok locals'
    ∧ locals' !! "out" = Some (VList ((done ++ [VStr iso]) ++ rest)).
Proof.
  intros Hout.
  eexists. split.
  - cbn [bind_targets iter_values bind_names at_line mbind result_bind bind].
    unfold seq_timestamp_serializer_loop.
    erewrite exec_assign_name; last first.
    { cbn [eval]. unfold lookup_name. rewrite lookup_insert_eq. reflexivity. }
    cbn [exec eval assign_target]. unfold lookup_name.
    lookup_names. rewrite Hout.
    cbn [mbind result_bind bind at_line setitem as_index].
    rewrite seq_index_nat by (rewrite length_app; simpl; lia).
    cbn [mbind result_bind bind at_line exec_expr eval].
    reflexivity.
  - rewrite lookup_insert_eq. f_equal. f_equal.
    rewrite <- (Nat.add_0_r (length done)).
    rewrite insert_app_r. simpl. by rewrite <- app_assoc.
Qed.

Lemma exec_serializer_loop G : ∀ (isos : list string) (done : list value) locals,
  locals !! "out" = Some (VList (done ++ map VDatetime isos)) →
  ∃ locals',
    for_each (λ x locals, at_line 2 (bind_targets ["var0"; "var1"] x locals))
             (exec 4 G seq_timestamp_serializer_loop)
             (imap (λ i x, VTuple [VInt (Z.of_nat (length done + i)); x]) (map VDatetime isos))
             locals = Ok locals'
    ∧ locals' !! "out" = Some (VList (done ++ map VStr isos)).
Proof.
  induction isos as [|iso isos IH]; intros done locals Hout.
  - exists locals. split; [reflexivity|]. exact Hout.
  - cbn [map imap for_each].
    rewrite Nat.add_0_r.
    destruct (exec_serializer_loop_body G locals done (map VDatetime isos) iso Hout)
      as (locals1 & Hbody & Hout1).
    destruct (bind_targets _ _ locals) as [l1|e] eqn:Hb; [|discriminate Hbody].
    cbn [at_line mbind result_bind bind] in Hbody |- *.
    rewrite Hbody. cbn [mbind result_bind bind].
    destruct (IH (done ++ [VStr iso]) locals1 Hout1) as (locals' & Hloop & Hout').
    exists locals'. split.
    + rewrite <- Hloop. f_equal. apply imap_ext. intros i x _. simpl.
      rewrite length_app. simpl. do 3 f_equal. lia.
    + rewrite Hout'. by rewrite <- app_assoc.
Qed.

Lemma run_seq_timestamp_serializer (isos : list string) :
  ∃ final,
    run ∅ seq_timestamp_serializer_lines {[ "inp" := timestamps isos ]} = Ok final
    ∧ final !! "out" = Some (iso_texts isos).
Proof.
  destruct (exec_serializer_loop ∅ isos []
              (<["out" := timestamps isos]> {[ "inp" := timestamps isos ]}))
    as (final & Hloop & Hout); [apply lookup_insert_eq|].
  exists final. split; [|exact Hout].
  unfold run, seq_timestamp_serializer_lines. cbn [app].
  change (length _) with 5.
  erewrite exec_assign_name; last first.
  { cbn [eval]. unfold lookup_name. lookup_names. reflexivity. }
  erewrite exec_for; last first.
  { cbn [eval]. unfold lookup_name. lookup_names. reflexivity. }
  change (span_deeper 0 seq_timestamp_serializer_loop)
    with (seq_timestamp_serializer_loop, @nil pline).
  cbn [fst snd]. unfold timestamps in *. cbn [enumerate].
  unfold enumerate. cbn [length Nat.add] in Hloop. rewrite Hloop. reflexivity.
Qed.

Lemma seq_timestamp_serializer_routine :
  ∃ r, compile_json_serializer (Sequence Timestamp) = Ok r
       ∧ routine_code r = seq_timestamp_serializer_lines
       ∧ routine_consts r = ∅
       ∧ routine_in_var r = "inp" ∧ routine_out_var r = "out".
Proof.
  eexists. split; [vm_compute; reflexivity|].
  split; [vm_compute; reflexivity|].
  split; [vm_compute; reflexivity|].
  split; reflexivity.
Qed.

Lemma serialize_seq_timestamps (isos : list string) :
  serialize_json (timestamps isos) (Sequence Timestamp) = Ok (iso_texts isos).
Proof.
  destruct seq_timestamp_serializer_routine as (r & Hr & Hcode & Hconsts & Hin & Hout).
  destruct (run_seq_timestamp_serializer isos) as (final & Hrun & Hfinal).
  unfold serialize_json, Sequence. fold (Sequence Timestamp). rewrite Hr.
  cbn [mbind result_bind bind].
  apply (call_routine_run r _ final).
  - by rewrite Hcode, Hconsts, Hin.
  - by rewrite Hout.
Qed.






Lemma blind_timestamps (isos : list string) :
  _serialize_json_type_blind (timestamps isos) = Ok (iso_texts isos).
Proof.
  unfold timestamps, iso_texts. cbn [_serialize_json_type_blind].
  match goal with |- ?m ≫= _ = _ => assert (Hl : m = Ok (map VStr isos)) end.
  { induction isos as [|iso isos IH]; [reflexivity|].
    cbn [map _serialize_json_type_blind mbind result_bind bind].
    rewrite IH. reflexivity. }
  rewrite Hl. reflexivity.
Qed.


(** ** C2: bytes *)

(** C2. Serializing [b"ab"] under the descriptor [bytes] should give the
    base64 text ["YWI="].  The blind serializer does give it.  The compiled
    path does not: [bytes] is a [Collection], so the compiler takes the
    sequence branch before it reaches the one for [bytes], and [args[-1]] on
    the empty argument tuple raises [IndexError] while the routine is built. *)
Theorem C2_bytes_descriptor_fails_at_build :
  _serialize_json_type_blind (VBytes b_ab) = Ok (VStr "YWI=")
  ∧ serialize_json (VBytes b_ab) None_ = Ok (VStr "YWI=")
  ∧ is_ok (compile_json_serializer Bytes) = false
  ∧ serialize_json (VBytes b_ab) Bytes = Raise IndexError.
Proof.
  split; [vm_compute; reflexivity|].
  split; [vm_compute; reflexivity|].
  split; vm_compute; reflexivity.
Qed.

(** ** C4: mappings with text keys *)

(** C4, as stated, at [Mapping(String, Int)]: the compiled serializer would
    hold the line [out = inp.copy()].  It is the single line [out = inp]. *)
Lemma C4_counterexample_no_copy :
  emitted_serializer (Mapping String_ Int) = Ok identity_program
  ∧ ¬ (∃ program, emitted_serializer (Mapping String_ Int) = Ok program
                  ∧ In (0%Z, copy_statement) program).
Proof.
  split; [vm_compute; reflexivity|].
  intros (program & H & Hin).
  vm_compute in H. injection H as <-.
  vm_compute in Hin. destruct Hin as [Hin|[]]. discriminate Hin.
Qed.

(** C4, amended. For a mapping descriptor with text keys whose value type is
    wire-compatible, the compiled serializer is the identity assignment: no
    copy, no loop; the result is the input, keys unmodified and in their
    order. In particular [{"a": 1}] under [Mapping(String, Int)] gives
    [{"a": 1}]. *)
Theorem C4_text_keyed_mapping_identity (value_type : TypeHint) (d : list (value * value)) :
  issubclass_json_type value_type = true →
  emitted_serializer (Mapping String_ value_type) = Ok identity_program
  ∧ serialize_json (VDict d) (Mapping String_ value_type) = Ok (VDict d)
  ∧ serialize_json (VDict [(VStr "a", VInt 1)]) (Mapping String_ Int)
    = Ok (VDict [(VStr "a", VInt 1)]).
Proof.
  intros H.
  assert (Hm : issubclass_json_type (Mapping String_ value_type) = true)
    by (simpl; exact H).
  split; [by apply emitted_serializer_json_type|].
  split; [by apply serialize_json_json_type|].
  by apply serialize_json_json_type.
Qed.

Lemma C4_witness :
  issubclass_json_type Int = true
  ∧ serialize_json (VDict [(VStr "a", VInt 1)]) (Mapping String_ Int)
    = Ok (VDict [(VStr "a", VInt 1)]).
Proof.
  split; [reflexivity|].
  exact (proj1 (proj2 (C4_text_keyed_mapping_identity Int [(VStr "a", VInt 1)] eq_refl))).
Defined.

(** ** C3: fixed-arity tuples *)




(** ** C1: round trip *)




(** ** C7: the blind serializer against the compiled one *)

Lemma blind_plain : ∀ v, plain v = true → _serialize_json_type_blind v = Ok v.
Proof.
  fix IH 1. intros v H. destruct v; simpl in H; try discriminate; try reflexivity.
  simpl.
  assert (Hl : (fix comprehension (l : list value) : result exc_class (list value) :=
                  match l with
                  | [] => Ok []
                  | item :: l0 =>
                      x ← _serialize_json_type_blind item; xs ← comprehension l0; Ok (x :: xs)
                  end) l = Ok l).
  { induction l as [|x l IHl]; [reflexivity|].
    simpl in H. apply andb_prop in H as [Hx Hl].
    rewrite (IH x Hx). simpl. rewrite (IHl Hl). reflexivity. }
  rewrite Hl. reflexivity.
Qed.

(** C7, as stated, at [{"a": 1}] of type [Mapping(String, Int)]: both paths
    would give the same wire value.  The blind path writes every key with
    [json.dumps], so the key becomes the quoted text; the compiled path hands
    the mapping back as it is. *)
Lemma C7_counterexample_mapping_keys :
  serialize_json (VDict [(VStr "a", VInt 1)]) None_ = Ok (VDict [(VStr quoted_a, VInt 1)])
  ∧ serialize_json (VDict [(VStr "a", VInt 1)]) (Mapping String_ Int)
    = Ok (VDict [(VStr "a", VInt 1)])
  ∧ serialize_json (VDict [(VStr "a", VInt 1)]) None_
    ≠ serialize_json (VDict [(VStr "a", VInt 1)]) (Mapping String_ Int).
Proof.
  split; [vm_compute; reflexivity|].
  split; [vm_compute; reflexivity|].
  vm_compute. discriminate.
Qed.

(** C7, amended. For every value built from primitives and lists of them and
    every wire-compatible descriptor, for every timestamp under the timestamp
    descriptor, and for every list of timestamps under the descriptor of
    lists of timestamps, the blind serializer and the compiled serializer
    give the same wire value. *)
Theorem C7_blind_agrees_on_plain_values (v : value) (type_ : TypeHint) (iso : string)
    (isos : list string) :
  plain v = true →
  issubclass_json_type type_ = true →
  serialize_json v None_ = serialize_json v type_
  ∧ serialize_json (VDatetime iso) None_ = serialize_json (VDatetime iso) Timestamp
  ∧ serialize_json (timestamps isos) None_
    = serialize_json (timestamps isos) (Sequence Timestamp).
Proof.
  intros Hv Ht. split; [|split].
  - rewrite (serialize_json_json_type type_ v Ht). simpl. by apply blind_plain.
  - vm_compute. reflexivity.
  - rewrite serialize_seq_timestamps. apply blind_timestamps.
Qed.

Lemma C7_witness :
  plain (VList [VInt 1; VStr "a"; VNone]) = true
  ∧ issubclass_json_type (Sequence (Union [Int; String_; Cls NoneType_])) = true
  ∧ serialize_json (VList [VInt 1; VStr "a"; VNone]) None_
    = serialize_json (VList [VInt 1; VStr "a"; VNone])
        (Sequence (Union [Int; String_; Cls NoneType_])).
Proof.
  split; [reflexivity|]. split; [reflexivity|].
  exact (proj1 (C7_blind_agrees_on_plain_values (VList [VInt 1; VStr "a"; VNone])
                  (Sequence (Union [Int; String_; Cls NoneType_])) EmptyString []
                  eq_refl eq_refl)).
Defined.

(** ** C8: leaving a compiled routine *)

(** C8, as stated, at the serializer compiled for a timestamp, called on
    [None]: the failing call would leave the name deregistered.  The note is
    attached and the error goes on, but the entry is still in the cache. *)
Lemma C8_counterexample_still_registered :
  ∃ r, compile_json_serializer Timestamp = Ok r
       ∧ fst (func r VNone ∅)
         = Raise {| exc := AttributeError;
                    notes := [diagnostic_note r "out = inp.isoformat()"];
                    tb_next_lineno := Some 1 |}
       ∧ snd (func r VNone ∅) !! routine_name r = Some (registered r)
       ∧ snd (func r VNone ∅) !! routine_name r ≠ None.
Proof.
  eexists. split; [vm_compute; reflexivity|].
  split; [vm_compute; reflexivity|].
  split; [vm_compute; reflexivity|].
  vm_compute. discriminate.
Qed.

(** C8, amended. A call of a compiled routine registers the source under the
    routine's name and runs the program on [{in_var: data}].
    - If the program ends and binds the exit name, the call deregisters the
      name and returns the binding.
    - If the program raises on a line, the call attaches one note holding that
      line and the full source and lets the exception go on; the name stays
      registered.
    - If the program ends without binding the exit name, the [KeyError] of the
      lookup goes on without a note; the name stays registered. *)
Theorem C8_compiled_routine_exit_paths (r : CompiledRoutine) (data : value)
    (cache : gmap string linecache_entry) :
  let scope : gmap string value := {[ routine_in_var r := data ]} in
  let entered := <[routine_name r := registered r]> cache in
  (∀ final v,
     run (routine_consts r) (routine_code r) scope = Ok final →
     final !! routine_out_var r = Some v →
     func r data cache = (Ok v, delete (routine_name r) entered)
     ∧ snd (func r data cache) !! routine_name r = None)
  ∧ (∀ lineno e failing,
       run (routine_consts r) (routine_code r) scope = Raise (lineno, e) →
       splitlines (routine_src r) !! (lineno - 1) = Some failing →
       func r data cache
       = (Raise {| exc := e; notes := [diagnostic_note r failing];
                   tb_next_lineno := Some lineno |}, entered)
       ∧ snd (func r data cache) !! routine_name r = Some (registered r))
  ∧ (∀ final,
       run (routine_consts r) (routine_code r) scope = Ok final →
       final !! routine_out_var r = None →
       func r data cache
       = (Raise {| exc := KeyError; notes := []; tb_next_lineno := None |}, entered)
       ∧ snd (func r data cache) !! routine_name r = Some (registered r)).
Proof.
  intros scope entered. split; [|split].
  - intros final v Hrun Hout.
    assert (Hf : func r data cache = (Ok v, delete (routine_name r) entered)).
    { unfold func. fold scope. rewrite Hrun, Hout. reflexivity. }
    split; [exact Hf|]. rewrite Hf. simpl. apply lookup_delete_eq.
  - intros lineno e failing Hrun Hline.
    assert (Hf : func r data cache
                 = (Raise {| exc := e; notes := [diagnostic_note r failing];
                             tb_next_lineno := Some lineno |}, entered)).
    { unfold func. fold scope. rewrite Hrun. simpl. rewrite Hline. reflexivity. }
    split; [exact Hf|]. rewrite Hf. simpl. apply lookup_insert_eq.
  - intros final Hrun Hout.
    assert (Hf : func r data cache
                 = (Raise {| exc := KeyError; notes := []; tb_next_lineno := None |},
                    entered)).
    { unfold func. fold scope. rewrite Hrun, Hout. reflexivity. }
    split; [exact Hf|]. rewrite Hf. simpl. apply lookup_insert_eq.
Qed.

Lemma C8_witness :
  run (routine_consts (built (compile_json_serializer Timestamp)))
      (routine_code (built (compile_json_serializer Timestamp)))
      {[ "inp" := VNone ]} = Raise (1, AttributeError)
  ∧ splitlines (routine_src (built (compile_json_serializer Timestamp))) !! 0
    = Some "out = inp.isoformat()"
  ∧ snd (func (built (compile_json_serializer Timestamp)) VNone ∅)
      !! routine_name (built (compile_json_serializer Timestamp))
    = Some (registered (built (compile_json_serializer Timestamp))).
Proof.
  split; [vm_compute; reflexivity|].
  split; [vm_compute; reflexivity|].
  refine (proj2 (proj1 (proj2
            (C8_compiled_routine_exit_paths (built (compile_json_serializer Timestamp))
               VNone ∅)) 1 AttributeError "out = inp.isoformat()" _ _));
    vm_compute; reflexivity.
Defined.

(** ** C9: optional descriptors *)








(** ** C10: saving a store to an explicit path *)

Section Store.
Import serializable.
Context {T : Type} (serialize : T → list byte).

(** C10. [save] with an explicit path writes the serialization of the held
    value to that path and changes no field of the store: its [path] is
    still the original location, and a following [save()] without argument
    writes to the original location. *)
Theorem C10_save_explicit_path_keeps_store (self : FileSystemStore)
    (explicit : string) (fs : gmap string (list byte)) :
  let '(self', fs') := save serialize self (Some explicit) fs in
  self' = self
  ∧ data self' = data self ∧ path self' = path self
  ∧ fs' = <[explicit := serialize (data self)]> fs
  ∧ fs' !! explicit = Some (serialize (data self))
  ∧ (∀ other, other ≠ explicit → fs' !! other = fs !! other)
  ∧ snd (save serialize self' None fs') = <[path self := serialize (data self)]> fs'
  ∧ snd (save serialize self' None fs') !! path self = Some (serialize (data self)).
Proof.
  simpl. repeat split.
  - unfold safe_write_bytes. apply lookup_insert_eq.
  - intros other Hne. unfold safe_write_bytes. by apply lookup_insert_ne.
  - unfold safe_write_bytes. apply lookup_insert_eq.
Qed.
End Store.

(** ** C6: union members with the same base classification *)

Import type_serializer.

Lemma same_origin_twice_spec (base_types : list base_t) :
  same_origin_twice base_types = true
  ↔ ∃ i j b, i ≠ j ∧ base_types !! i = Some b ∧ base_types !! j = Some b.
Proof.
  unfold same_origin_twice. rewrite existsb_exists. split.
  - intros ([i b] & Hin & Hex).
    apply existsb_exists in Hex as ([j b'] & Hin' & Hc).
    apply list_elem_of_In, elem_of_lookup_imap in Hin as (i0 & y & [= -> ->] & Hi).
    apply list_elem_of_In, elem_of_lookup_imap in Hin' as (j0 & y' & [= -> ->] & Hj).
    destruct (i0 =? j0) eqn:E; [discriminate|].
    apply Nat.eqb_neq in E. apply bool_decide_eq_true in Hc as ->.
    by exists i0, j0, y'.
  - intros (i & j & b & Hne & Hi & Hj).
    exists (i, b). split.
    { apply list_elem_of_In, elem_of_lookup_imap. by exists i, b. }
    apply existsb_exists. exists (j, b). split.
    { apply list_elem_of_In, elem_of_lookup_imap. by exists j, b. }
    apply Nat.eqb_neq in Hne. rewrite Hne. by apply bool_decide_eq_true.
Qed.

Lemma same_origin_twice_NoDup (base_types : list base_t) :
  same_origin_twice base_types = false ↔ NoDup base_types.
Proof.
  rewrite NoDup_alt. split.
  - intros Hf i j b Hi Hj. destruct (decide (i = j)) as [|Hne]; [done|].
    assert (same_origin_twice base_types = true) as Ht
      by (apply same_origin_twice_spec; by exists i, j, b).
    congruence.
  - intros Hnd. destruct (same_origin_twice base_types) eqn:E; [|done].
    apply same_origin_twice_spec in E as (i & j & b & Hne & Hi & Hj).
    destruct Hne. by eapply Hnd.
Qed.

Lemma for_enumerate_ok {A S} (body : N → A → S → result exc_class S) (l : list A) :
  (∀ i x s, x ∈ l → is_ok (body i x s) = true) →
  ∀ i s, is_ok (for_enumerate body i l s) = true.
Proof.
  induction l as [|x l IH]; intros Hbody i s; [done|].
  simpl. pose proof (Hbody i x s (list_elem_of_here _ _)) as Hx.
  destruct (body i x s) as [s'|] eqn:E; [|discriminate].
  simpl. apply IH. intros i' x' s'' Hin. apply Hbody. by apply list_elem_of_further.
Qed.

(** C6. [union] raises [SerializationError] while the program is being built
    whenever two members at different positions have the same base (their
    origin, or themselves when they have none); no statement is emitted and no
    routine exists.  When the bases are pairwise distinct the check lets the
    build through: [union] succeeds as soon as each member's own compilation
    does.  With the JSON code generators, [Union(Sequence(Int),
    Sequence(String))] is refused at build time and [Union(Int, String)]
    compiles. *)
Theorem C6_union_same_base_is_schema_error `{SerializerCodegen}
    (any : TypeHint → expr → expr → CodeGenerator → result exc_class CodeGenerator)
    (args : list TypeHint) (in_var out_var : expr) (codegen : CodeGenerator) :
  ((∃ i j a b, i ≠ j ∧ args !! i = Some a ∧ args !! j = Some b ∧ base_of a = base_of b) →
   Serializer.union any args in_var out_var codegen = Raise SerializationError)
  ∧ (NoDup (map base_of args) →
     (∀ arg tmp cg, arg ∈ args →
        is_ok (any (Generic tuple_ [Cls int_; arg]) tmp out_var cg) = true) →
     is_ok (Serializer.union any args in_var out_var codegen) = true)
  ∧ Json.compile_serializer (Union [Sequence Int; Sequence String_])
    = Raise SerializationError
  ∧ is_ok (Json.compile_serializer (Union [Int; String_])) = true.
Proof.
  split; [|split; [|split; vm_compute; reflexivity]].
  - intros (i & j & a & b & Hne & Hi & Hj & Hab).
    unfold Serializer.union.
    assert (same_origin_twice (map base_of args) = true) as ->; [|done].
    apply same_origin_twice_spec. exists i, j, (base_of a).
    split; [done|]. change (map base_of args) with (base_of <$> args).
    rewrite !list_lookup_fmap, Hi, Hj. simpl. by rewrite Hab.
  - intros Hnd Hmembers. unfold Serializer.union.
    apply same_origin_twice_NoDup in Hnd. rewrite Hnd.
    apply for_enumerate_ok. intros i [arg origin] cg Hin.
    apply elem_of_zip_l in Hin.
    destruct (get_const (base_value origin) cg) as [type_var cg1].
    destruct (assign_new _ _) as [tmp cg2] eqn:Etmp.
    specialize (Hmembers arg (Name tmp) cg2 Hin).
    destruct (any _ _ _ _); [done|discriminate].
Qed.

Lemma C6_witness :
  NoDup (map base_of [Int; String_])
  ∧ is_ok (Serializer.union (Serializer.any 2) [Int; String_] (Name "inp") (Name "out")
             code_generator.new) = true.
Proof.
  assert (Hnd : NoDup (map base_of [Int; String_])).
  { apply NoDup_cons. split; [|apply NoDup_singleton].
    intros Hin. apply list_elem_of_singleton in Hin. discriminate Hin. }
  split; [exact Hnd|].
  refine (proj1 (proj2 (C6_union_same_base_is_schema_error (Serializer.any 2)
                          [Int; String_] (Name "inp") (Name "out") code_generator.new))
                Hnd _).
  intros arg tmp cg Hin.
  apply elem_of_cons in Hin as [->|Hin];
    [|apply list_elem_of_singleton in Hin as ->]; reflexivity.
Defined.

(** ** C5: the tagged encoding of unions *)

Import UnionPrograms.

(** *** Variable names *)

Lemma pretty_N_char_digit x : is_digit (pretty_N_char x) = true.
Proof. unfold pretty_N_char. by repeat case_match. Qed.

Lemma pretty_N_go_digits x s :
  forallb is_digit (list_ascii_of_string s) = true →
  forallb is_digit (list_ascii_of_string (pretty_N_go x s)) = true.
Proof.
  revert s. induction (N.lt_wf_0 x) as [x _ IH]; intros s Hs.
  assert (x = 0 ∨ 0 < x)%N as [->|?] by lia.
  - by rewrite pretty_N_go_0.
  - rewrite pretty_N_go_step by done. apply IH.
    { by apply N.div_lt. }
    simpl. by rewrite pretty_N_char_digit, Hs.
Qed.

Lemma pretty_N_digits (n : N) : forallb is_digit (list_ascii_of_string (pretty n)) = true.
Proof.
  unfold pretty, pretty_N. case_decide; [done|]. by apply pretty_N_go_digits.
Qed.

Lemma list_ascii_of_string_app s1 s2 :
  list_ascii_of_string (s1 +:+ s2) = list_ascii_of_string s1 ++ list_ascii_of_string s2.
Proof. induction s1 as [|c s1 IH]; simpl; [done|]. by rewrite IH. Qed.

Lemma var_name_inj (a b : N) : var_name a = var_name b → a = b.
Proof. unfold var_name. intros H. simpl in H. injection H as H. by apply (inj pretty). Qed.

Lemma var_name_ne (a b : N) : a ≠ b → var_name a ≠ var_name b.
Proof. intros H E. by apply var_name_inj in E. Qed.


Lemma var_name_ne_out n : var_name n ≠ "out".
Proof. unfold var_name. simpl. discriminate. Qed.



Lemma digits_alnum l : forallb is_digit l = true → forallb is_alnum l = true.
Proof.
  induction l as [|c l IH]; [done|]. simpl.
  intros [Hc Hl]%andb_prop. rewrite (IH Hl), andb_true_r.
  unfold is_alnum, is_digit in *. rewrite Hc. by rewrite orb_true_r.
Qed.

Lemma is_identifier_var_name n : is_identifier (var_name n) = true.
Proof.
  unfold var_name.
  change (is_identifier ("var" +:+ pretty n))
    with (forallb is_alnum (list_ascii_of_string (pretty n))).
  apply digits_alnum, pretty_N_digits.
Qed.

(** *** When [assign] keeps its left side *)









(** *** What the serializer builds *)






(** *** The program is accepted by [compile] *)










(** *** Running it *)




















(** *** What the deserializer builds, and running it *)



















(** The program built for [Union(Int, String)], as text. *)
Lemma union_serializer_text :
  program_text (Serializer.any (Json.any_fuel (Union [Int; String_])) (Union [Int; String_])
                  (Name "inp") (Name "out") code_generator.new)
  = Ok (join nl
          ["if isinstance(inp, var0):";
           "    var1 = (0, inp)";
           "    var4 = var1[0]";
           "    var2 = var4";
           "    var5 = var1[1]";
           "    var3 = var5";
           "    out = [var2, var3]";
           "    ...";
           "elif isinstance(inp, var6):";
           "    var7 = (1, inp)";
           "    var10 = var7[0]";
           "    var8 = var10";
           "    var11 = var7[1]";
           "    var9 = var11";
           "    out = [var8, var9]";
           "    ..."]).
Proof. vm_compute. reflexivity. Qed.

Lemma union_deserializer_text :
  program_text (Deserializer.any (Json.any_fuel (Union [Int; String_]))
                  (Union [Int; String_]) (Name "inp") (Name "out") code_generator.new)
  = Ok (join nl
          ["if inp[0] == 0:";
           "    var0 = inp[1]";
           "    out = var0";
           "    ...";
           "elif inp[0] == 1:";
           "    var1 = inp[1]";
           "    out = var1";
           "    ..."]).
Proof. vm_compute. reflexivity. Qed.



(* ===================================================================== *)
(** * Further properties of the code *)
(* ===================================================================== *)

(** ** Blocks *)

Lemma blocks_from_snoc current acc l :
  match current with
  | None => acc = []
  | Some c => ∃ r b, acc = r ++ [(c, b)]
  end →
  flat_map (λ '(i, b), map (pair i) b) (blocks_from current acc l)
  = flat_map (λ '(i, b), map (pair i) b) acc ++ l.
Proof.
  revert current acc. induction l as [|[ind s] l IH]; intros current acc Hacc.
  - simpl. by rewrite app_nil_r.
  - cbn [blocks_from]. case_bool_decide as Hc.
    + subst current. destruct Hacc as (r & b & ->).
      rewrite reverse_snoc, reverse_involutive.
      rewrite IH by eauto.
      rewrite !flat_map_app. simpl. rewrite !app_nil_r, map_app. simpl.
      by rewrite <- !app_assoc.
    + rewrite reverse_snoc, reverse_involutive.
      rewrite IH by eauto.
      rewrite !flat_map_app. simpl. by rewrite <- !app_assoc.
Qed.

Lemma blocks_from_nonempty current acc l :
  Forall (λ '(_, b), b ≠ []) acc →
  Forall (λ '(_, b), b ≠ []) (blocks_from current acc l).
Proof.
  revert current acc. induction l as [|[ind s] l IH]; intros current acc Hacc; [done|].
  cbn [blocks_from]. apply IH. case_bool_decide.
  - destruct (reverse acc) as [|[i b] r] eqn:E; [done|].
    apply (f_equal reverse) in E. rewrite reverse_involutive, reverse_cons in E. subst acc.
    apply Forall_app in Hacc as [Hr _].
    apply Forall_app. split; [done|]. constructor; [|done]. by destruct b.
  - rewrite reverse_snoc, reverse_involutive.
    apply Forall_app. split; [done|]. by constructor.
Qed.


Lemma no_equal_neighbours_snoc {A} `{EqDecision A} (l : list A) x y :
  no_equal_neighbours (l ++ [x]) = true → x ≠ y →
  no_equal_neighbours ((l ++ [x]) ++ [y]) = true.
Proof.
  induction l as [|a [|b l] IH]; intros Hl Hne.
  - simpl. by rewrite bool_decide_eq_false_2.
  - simpl in *. apply andb_prop in Hl as [-> _]. simpl.
    by rewrite bool_decide_eq_false_2.
  - cbn [app no_equal_neighbours] in *. apply andb_prop in Hl as [-> Hl]. simpl.
    by apply IH.
Qed.

Lemma blocks_from_neighbours current acc l :
  match current with
  | None => acc = []
  | Some c => ∃ r b, acc = r ++ [(c, b)]
  end →
  no_equal_neighbours (map fst acc) = true →
  no_equal_neighbours (map fst (blocks_from current acc l)) = true.
Proof.
  revert current acc. induction l as [|[ind s] l IH]; intros current acc Hacc Hn; [done|].
  cbn [blocks_from]. case_bool_decide as Hc.
  - subst current. destruct Hacc as (r & b & ->).
    rewrite reverse_snoc, reverse_involutive.
    apply IH; [eauto|]. by rewrite map_app in *.
  - rewrite reverse_snoc, reverse_involutive.
    apply IH; [eauto|]. rewrite map_app. simpl.
    destruct current as [c|].
    + destruct Hacc as (r & b & ->). rewrite map_app in *. simpl in *.
      apply no_equal_neighbours_snoc; [done|]. congruence.
    + by subst acc.
Qed.

(** X1. [blocks] cuts the statements into runs of equal indentation and loses
    nothing: laid end to end, each statement under its block's indentation,
    the blocks are the statements in their order; no block is empty; two
    neighbouring blocks never have the same indentation. *)
Theorem X1_blocks_partition (self : CodeGenerator) :
  flat_map (λ '(i, b), map (pair i) b) (blocks self) = statements self
  ∧ Forall (λ '(_, b), b ≠ []) (blocks self)
  ∧ no_equal_neighbours (map fst (blocks self)) = true.
Proof.
  unfold blocks. split; [|split].
  - by rewrite blocks_from_snoc.
  - by apply blocks_from_nonempty.
  - by apply blocks_from_neighbours.
Qed.

(** ** Get_vars *)

Lemma get_vars_spec n : ∀ self,
  get_vars n self
  = (map (λ i, var_name (var_i self + N.of_nat i)) (seq 0 n),
     mkCodeGenerator (statements self) (current_indent self) (consts self)
       (var_i self + N.of_nat n)).
Proof.
  induction n as [|n IH]; intros self.
  - simpl. rewrite N.add_0_r. by destruct self.
  - cbn [get_vars get_var]. rewrite IH. cbn [var_i statements current_indent consts seq map].
    rewrite N.add_0_r. f_equal.
    + f_equal. rewrite <- fmap_S_seq. rewrite <- list_fmap_compose.
      apply list_fmap_ext. intros _ i _. simpl. f_equal. lia.
    + f_equal. lia.
Qed.

Lemma get_vars_names n self x :
  x ∈ (get_vars n self).1 ↔ ∃ i, x = var_name i ∧ (var_i self ≤ i < var_i self + N.of_nat n)%N.
Proof.
  rewrite get_vars_spec. cbn [fst]. rewrite list_elem_of_fmap. split.
  - intros (i & -> & Hi%elem_of_seq). eexists. split; [done|]. lia.
  - intros (i & -> & Hi). exists (N.to_nat (i - var_i self)). split.
    + f_equal. lia.
    + apply elem_of_seq. lia.
Qed.

(** X2. [get_vars(n)] hands out [n] names, pairwise distinct, none of which
    the builder handed out before and none of which it hands out again; it
    advances the counter by [n] and touches nothing else. *)
Theorem X2_get_vars_fresh (n : nat) (self : CodeGenerator) :
  let '(names, self') := get_vars n self in
  length names = n
  ∧ NoDup names
  ∧ (∀ i, (i < var_i self)%N → var_name i ∉ names)
  ∧ (∀ m, (get_vars m self').1 ## names)
  ∧ var_i self' = (var_i self + N.of_nat n)%N
  ∧ statements self' = statements self
  ∧ current_indent self' = current_indent self
  ∧ consts self' = consts self.
Proof.
  pose proof (get_vars_names n self) as Hnames.
  pose proof (get_vars_spec n self) as Hspec.
  destruct (get_vars n self) as [names self'] eqn:E. cbn [fst] in Hnames.
  injection Hspec as Hn ->. cbn [var_i statements current_indent consts].
  split; [by rewrite Hn, length_map, length_seq|].
  split.
  { rewrite Hn. apply NoDup_fmap_2_strong; [|apply NoDup_seq].
    intros a b _ _ Hab%var_name_inj. lia. }
  split.
  { intros i Hi (j & Hj%var_name_inj & Hin)%Hnames. lia. }
  split; [|done].
  intros m x (i & -> & Hi)%get_vars_names (j & Hj%var_name_inj & Hin)%Hnames.
  cbn [var_i] in Hi. lia.
Qed.

(** ** Get_const *)

(** X3. Two constants captured one after the other get different names and
    both stay in [consts]; every other entry, and in particular every
    constant of a name handed out before, is as it was. *)
Theorem X3_get_const_keeps_earlier (a b : value) (self : CodeGenerator) :
  let '(x, self1) := get_const a self in
  let '(y, self2) := get_const b self1 in
  x ≠ y
  ∧ consts self2 !! x = Some a
  ∧ consts self2 !! y = Some b
  ∧ (∀ k, k ≠ x → k ≠ y → consts self2 !! k = consts self !! k)
  ∧ (∀ i, (i < var_i self)%N → consts self2 !! var_name i = consts self !! var_name i).
Proof.
  cbn [get_const get_var consts var_i].
  assert (Hne : var_name (var_i self) ≠ var_name (var_i self + 1))
    by (apply var_name_ne; lia).
  split; [done|].
  split; [by rewrite lookup_insert_ne, lookup_insert_eq|].
  split; [by rewrite lookup_insert_eq|].
  split.
  - intros k Hx Hy. by rewrite !lookup_insert_ne.
  - intros i Hi. rewrite !lookup_insert_ne; [done| |]; apply var_name_ne; lia.
Qed.

(** ** The serializer's mapping branch *)

(** X4. The mapping branch of the serializer compiler never returns.  For a
    mapping descriptor that is not wire-compatible, [key_var, value_var =
    codegen.get_vars()] unpacks a list of one name and raises [ValueError];
    with other than two type arguments the branch raises
    [DeserializationError] before that.  So does every call of
    [serialize_json] under such a descriptor, whatever the value. *)
Theorem X4_serializer_mapping_never_builds (fuel : nat) (c : PyClass) (args : list TypeHint)
    (in_var out_var : expr) (codegen : CodeGenerator) (data : value) :
  issubclass_Mapping c = true →
  issubclass_json_type (Generic c args) = false →
  let e := if bool_decide (length args = 2) then ValueError else DeserializationError in
  _compile_json_serializer (S fuel) (Generic c args) in_var out_var codegen = Raise e
  ∧ compile_json_serializer (Generic c args) = Raise e
  ∧ serialize_json data (Generic c args) = Raise e.
Proof.
  intros Hc Hj e.
  assert (H : ∀ fuel in_var out_var codegen,
            _compile_json_serializer (S fuel) (Generic c args) in_var out_var codegen
            = Raise e).
  { clear fuel in_var out_var codegen. intros fuel in_var out_var codegen.
    cbn [_compile_json_serializer]. rewrite Hj.
    cbn [remove_none is_union mbind result_bind bind base_of get_args].
    destruct c; try discriminate Hc.
    change (issubclass_SimpleJson dict_) with false.
    change (issubclass_Mapping dict_) with true. cbv iota.
    subst e. case_bool_decide as Hlen; [|reflexivity].
    cbn [negb]. cbv iota.
    destruct (get_vars 1 codegen) as [vars codegen'] eqn:E.
    cbn [get_vars get_var] in E. injection E as <- <-.
    reflexivity. }
  split; [apply H|].
  assert (Hc' : compile_json_serializer (Generic c args) = Raise e).
  { unfold compile_json_serializer. cbn [hint_size]. by rewrite H. }
  split; [exact Hc'|].
  unfold serialize_json. by rewrite Hc'.
Qed.

Lemma X4_witness :
  serialize_json (VDict [(VStr "a", VDatetime "2024-01-01T00:00:00")]) (Mapping String_ Timestamp)
  = Raise ValueError.
Proof.
  exact (proj2 (proj2 (X4_serializer_mapping_never_builds 0 dict_ [String_; Timestamp]
                         (Name "inp") (Name "out") code_generator.new
                         (VDict [(VStr "a", VDatetime "2024-01-01T00:00:00")])
                         eq_refl eq_refl))).
Defined.

(** ** Bare container classes *)

(** X5. For a bare container class other than [str], [tuple] and the
    mappings ([bytes], [bytearray], [list], [set], [frozenset]) both compilers
    raise [IndexError]: the sequence branch evaluates [args[-1]] on an empty
    argument tuple.  The branch for [bytes] that follows it in either
    compiler is never reached. *)
Theorem X5_bare_container_class_fails_at_build (fuel : nat) (c : PyClass)
    (in_var out_var : expr) (codegen : CodeGenerator) (data : value) :
  issubclass_Collection c = true →
  issubclass_Mapping c = false →
  c ≠ str_ → c ≠ tuple_ →
  _compile_json_serializer (S fuel) (Cls c) in_var out_var codegen = Raise IndexError
  ∧ _compile_json_deserializer (S fuel) (Cls c) in_var out_var codegen = Raise IndexError
  ∧ serialize_json data (Cls c) = Raise IndexError
  ∧ deserialize_json data (Cls c) = Raise IndexError.
Proof.
  intros Hcoll Hmap Hstr Htuple.
  destruct c; try discriminate; try done; repeat split; reflexivity.
Qed.

Lemma X5_witness :
  deserialize_json (VStr "YWI=") Bytes = Raise IndexError.
Proof.
  refine (proj2 (proj2 (proj2 (X5_bare_container_class_fails_at_build 0 bytes_
            (Name "inp") (Name "out") code_generator.new (VStr "YWI=") eq_refl eq_refl _ _))));
    discriminate.
Defined.

(** ** Blind output *)






(** ** Read_type_hint *)

(** X7. [read_type_hint] never returns [None]: not as the base type, not
    among the arguments.  The hint [None] reads as [NoneType] without
    arguments; any other hint keeps its base, and arguments without [None]
    come back unchanged. *)
Theorem X7_read_type_hint_normalises_none (type_ : TypeHint) :
  let '(base_type, args) := read_type_hint type_ in
  base_type ≠ BNone
  ∧ (None_ ∉ args)
  ∧ length args = length (get_args type_)
  ∧ (type_ = None_ → base_type = BClass NoneType_ ∧ args = [])
  ∧ (type_ ≠ None_ → base_type = base_of type_)
  ∧ (None_ ∉ get_args type_ → args = get_args type_).
Proof.
  unfold read_type_hint.
  set (norm := λ t : TypeHint, match t with None_ => Cls NoneType_ | _ => t end).
  assert (Hnone : ∀ l, None_ ∉ map norm l).
  { intros l [t [Ht _]]%list_elem_of_fmap. by destruct t. }
  assert (Hid : ∀ l, None_ ∉ l → map norm l = l).
  { induction l as [|t l IH]; [done|]. intros Hl. simpl.
    rewrite IH by (intros ?; apply Hl; by right).
    f_equal. destruct t; try done. destruct Hl. by left. }
  destruct type_; cbn [base_of get_args]; fold norm;
    repeat split; try done; try (by rewrite length_map);
    try apply Hnone; try apply Hid.
  all: by inversion 1.
Qed.

(** ** Deserializer.union *)

(** X8. Unlike the serializer's, the deserializer's [union] makes no test on
    the members' bases: it succeeds as soon as each member's own compilation
    does, also when two members have the same base. *)
Theorem X8_deserializer_union_checks_no_bases `{DeserializerCodegen}
    (any : TypeHint → expr → expr → CodeGenerator → result exc_class CodeGenerator)
    (args : list TypeHint) (in_var out_var : expr) (codegen : CodeGenerator) :
  (∀ arg tmp cg, arg ∈ args → is_ok (any arg tmp out_var cg) = true) →
  is_ok (Deserializer.union any args in_var out_var codegen) = true.
Proof.
  intros Hmembers. unfold Deserializer.union.
  apply for_enumerate_ok. intros i [arg origin] cg Hin.
  apply elem_of_zip_l in Hin.
  destruct (assign_new _ _) as [tmp cg2] eqn:Etmp.
  specialize (Hmembers arg (Name tmp) cg2 Hin).
  destruct (any _ _ _ _); [done|discriminate].
Qed.

Lemma X8_witness :
  is_ok (Deserializer.union (Deserializer.any 1) [Int; Int] (Name "inp") (Name "out")
           code_generator.new) = true
  ∧ Serializer.union (Serializer.any 1) [Int; Int] (Name "inp") (Name "out")
      code_generator.new = Raise SerializationError.
Proof.
  split; [|reflexivity].
  apply (X8_deserializer_union_checks_no_bases (Deserializer.any 1) [Int; Int]).
  intros arg tmp cg Hin.
  apply elem_of_cons in Hin as [->|Hin];
    [|apply list_elem_of_singleton in Hin as ->]; reflexivity.
Defined.

(** ** What type_ rejects *)

(** X9. What [type_] refuses, in the serializer and the deserializer alike
    and whatever the abstract methods are: a mapping without exactly two
    arguments, a class that is no collection, [str] and [bytes], and a
    sequence class with two or more arguments raise [SerializationError]; a
    bare sequence class raises [IndexError], from [args[-1]] on the empty
    argument tuple. *)
Theorem X9_type_rejections `{SerializerCodegen} `{DeserializerCodegen}
    (ser_any de_any : TypeHint → expr → expr → CodeGenerator → result exc_class CodeGenerator)
    (hint : TypeHint) (base_type : PyClass) (args : list TypeHint)
    (in_var out_var : expr) (codegen : CodeGenerator) :
  let ser := Serializer.type_ ser_any hint base_type args in_var out_var codegen in
  let de := Deserializer.type_ de_any hint base_type args in_var out_var codegen in
  (issubclass_Mapping base_type = true → length args ≠ 2 →
   ser = Raise SerializationError ∧ de = Raise SerializationError)
  ∧ (issubclass_Collection base_type = false →
     ser = Raise SerializationError ∧ de = Raise SerializationError)
  ∧ (base_type = str_ ∨ base_type = bytes_ →
     ser = Raise SerializationError ∧ de = Raise SerializationError)
  ∧ (base_type ∈ [list_; set_; frozenset_; bytearray_] → args = [] →
     ser = Raise IndexError ∧ de = Raise IndexError)
  ∧ (base_type ∈ [list_; set_; frozenset_; bytearray_] →
     2 ≤ length args → last args ≠ Some Ellipsis_ →
     ser = Raise SerializationError ∧ de = Raise SerializationError).
Proof.
  intros ser de. subst ser de. unfold Serializer.type_, Deserializer.type_.
  split; [|split; [|split; [|split]]].
  - intros Hm Hlen. rewrite Hm. by destruct args as [|? [|? [|? ?]]].
  - intros Hc. destruct base_type; try discriminate Hc; done.
  - intros [-> | ->]; done.
  - intros Hb ->. set_unfold in Hb. by destruct Hb as [->|[->|[->|[->|[]]]]].
  - intros Hb Hlen Hlast.
    assert (Hstrip : strip_ellipsis args = Ok args).
    { unfold strip_ellipsis. destruct (last args) as [a|] eqn:E.
      - destruct a; done.
      - apply last_None in E. subst args. simpl in Hlen. lia. }
    set_unfold in Hb.
    destruct Hb as [->|[->|[->|[->|[]]]]]; cbn; rewrite Hstrip; cbn;
      by destruct args as [|? [|? ?]]; try (simpl in Hlen; lia).
Qed.

Lemma X9_witness :
  Serializer.type_ (Serializer.any 1) (Cls list_) list_ [] (Name "inp") (Name "out")
    code_generator.new = Raise IndexError
  ∧ Deserializer.type_ (Deserializer.any 1) (Cls list_) list_ [] (Name "inp") (Name "out")
      code_generator.new = Raise IndexError.
Proof.
  refine (proj1 (proj2 (proj2 (proj2
            (X9_type_rejections (Serializer.any 1) (Deserializer.any 1) (Cls list_) list_ []
               (Name "inp") (Name "out") code_generator.new)))) _ eq_refl).
  set_solver.
Defined.

(** ** Open and save *)

Section StoreRoundTrip.
Import serializable.
Context {T : Type} (serialize : T → list byte) (deserialize : list byte → T) (default : T).

(** X10. For a type whose [deserialize] undoes its [serialize]: opening the
    store's path after [save()] gives the store back; opening an explicit
    path after [save(path)] gives the same data under that path; [save()]
    does not change what another path opens to; a path that does not exist
    opens to the default value; saving twice is saving once. *)
Theorem X10_open_reads_what_save_wrote (self : FileSystemStore) (explicit : string)
    (fs : gmap string (list byte)) :
  (∀ d, deserialize (serialize d) = d) →
  open deserialize default (path self) (save serialize self None fs).2 = self
  ∧ open deserialize default explicit (save serialize self (Some explicit) fs).2
    = {| data := data self; path := explicit |}
  ∧ (explicit ≠ path self →
     open deserialize default explicit (save serialize self None fs).2
     = open deserialize default explicit fs)
  ∧ (fs !! explicit = None →
     open deserialize default explicit fs = {| data := default; path := explicit |})
  ∧ (save serialize self None (save serialize self None fs).2).2
    = (save serialize self None fs).2.
Proof.
  intros Hround. unfold open, save, safe_read_bytes, safe_write_bytes. cbn [snd].
  split; [|split; [|split; [|split]]].
  - rewrite lookup_insert_eq, Hround. by destruct self.
  - by rewrite lookup_insert_eq, Hround.
  - intros Hne. by rewrite lookup_insert_ne.
  - by intros ->.
  - apply insert_insert_eq.
Qed.

End StoreRoundTrip.

Lemma X10_witness :
  serializable.open (λ b : list byte, b) [] "store.json"
    (serializable.save (λ b : list byte, b)
       {| serializable.data := b_ab; serializable.path := "store.json" |} None ∅).2
  = {| serializable.data := b_ab; serializable.path := "store.json" |}.
Proof.
  exact (proj1 (X10_open_reads_what_save_wrote (λ b : list byte, b) (λ b : list byte, b) []
                  {| serializable.data := b_ab; serializable.path := "store.json" |}
                  "other" ∅ (λ d, eq_refl))).
Defined.

(** ** To_str and splitlines *)

Lemma splitlines_from_one_line t : ∀ cur started rest,
  one_line t = true →
  splitlines_from cur started (t +:+ rest)
  = splitlines_from (reverse (list_ascii_of_string t) ++ cur)
      (started || negb (String.eqb t EmptyString)) rest.
Proof.
  induction t as [|c t IH]; intros cur started rest Ht.
  - simpl. by rewrite orb_false_r.
  - unfold one_line in Ht. cbn [list_ascii_of_string forallb] in Ht.
    apply andb_prop in Ht as [Hc Ht].
    change (String c t +:+ rest) with (String c (t +:+ rest)).
    cbn [splitlines_from].
    assert (Ascii.eqb c "013" = false) as ->.
    { destruct (Ascii.eqb_spec c "013") as [->|]; [discriminate Hc|done]. }
    apply negb_true_iff in Hc. rewrite Hc.
    rewrite IH by done. cbn [list_ascii_of_string].
    rewrite reverse_cons, <- app_assoc. cbn [app String.eqb negb].
    by rewrite !orb_true_r.
Qed.

Lemma append_empty_r (t : string) : t +:+ EmptyString = t.
Proof.
  induction t as [|c t IH]; [done|].
  change (String c (t +:+ EmptyString) = String c t). by rewrite IH.
Qed.

Lemma string_of_list_ascii_reverse_reverse t :
  string_of_list_ascii (reverse (reverse (list_ascii_of_string t) ++ [])) = t.
Proof. by rewrite app_nil_r, reverse_involutive, string_of_list_ascii_of_string. Qed.

Lemma splitlines_join texts :
  forallb one_line texts = true →
  last texts ≠ Some EmptyString →
  splitlines (join nl texts) = texts.
Proof.
  unfold splitlines, join.
  induction texts as [|t texts IH]; intros Hone Hlast; [done|].
  cbn [forallb] in Hone. apply andb_prop in Hone as [Ht Hone].
  destruct texts as [|t' texts].
  - cbn [String.concat]. rewrite <- (append_empty_r t) at 1.
    rewrite splitlines_from_one_line by done. cbn [splitlines_from orb].
    destruct (String.eqb_spec t EmptyString) as [->|Hne]; [by destruct Hlast|].
    cbn [negb]. by rewrite string_of_list_ascii_reverse_reverse.
  - cbn [String.concat]. rewrite splitlines_from_one_line by done.
    unfold nl at 1. change (String "010" "" +:+ ?x) with (String "010" x).
    cbn [splitlines_from].
    change (Ascii.eqb "010" "013") with false. change (is_linebreak "010") with true.
    cbv iota. rewrite string_of_list_ascii_reverse_reverse. f_equal.
    apply IH; [done|]. by rewrite last_cons_cons in Hlast.
Qed.

Lemma to_str_lines (self : CodeGenerator) :
  forallb one_line (map line_text (statements self)) = true →
  last (map line_text (statements self)) ≠ Some EmptyString →
  splitlines (to_str self) = map line_text (statements self).
Proof.
  intros H1 H2. unfold to_str.
  replace (map _ (statements self)) with (map line_text (statements self)).
  - by apply splitlines_join.
  - apply map_ext. by intros [ind s].
Qed.

Lemma for_each_raise_in {S} (P : nat → Prop) (bind_item : value → S → result raised_at S)
    (body : S → result raised_at S) items :
  (∀ x s n e, bind_item x s = Raise (n, e) → P n) →
  (∀ s n e, body s = Raise (n, e) → P n) →
  ∀ s n e, for_each bind_item body items s = Raise (n, e) → P n.
Proof.
  intros Hb Hbody. induction items as [|x items IH]; intros s n e; [discriminate|].
  simpl. destruct (bind_item x s) as [s1|[n1 e1]] eqn:E1; simpl.
  - destruct (body s1) as [s2|[n2 e2]] eqn:E2; simpl.
    + apply IH.
    + intros [= <- <-]. by eapply Hbody.
  - intros [= <- <-]. by eapply Hb.
Qed.

(** An exception of [exec] carries the number of one of the program's lines. *)
Lemma exec_raise_in (P : nat → Prop) G : ∀ fuel prog locals n e,
  length prog < fuel → Forall (λ '(n, _, _), P n) prog →
  exec fuel G prog locals = Raise (n, e) → P n.
Proof.
  induction fuel as [|fuel IH]; intros prog locals n e Hlen Hnum; [lia|].
  destruct prog as [|[[ln ind] s] rest]; [discriminate|].
  simpl in Hlen. apply Forall_cons in Hnum as [Hln Hrest].
  assert (Hsub : ∀ p, (∃ a b, rest = a ++ p ++ b) →
            length p < fuel ∧ Forall (λ '(n, _, _), P n) p).
  { intros p (a & b & Hp). split.
    - rewrite Hp, !length_app in Hlen. lia.
    - rewrite Hp in Hrest.
      by apply Forall_app in Hrest as [_ [? _]%Forall_app]. }
  assert (Hrest' : length rest < fuel ∧ Forall (λ '(n, _, _), P n) rest).
  { apply Hsub. exists [], []. by rewrite app_nil_r. }
  assert (Hbody : length (span_deeper ind rest).1 < fuel
                  ∧ Forall (λ '(n, _, _), P n) (span_deeper ind rest).1).
  { apply Hsub. exists [], (span_deeper ind rest).2. simpl. by rewrite span_deeper_app. }
  assert (Hafter : length (span_deeper ind rest).2 < fuel
                   ∧ Forall (λ '(n, _, _), P n) (span_deeper ind rest).2).
  { apply Hsub. exists (span_deeper ind rest).1, []. rewrite app_nil_r.
    by rewrite span_deeper_app. }
  assert (Hskip : length (skip_elifs ind (span_deeper ind rest).2) < fuel
                  ∧ Forall (λ '(n, _, _), P n) (skip_elifs ind (span_deeper ind rest).2)).
  { apply Hsub. destruct (skip_elifs_suffix ind (span_deeper ind rest).2) as [sk Hsk].
    exists ((span_deeper ind rest).1 ++ sk), []. rewrite app_nil_r, <- app_assoc, <- Hsk.
    by rewrite span_deeper_app. }
  assert (Hstep : ∀ (m : result exc_class (gmap string value)),
            (at_line ln m ≫= λ l, exec fuel G rest l) = Raise (n, e) → P n).
  { intros m. destruct m as [l|e']; simpl.
    - (intros HH; eapply IH; [| |exact HH]; tauto).
    - by intros [= <- _]. }
  assert (Hif : ∀ c,
    (let '(body, rest0) := span_deeper ind rest in
     at_line ln (eval G locals c ≫= λ v, Ok (truthy v)) ≫= λ b : bool,
       if b then exec fuel G body locals ≫= λ l, exec fuel G (skip_elifs ind rest0) l
       else exec fuel G rest0 locals) = Raise (n, e) → P n).
  { intros c. destruct (span_deeper ind rest) as [body rest0]. simpl in *.
    destruct (eval G locals c) as [v|e']; simpl; [|by intros [= <- _]].
    destruct (truthy v).
    - destruct (exec fuel G body locals) as [l|[n1 e1]] eqn:E; simpl.
      + (intros HH; eapply IH; [| |exact HH]; tauto).
      + intros [= <- <-]. eapply IH; [| |exact E]; tauto.
    - (intros HH; eapply IH; [| |exact HH]; tauto). }
  destruct s as [[l r|targets iter|c|c|e0|text]|[l|l] r]; cbn [exec].
  - apply Hstep.
  - destruct (span_deeper ind rest) as [body rest0]. simpl in *.
    destruct (at_line ln _) as [items|[n1 e1]] eqn:E; simpl.
    + destruct (for_each _ _ items locals) as [l|[n2 e2]] eqn:E2; simpl.
      * (intros HH; eapply IH; [| |exact HH]; tauto).
      * intros [= <- <-]. eapply (for_each_raise_in P); [| |exact E2].
        -- intros x s0 n0 e0 H0. apply at_line_raise in H0. by subst.
        -- intros s0 n0 e0. (intros HH; eapply IH; [| |exact HH]; tauto).
    + intros [= <- <-]. apply at_line_raise in E. by subst.
  - apply Hif.
  - apply Hif.
  - apply Hstep.
  - (intros HH; eapply IH; [| |exact HH]; tauto).
  - apply Hstep.
  - (intros HH; eapply IH; [| |exact HH]; tauto).
Qed.

Lemma program_lines_statements stmts :
  Forall (λ '(n, _, _), ∃ x, 0 < n ∧ stmts !! (n - 1) = Some x) (program_lines stmts).
Proof.
  unfold program_lines.
  apply Forall_forall. intros [[n i] s] Hin.
  apply list_elem_of_filter in Hin as [_ Hin].
  apply elem_of_lookup_imap in Hin as (k & [ind s'] & Heq & Hk).
  injection Heq as -> _ _. exists (ind, s'). split; [lia|].
  by replace (S k - 1) with k by lia.
Qed.

Lemma render_nonempty e : expr_ok e = true → render e ≠ EmptyString.
Proof.
  destruct e; cbn [render expr_ok]; try discriminate.
  - by destruct id.
  - intros _. unfold pretty, pretty_N. case_decide; [discriminate|].
    assert (H' : ∀ x s, s ≠ EmptyString → pretty_N_go x s ≠ EmptyString).
    { intros x. induction (N.lt_wf_0 x) as [x _ IH]; intros s Hs.
      assert (x = 0 ∨ 0 < x)%N as [->|?] by lia.
      - by rewrite pretty_N_go_0.
      - rewrite pretty_N_go_step by done. apply IH; [by apply N.div_lt|done]. }
    rewrite pretty_N_go_step by lia. by apply H'.
  - intros [He _]%andb_prop. destruct (render e1); discriminate.
  - intros [He _]%andb_prop. destruct (render e); discriminate.
  - intros [He _]%andb_prop. destruct (render e); discriminate.
  - intros [He _]%andb_prop. destruct (render e1); discriminate.
Qed.

Lemma statement_text_nonempty s :
  statement_ok s = true → Statement_to_str s ≠ EmptyString.
Proof.
  destruct s as [[l r|targets iter|c|c|e0|text]|[l|l] r];
    cbn [Statement_to_str render_line render_lhs statement_ok]; try discriminate.
  - intros [Hl _]%andb_prop.
    assert (render l ≠ EmptyString) by (destruct l; try discriminate; by apply render_nonempty).
    destruct (render l); [done|discriminate].
  - by apply render_nonempty.
  - intros [Hl _]%andb_prop.
    assert (render l ≠ EmptyString) by (destruct l; try discriminate; by apply render_nonempty).
    destruct (render l); [done|discriminate].
Qed.

Lemma line_text_nonempty x : statement_ok x.2 = true → line_text x ≠ EmptyString.
Proof.
  intros H%statement_text_nonempty. unfold line_text.
  destruct (spaces _); [done|discriminate].
Qed.

Lemma failing_call_note (self : CodeGenerator) (name in_var out_var : string)
    (r : CompiledRoutine) (data : value) (cache : gmap string linecache_entry)
    (lineno : nat) (e : exc_class) :
  code_generator.compile self name in_var out_var = Ok r →
  forallb one_line (map line_text (statements self)) = true →
  run (routine_consts r) (routine_code r) {[ routine_in_var r := data ]}
  = Raise (lineno, e) →
  splitlines (routine_src r) = map line_text (statements self)
  ∧ ∃ statement,
      0 < lineno
      ∧ statements self !! (lineno - 1) = Some statement
      ∧ func r data cache
        = (Raise {| exc := e; notes := [diagnostic_note r (line_text statement)];
                    tb_next_lineno := Some lineno |},
           <[routine_name r := registered r]> cache).
Proof.
  intros Hcompile Hone Hrun. unfold code_generator.compile in Hcompile.
  destruct (syntax_ok (statements self)) eqn:Hsyn; [|discriminate].
  injection Hcompile as <-. cbn [routine_src routine_code routine_consts routine_in_var] in *.
  apply andb_prop in Hsyn as [Hstmts _].
  assert (Hlines : splitlines (to_str self) = map line_text (statements self)).
  { apply to_str_lines; [done|].
    change (map line_text (statements self)) with (line_text <$> statements self).
    rewrite fmap_last. destruct (last (statements self)) as [x|] eqn:E; [|done].
    intros [= Hx]. revert Hx. apply line_text_nonempty.
    apply last_Some_elem_of, list_elem_of_In in E.
    rewrite forallb_forall in Hstmts. specialize (Hstmts x E). by destruct x. }
  split; [exact Hlines|].
  pose proof Hrun as Hin. unfold run in Hin.
  apply (exec_raise_in (λ n, ∃ x, 0 < n ∧ statements self !! (n - 1) = Some x)) in Hin;
    [|lia|apply program_lines_statements].
  destruct Hin as (statement & Hpos & Hst).
  exists statement. split; [done|]. split; [done|].
  unfold func. cbn [routine_src routine_code routine_consts routine_in_var routine_name
                    code_generator.src code_generator.name].
  rewrite Hrun. cbn [__exit__ __enter__ tb_next_lineno code_generator.src code_generator.name].
  rewrite Hlines, list_lookup_fmap, Hst. reflexivity.
Qed.

(** ** Shapes are accepted by the tokenizer *)

Lemma blocks_ok_tok_steps l : ∀ k stack after_header,
  blocks_ok (filter (λ '(_, _, s), is_comment s = false)
               (imap (λ i '(ind, s), (S (k + i), Z.to_nat ind, s)) l)) stack after_header
  = match tok_steps (stack, after_header) l with
    | Some (_, after_header) => negb after_header
    | None => false
    end.
Proof.
  induction l as [|[ind s] l IH]; intros k stack ah; [done|].
  cbn [imap tok_steps].
  rewrite (imap_ext _ (λ i '(ind, s), (S (S k + i), Z.to_nat ind, s)) l)
    by (intros i [??] _; simpl; do 2 f_equal; lia).
  destruct (is_comment s) eqn:Hc.
  - rewrite filter_cons_False by (simpl; by rewrite Hc). apply IH.
  - rewrite filter_cons_True by (simpl; by rewrite Hc). cbn [blocks_ok tok_step].
    destruct ah.
    + destruct stack as [|[top f] st]; [done|].
      destruct (top <? Z.to_nat ind); [|done].
      destruct (is_elif s); cbn [andb]; first [apply IH | done].
    + destruct (pop_to (Z.to_nat ind) stack) as [|[top f] st]; [done|].
      destruct (top =? Z.to_nat ind); [|done].
      destruct (is_elif s); [destruct f|]; cbn [andb]; first [apply IH | done].
Qed.

Lemma syntax_ok_tok_steps stmts :
  syntax_ok stmts
  = forallb (λ '(_, s), statement_ok s) stmts
    && match tok_steps ([(0, false)], false) stmts with
       | Some (_, after_header) => negb after_header
       | None => false
       end.
Proof.
  unfold syntax_ok, program_lines. f_equal.
  rewrite <- (blocks_ok_tok_steps stmts 0). done.
Qed.


Lemma pop_to_le a b stack : a ≤ b → pop_to a (pop_to b stack) = pop_to a stack.
Proof.
  intros Hab. induction stack as [|[i f] stack IH]; [done|].
  cbn [pop_to]. destruct (b <? i) eqn:Hb.
  - rewrite IH. apply Nat.ltb_lt in Hb.
    by rewrite (proj2 (Nat.ltb_lt a i)) by lia.
  - done.
Qed.

Lemma settled_ready c rest st : settled c rest st → ready c rest st.
Proof. destruct st as [stack []]; intros [Hah Hpop]; [done|]. by exists false. Qed.

Lemma settled_up c rest st :
  settled (S c) ((c, false) :: rest) st → settled c rest st.
Proof.
  destruct st as [stack ah]. intros [Hah Hpop]. split; [done|]. cbn [fst] in *.
  rewrite <- (pop_to_le c (S c)) by lia. rewrite Hpop.
  cbn [pop_to]. rewrite (proj2 (Nat.ltb_lt c (S c))) by lia.
  by rewrite Nat.ltb_irrefl.
Qed.

Lemma tok_step_plain c rest st s :
  ready c rest st → is_header s = false →
  tok_step st c s = Some ((c, false) :: rest, false).
Proof.
  intros Hready Hs.
  assert (is_elif s = false ∧ is_if_clause s = false) as [He Hi].
  { destruct s as [[]|]; try done. }
  destruct st as [stack []]; cbn [tok_step ready] in *.
  - destruct Hready as (-> & top & f & tl & -> & Hlt).
    rewrite (proj2 (Nat.ltb_lt top c)) by done. by rewrite He, Hi, Hs.
  - destruct Hready as [f ->]. by rewrite Nat.eqb_refl, He, Hi, Hs.
Qed.

Lemma tok_step_for c rest st targets iter :
  ready c rest st →
  tok_step st c (LiteralStatement (LFor targets iter)) = Some ((c, false) :: rest, true).
Proof.
  intros Hready.
  destruct st as [stack []]; cbn [tok_step ready] in *.
  - destruct Hready as (-> & top & f & tl & -> & Hlt).
    by rewrite (proj2 (Nat.ltb_lt top c)) by done.
  - destruct Hready as [f ->]. by rewrite Nat.eqb_refl.
Qed.

Lemma tok_steps_app a b st :
  tok_steps st (a ++ b) = st' ← tok_steps st a; tok_steps st' b.
Proof.
  revert st. induction a as [|[ind s] a IH]; intros st; [done|].
  cbn [app tok_steps]. destruct (is_comment s); [apply IH|].
  destruct (tok_step st (Z.to_nat ind) s); [apply IH|done].
Qed.

Lemma has_code_app a b : has_code (a ++ b) = has_code a || has_code b.
Proof. apply existsb_app. Qed.

Lemma shape_tok_steps c l :
  shape c l → (0 ≤ c)%Z →
  ∀ st rest, ready (Z.to_nat c) rest st →
    ∃ st', tok_steps st l = Some st'
           ∧ if has_code l then settled (Z.to_nat c) rest st' else st' = st.
Proof.
  induction 1 as [c|c s l Hs Hl IH|c targets iter body l Hbody IHbody Hcode Hl IH];
    intros Hc st rest Hready.
  - by exists st.
  - cbn [tok_steps has_code existsb]. destruct (is_comment s) eqn:Hcom; cbn [negb orb].
    + by apply IH.
    + rewrite (tok_step_plain _ rest) by done.
      assert (Hset : settled (Z.to_nat c) rest ((Z.to_nat c, false) :: rest, false)).
      { split; [done|]. cbn [fst pop_to]. by rewrite Nat.ltb_irrefl. }
      destruct (IH Hc _ rest (settled_ready _ _ _ Hset)) as (st' & Hst' & Hpost).
      exists st'. split; [done|].
      fold (has_code l) in *. destruct (has_code l); [done|by subst].
  - cbn [tok_steps has_code existsb is_comment negb orb].
    rewrite (tok_step_for _ rest) by done.
    rewrite tok_steps_app.
    assert (Hr : ready (Z.to_nat (c + 1)) ((Z.to_nat c, false) :: rest)
                   ((Z.to_nat c, false) :: rest, true)).
    { split; [done|]. eexists _, _, _. split; [done|]. lia. }
    destruct (IHbody ltac:(lia) _ _ Hr) as (stb & -> & Hpost).
    rewrite Hcode in Hpost. cbn [mbind option_bind].
    replace (Z.to_nat (c + 1)) with (S (Z.to_nat c)) in Hpost by lia.
    apply settled_up in Hpost.
    destruct (IH Hc _ rest (settled_ready _ _ _ Hpost)) as (st' & Hst' & Hpost').
    exists st'. split; [done|].
    destruct (has_code l); [done|by subst].
Qed.

Lemma shape_syntax_ok stmts :
  shape 0 stmts → forallb (λ '(_, s), statement_ok s) stmts = true →
  syntax_ok stmts = true.
Proof.
  intros Hshape Hok. rewrite syntax_ok_tok_steps, Hok. cbn [andb].
  destruct (shape_tok_steps 0 stmts Hshape ltac:(lia) ([(0, false)], false) [])
    as (st' & -> & Hpost).
  { by exists false. }
  destruct (has_code stmts).
  - destruct st' as [stack ah]. destruct Hpost as [Hah _]. simpl in Hah. by subst.
  - by subst.
Qed.

Lemma shape_app c a b : shape c a → shape c b → shape c (a ++ b).
Proof.
  induction 1 as [c|c s l Hs Hl IH|c targets iter body l Hbody IHbody Hcode Hl IH];
    intros Hb; [done| |].
  - cbn [app]. apply shape_plain; auto.
  - cbn [app]. rewrite <- app_assoc. apply shape_for; auto.
Qed.

(** ** What the builder methods add *)

Lemma eb_weaken (P Q : Prop) cg cg' : (Q → P) → emits_block P cg cg' → emits_block Q cg cg'.
Proof. intros HQP (em & Ha & Hs & Hok). exists em. split; [done|]. split; [done|]. auto. Qed.

Lemma eb_nothing P cg cg' :
  statements cg' = statements cg → current_indent cg' = current_indent cg →
  (var_i cg ≤ var_i cg')%N →
  (∀ i, (i < var_i cg)%N → consts cg' !! var_name i = consts cg !! var_name i) →
  (∀ k, (∀ i, k ≠ var_name i) → k ≠ "base64" → k ≠ "datetime" →
        consts cg' !! k = consts cg !! k) →
  emits_block P cg cg'.
Proof.
  intros Hs Hi Hv Hc Ho. exists []. split; [|split; [constructor|done]].
  split; [by rewrite app_nil_r|]. split; [lia|]. done.
Qed.

Lemma eb_refl P cg : emits_block P cg cg.
Proof. apply eb_nothing; [done|done|lia|done|done]. Qed.

Lemma eb_trans P a b c : emits_block P a b → emits_block P b c → emits_block P a c.
Proof.
  intros (e1 & (Hs1 & Hi1 & Hv1 & Hc1 & Ho1) & Hsh1 & Hok1)
         (e2 & (Hs2 & Hi2 & Hv2 & Hc2 & Ho2) & Hsh2 & Hok2).
  exists (e1 ++ e2). split; [|split].
  - split; [by rewrite Hs2, Hs1, app_assoc|]. split; [lia|]. split; [lia|]. split.
    + intros i Hi. rewrite Hc2 by lia. by apply Hc1.
    + intros k Hk Hb Hd. rewrite Ho2 by done. by apply Ho1.
  - apply shape_app; [done|]. by replace (current_indent a) with (current_indent b) by lia.
  - intros HP. by rewrite forallb_app, Hok1, Hok2.
Qed.

Lemma assign_eq l r cg :
  assign l r cg
  = mkCodeGenerator (statements cg ++ [(current_indent cg, assign_statement l r)])
      (current_indent cg) (consts cg) (var_i cg).
Proof. reflexivity. Qed.

Lemma assign_statement_tidy l r :
  tidy_target l = true → tidy_expr r = true → tidy (assign_statement l r) = true.
Proof.
  intros Hl Hr. unfold assign_statement. destruct (String.eqb _ _); cbn [tidy];
    by rewrite Hl, Hr.
Qed.

Lemma assign_statement_plain l r : is_header (assign_statement l r) = false.
Proof. unfold assign_statement. by destruct (String.eqb _ _). Qed.

Lemma eb_statement (P : Prop) s cg :
  is_header s = false → (P → tidy s = true) →
  emits_block P cg (add_statement s cg).
Proof.
  intros Hs Hok. exists [(current_indent cg, s)]. split; [|split].
  - split; [done|]. split; [cbn; lia|]. split; [cbn; lia|]. done.
  - by apply shape_plain; [|constructor].
  - intros HP. cbn. by rewrite Hok.
Qed.

Lemma eb_assign (P : Prop) l r cg :
  (P → tidy_target l = true) → (P → tidy_expr r = true) →
  emits_block P cg (assign l r cg).
Proof.
  intros Hl Hr. apply (eb_statement P (assign_statement l r)).
  - apply assign_statement_plain.
  - intros HP. apply assign_statement_tidy; auto.
Qed.

Lemma eb_counter P n cg :
  emits_block P cg
    (mkCodeGenerator (statements cg) (current_indent cg) (consts cg) (var_i cg + n)).
Proof. apply eb_nothing; [done|done|cbn; lia|done|done]. Qed.

Lemma eb_get_const P v cg : emits_block P cg (get_const v cg).2.
Proof.
  apply eb_nothing; [done|done|cbn; lia| |].
  - intros i Hi. cbn. apply lookup_insert_ne, var_name_ne. lia.
  - intros k Hk _ _. cbn. apply lookup_insert_ne. apply not_eq_sym, Hk.
Qed.

Lemma eb_get_const_eq P v cg x cg0 :
  get_const v cg = (x, cg0) → emits_block P cg cg0 ∧ x = var_name (var_i cg).
Proof.
  intros H. pose proof (eb_get_const P v cg) as Hb. rewrite H in Hb.
  split; [exact Hb|]. by injection H as <- _.
Qed.

Lemma eb_ensure_import P (module : string) cg :
  module = "base64" ∨ module = "datetime" → emits_block P cg (ensure_import module cg).
Proof.
  intros Hm. apply eb_nothing; [done|done|cbn; lia| |].
  - intros i Hi. cbn. apply lookup_insert_ne.
    destruct Hm as [-> | ->]; unfold var_name; simpl; discriminate.
  - intros k _ Hb Hd. cbn. apply lookup_insert_ne. destruct Hm as [-> | ->]; congruence.
Qed.

(** A [for] header, the suite built inside it, and [dedent]. *)
Lemma eb_for (P : Prop) targets iter cg cg1 :
  (P → tidy (LiteralStatement (LFor targets iter)) = true) →
  emits_block P (indent (literal (LFor targets iter) cg)) cg1 →
  emits_block P cg (dedent cg1).
Proof.
  intros Hhdr (body & (Hs & Hi & Hv & Hc & Ho) & Hsh & Hok).
  cbn [indent literal add_statement statements current_indent var_i consts] in *.
  exists ((current_indent cg, LiteralStatement (LFor targets iter))
          :: (body ++ [(current_indent cg1, LiteralStatement (LExpr EllipsisLit))]) ++ []).
  split; [|split].
  - split.
    { cbn. rewrite Hs, app_nil_r. by rewrite <- !app_assoc. }
    split; [cbn; lia|]. split; [cbn; lia|]. split.
    + intros i Hi'. cbn. by apply Hc.
    + intros k Hk Hb Hd. cbn. by apply Ho.
  - apply shape_for; [|by rewrite has_code_app, orb_true_r|constructor].
    apply shape_app; [done|]. replace (current_indent cg1) with (current_indent cg + 1)%Z by lia.
    apply shape_plain; [done|constructor].
  - intros HP. cbn [forallb]. rewrite Hhdr by done. rewrite app_nil_r, forallb_app, Hok by done.
    done.
Qed.

(** ** Tidy statements *)

Lemma one_line_app a b : one_line (a +:+ b) = one_line a && one_line b.
Proof. unfold one_line. by rewrite list_ascii_of_string_app, forallb_app. Qed.

Lemma alnum_not_linebreak c : is_alnum c = true → is_linebreak c = false.
Proof. destruct c as [[] [] [] [] [] [] [] []]; by vm_compute. Qed.

Lemma alpha_alnum c : is_alpha c = true → is_alnum c = true.
Proof. unfold is_alnum. by intros ->. Qed.

Lemma alnums_one_line l :
  forallb is_alnum l = true → forallb (λ c, negb (is_linebreak c)) l = true.
Proof.
  induction l as [|c l IH]; [done|]. cbn [forallb]. intros [Hc Hl]%andb_prop.
  by rewrite (alnum_not_linebreak c Hc), IH.
Qed.

Lemma identifier_one_line id : is_identifier id = true → one_line id = true.
Proof.
  destruct id as [|c id]; [done|]. cbn [is_identifier]. intros [Hc Hid]%andb_prop.
  unfold one_line. cbn [list_ascii_of_string forallb].
  by rewrite (alnum_not_linebreak c (alpha_alnum c Hc)), alnums_one_line.
Qed.

Lemma pretty_N_one_line (n : N) : one_line (pretty n) = true.
Proof. apply alnums_one_line, digits_alnum, pretty_N_digits. Qed.

Lemma one_line_join sep l :
  one_line sep = true → forallb one_line l = true → one_line (join sep l) = true.
Proof.
  intros Hsep. unfold join. induction l as [|x [|y l] IH]; [done| |].
  - cbn [forallb String.concat]. by intros [-> _]%andb_prop.
  - cbn [forallb]. intros [Hx Hl]%andb_prop. cbn [String.concat].
    rewrite !one_line_app, Hx, Hsep. cbn [andb]. by apply IH.
Qed.

Lemma render_one_line : ∀ e, tidy_expr e = true → one_line (render e) = true.
Proof.
  assert (Hlist : ∀ es,
            Forall (λ e, tidy_expr e = true → one_line (render e) = true) es →
            forallb expr_ok es = true → forallb strs_one_line es = true →
            one_line (join ", " (map render es)) = true).
  { intros es IH Hok Hstr. apply one_line_join; [done|].
    induction IH as [|e es He _ IHes]; [done|].
    cbn [forallb map] in *. apply andb_prop in Hok as [H1 H2]. apply andb_prop in Hstr as [S1 S2].
    rewrite He, IHes; [done|done|done|]. unfold tidy_expr. by rewrite H1, S1. }
  assert (Hpair : ∀ a, expr_ok a = true → strs_one_line a = true → tidy_expr a = true).
  { intros a Ha Hs. unfold tidy_expr. by rewrite Ha, Hs. }
  fix IH 1. intros e. unfold tidy_expr.
  destruct e as [id|n|s|e1 e2|e a|f args|es|es|es| |e1 e2|];
    cbn [expr_ok strs_one_line render]; intros [Hok Hstr]%andb_prop.
  - by apply identifier_one_line.
  - apply pretty_N_one_line.
  - by rewrite !one_line_app, Hstr.
  - apply andb_prop in Hok as [H1 H2]. apply andb_prop in Hstr as [S1 S2].
    rewrite !one_line_app.
    rewrite (IH e1) by (by apply Hpair).
    rewrite (IH e2) by (by apply Hpair). done.
  - apply andb_prop in Hok as [H1 H2].
    rewrite !one_line_app.
    rewrite (IH e) by (by apply Hpair).
    rewrite (identifier_one_line a) by done. done.
  - apply andb_prop in Hok as [H1 H2]. apply andb_prop in Hstr as [S1 S2].
    rewrite !one_line_app.
    rewrite (IH f) by (by apply Hpair).
    rewrite Hlist; [done| |done|done].
    clear -IH. induction args as [|x args IHa]; constructor; [apply IH|apply IHa].
  - apply andb_prop in Hok as [_ H2].
    rewrite !one_line_app. rewrite Hlist; [done| |done|done].
    clear -IH. induction es as [|x es IHa]; constructor; [apply IH|apply IHa].
  - rewrite !one_line_app. rewrite Hlist; [done| |done|done].
    clear -IH. induction es as [|x es IHa]; constructor; [apply IH|apply IHa].
  - rewrite !one_line_app. rewrite Hlist; [done| |done|done].
    clear -IH. induction es as [|x es IHa]; constructor; [apply IH|apply IHa].
  - done.
  - apply andb_prop in Hok as [H1 H2]. apply andb_prop in Hstr as [S1 S2].
    rewrite !one_line_app.
    rewrite (IH e1) by (by apply Hpair).
    rewrite (IH e2) by (by apply Hpair). done.
  - done.
Qed.

Lemma tidy_target_expr e : tidy_target e = true → tidy_expr e = true.
Proof.
  unfold tidy_target, tidy_expr. intros [Ht Hs]%andb_prop. rewrite Hs, andb_true_r.
  by destruct e.
Qed.

Lemma tidy_statement_ok s : tidy s = true → statement_ok s = true.
Proof.
  unfold tidy_target, tidy_expr.
  destruct s as [[l r|targets iter|c|c|e0|text]|[l|l] r]; cbn [tidy statement_ok];
    unfold tidy_target, tidy_expr; try done.
  - intros [[-> _]%andb_prop [-> _]%andb_prop]%andb_prop. done.
  - intros [[-> ->]%andb_prop [-> _]%andb_prop]%andb_prop. done.
  - by intros [-> _]%andb_prop.
  - by intros [-> _]%andb_prop.
  - by intros [-> _]%andb_prop.
  - intros [[-> _]%andb_prop [-> _]%andb_prop]%andb_prop. done.
Qed.

Lemma tidy_one_line s : tidy s = true → one_line (Statement_to_str s) = true.
Proof.
  destruct s as [[l r|targets iter|c|c|e0|text]|[l|l] r];
    cbn [tidy Statement_to_str render_line render_lhs].
  - intros [Hl%tidy_target_expr Hr]%andb_prop.
    by rewrite !one_line_app, !render_one_line.
  - intros [[_ Ht]%andb_prop Hi]%andb_prop.
    rewrite !one_line_app, render_one_line, one_line_join; [done|done| |done].
    apply forallb_forall. intros x Hx. apply identifier_one_line.
    rewrite forallb_forall in Ht. by apply Ht.
  - intros Hc. by rewrite !one_line_app, render_one_line.
  - intros Hc. by rewrite !one_line_app, render_one_line.
  - apply render_one_line.
  - intros Ht. by rewrite one_line_app, Ht.
  - intros [Hl%tidy_target_expr Hr]%andb_prop.
    by rewrite !one_line_app, !render_one_line.
  - intros [Hl%tidy_target_expr Hr]%andb_prop.
    by rewrite !one_line_app, !render_one_line.
Qed.

Lemma spaces_one_line n : one_line (spaces n) = true.
Proof. induction n as [|n IH]; [done|]. cbn [spaces]. by rewrite one_line_app, IH. Qed.

Lemma tidy_line_text x : tidy x.2 = true → one_line (line_text x) = true.
Proof. intros H. unfold line_text. by rewrite one_line_app, spaces_one_line, tidy_one_line. Qed.

Lemma tidy_statements l :
  forallb (λ '(_, s), tidy s) l = true →
  forallb (λ '(_, s), statement_ok s) l = true
  ∧ forallb one_line (map line_text l) = true.
Proof.
  induction l as [|[ind s] l IH]; [done|]. cbn [forallb map].
  intros [Hs Hl]%andb_prop. destruct (IH Hl) as [-> ->].
  by rewrite (tidy_statement_ok s Hs), (tidy_line_text (ind, s) Hs).
Qed.

(** ** The compilers emit blocks *)

Lemma existsb_false_elem {A} (f : A → bool) (l : list A) a :
  existsb f l = false → a ∈ l → f a = false.
Proof.
  intros H Hin. destruct (f a) eqn:E; [|done].
  assert (existsb f l = true); [|congruence].
  apply existsb_exists. exists a. split; [by apply list_elem_of_In|done].
Qed.

Lemma het_arg tp a : has_empty_tuple tp = false → a ∈ get_args tp → has_empty_tuple a = false.
Proof.
  destruct tp; cbn [has_empty_tuple get_args]; intros H Hin;
    try (by apply elem_of_nil in Hin).
  - apply orb_false_iff in H as [_ H]. by eapply existsb_false_elem.
  - by eapply existsb_false_elem.
Qed.

Lemma het_remove_none tp tp' :
  remove_none tp = Ok tp' → has_empty_tuple tp = false → has_empty_tuple tp' = false.
Proof.
  unfold remove_none. destruct (is_union tp) eqn:Hu; [|by intros [= ->]].
  destruct (existsb is_NoneType (get_args tp)); [|by intros [= ->]].
  destruct tp; try discriminate Hu. cbn [get_args has_empty_tuple].
  intros Hr Hhet.
  assert (Hf : ∀ a, a ∈ filter (λ arg, is_NoneType arg = false) args →
                    has_empty_tuple a = false).
  { intros a [_ Ha]%list_elem_of_filter. by eapply existsb_false_elem. }
  unfold typing_Union in Hr.
  destruct (filter _ args) as [|a [|b l]] eqn:E; [discriminate| |]; injection Hr as <-.
  - apply Hf. by left.
  - cbn [has_empty_tuple]. rewrite <- E in *.
    destruct (existsb has_empty_tuple (filter _ args)) eqn:Hex; [|done].
    apply existsb_exists in Hex as (a' & Hin%list_elem_of_In & Ha').
    rewrite E in Hin. rewrite Hf in Ha' by (by rewrite E). done.
Qed.

Lemma het_tuple_args tp :
  has_empty_tuple tp = false → base_of tp = BClass tuple_ → get_args tp ≠ [].
Proof.
  destruct tp; cbn [has_empty_tuple base_of get_args]; try discriminate.
  - intros H [= ->]. by rewrite bool_decide_eq_true_2 in H.
  - intros H [= ->] ->. by rewrite bool_decide_eq_true_2 in H.
Qed.

Lemma eb_tuple_loop (P : Prop)
    (rec : TypeHint → expr → expr → CodeGenerator → result exc_class CodeGenerator)
    (f : N → expr) (args : list TypeHint) :
  (∀ elem i k cg cg', elem ∈ args →
     rec elem (f i) (Name (var_name k)) cg = Ok cg' → emits_block P cg cg') →
  ∀ i out cg out' cg',
    for_enumerate
      (λ i elem_type '(out, codegen),
         let '(var, codegen) := get_var codegen in
         codegen ← rec elem_type (f i) (Name var) codegen;
         Ok (out ++ [var], codegen))
      i args (out, cg) = Ok (out', cg') →
    emits_block P cg cg'
    ∧ ∃ names, out' = out ++ names ∧ length names = length args
               ∧ Forall (λ x, ∃ k, x = var_name k) names.
Proof.
  induction args as [|elem args IH]; intros Hrec i out cg out' cg' H.
  - injection H as <- <-. split; [apply eb_refl|]. exists []. by rewrite app_nil_r.
  - cbn [for_enumerate get_var] in H.
    destruct (rec elem _ _ _) as [cg1|] eqn:E; cbn [mbind result_bind bind] in H;
      [|discriminate].
    apply Hrec in E; [|by left].
    apply IH in H as [Hb (names & -> & Hlen & Hnames)];
      [|intros ??????; apply Hrec; by right].
    split.
    + eapply eb_trans; [|exact Hb]. eapply eb_trans; [|exact E].
      apply (eb_counter P 1).
    + exists (var_name (var_i cg) :: names). rewrite <- app_assoc. split; [done|].
      split; [simpl; by rewrite Hlen|]. constructor; [by eexists|done].
Qed.

Lemma tuple_comma_ok names :
  names ≠ [] → Forall (λ x, ∃ k, x = var_name k) names →
  tidy_expr (TupleComma (map Name names)) = true.
Proof.
  intros Hne Hnames. unfold tidy_expr. cbn [expr_ok strs_one_line]. rewrite length_map.
  rewrite bool_decide_eq_false_2 by (by destruct names). cbn [negb andb].
  apply andb_true_intro. split.
  - apply forallb_forall. intros e [x [-> Hx]]%list_elem_of_In%list_elem_of_fmap.
    rewrite Forall_forall in Hnames. destruct (Hnames x Hx) as [k ->].
    apply is_identifier_var_name.
  - apply forallb_forall. by intros e [x [-> Hx]]%list_elem_of_In%list_elem_of_fmap.
Qed.

Lemma target_ok_expr_ok e : target_ok e = true → expr_ok e = true.
Proof. by destruct e. Qed.

Ltac tidy_solve :=
  cbn [tidy];
  unfold tidy_expr, tidy_target in *;
  cbn [expr_ok target_ok strs_one_line forallb length b64decode_of fromisoformat_of] in *;
  repeat match goal with
         | H : _ && _ = true |- _ => apply andb_prop in H as [? ?]
         end;
  repeat match goal with
         | H : target_ok ?e = true |- _ =>
             lazymatch goal with
             | _ : expr_ok e = true |- _ => fail
             | _ => pose proof (target_ok_expr_ok e H)
             end
         end;
  rewrite ?is_identifier_var_name;
  repeat match goal with
         | H : ?x = true |- context [?x] => rewrite H
         end;
  try done.

Lemma var_name_ne_base64 i : var_name i ≠ "base64".
Proof. unfold var_name. simpl. discriminate. Qed.

Lemma var_name_ne_datetime i : var_name i ≠ "datetime".
Proof. unfold var_name. simpl. discriminate. Qed.

Lemma serializer_emits : ∀ fuel type_ in_var out_var cg cg',
  _compile_json_serializer fuel type_ in_var out_var cg = Ok cg' →
  emits_block (has_empty_tuple type_ = false ∧ tidy_target out_var = true
               ∧ tidy_expr in_var = true) cg cg'.
Proof.
  induction fuel as [|fuel IH]; intros tp in_var out_var cg cg' H; [discriminate|].
  cbn [_compile_json_serializer] in H.
  destruct (issubclass_json_type tp) eqn:Hj.
  { injection H as <-. apply eb_assign; tauto. }
  destruct (remove_none tp) as [tp'|] eqn:Hr; cbn [mbind result_bind bind] in H;
    [|discriminate].
  pose proof (het_remove_none _ _ Hr) as Hhet.
  destruct (base_of tp') as [base| | |] eqn:Hbase; try discriminate.
  destruct (issubclass_SimpleJson base).
  { injection H as <-. apply eb_assign; tauto. }
  destruct (issubclass_Mapping base) eqn:Hm.
  { exfalso. destruct (negb _); [discriminate|].
    cbn [get_vars get_var] in H. by destruct (get_args tp') as [|? [|? [|]]]. }
  destruct (issubclass_Collection base) eqn:Hcoll.
  { destruct (bool_decide (base = tuple_) && negb (is_variadic (get_args tp'))) eqn:Ht.
    - (* fixed tuple *)
      apply andb_prop in Ht as [->%bool_decide_eq_true _].
      destruct (for_enumerate _ _ _ _) as [[out cg1]|] eqn:E;
        cbn [mbind result_bind bind] in H; [|discriminate].
      injection H as <-.
      apply (eb_tuple_loop
               (has_empty_tuple tp = false ∧ tidy_target out_var = true
                ∧ tidy_expr in_var = true)
               (_compile_json_serializer fuel) (λ i, Subscript out_var (Num i))) in E
        as [Hb (names & -> & Hlen & Hnames)].
      + eapply eb_trans; [exact Hb|]. apply eb_assign; [tauto|].
        intros (He & Ho & Hi). apply tuple_comma_ok; [|done].
        specialize (het_tuple_args tp' (Hhet He) Hbase). by destruct names, (get_args tp').
      + intros elem i k cg0 cg0' Hin Hc. apply IH in Hc.
        eapply eb_weaken; [|exact Hc]. intros (He & Ho & Hi).
        split; [by eapply het_arg; [apply Hhet|]|].
        split; tidy_solve.
    - (* sequence *)
      destruct (strip_ellipsis (get_args tp')) as [args|] eqn:Hs;
        cbn [mbind result_bind bind] in H; [|discriminate].
      destruct args as [|elem [|]]; try discriminate.
      rewrite get_vars_spec in H. cbn [seq map] in H.
      destruct (_compile_json_serializer fuel elem _ _ _) as [cg1|] eqn:E;
        cbn [mbind result_bind bind] in H; [|discriminate].
      injection H as <-. apply IH in E.
      assert (Helem : has_empty_tuple tp = false → has_empty_tuple elem = false).
      { intros He. eapply het_arg; [apply (Hhet He)|].
        eapply strip_ellipsis_elem; [exact Hs|by left]. }
      eapply eb_trans; cycle 1.
      { eapply eb_for; cycle 1.
        - eapply eb_trans; [eapply eb_weaken; [|exact E]|].
          + intros (He & Ho & Hi). split; [auto|]. split; tidy_solve.
          + apply eb_assign; intros (He & Ho & Hi); tidy_solve.
        - intros (He & Ho & Hi). tidy_solve. }
      eapply eb_trans; [apply (eb_counter _ (N.of_nat 2))|].
      apply eb_assign; [tauto|].
      intros (He & Ho & Hi). tidy_solve. }
  destruct (issubclass base bytes_).
  { injection H as <-. eapply eb_trans; [apply eb_ensure_import; by left|].
    apply eb_assign; [tauto|]. intros (_ & _ & Hi). tidy_solve. }
  destruct (issubclass base datetime_); [|discriminate].
  injection H as <-. apply eb_assign; [tauto|]. intros (_ & _ & Hi). tidy_solve.
Qed.

Lemma deserializer_emits : ∀ fuel type_ in_var out_var cg cg',
  _compile_json_deserializer fuel type_ in_var out_var cg = Ok cg' →
  emits_block (has_empty_tuple type_ = false ∧ tidy_target out_var = true
               ∧ tidy_expr in_var = true) cg cg'.
Proof.
  induction fuel as [|fuel IH]; intros tp in_var out_var cg cg' H; [discriminate|].
  cbn [_compile_json_deserializer] in H.
  destruct (issubclass_json_type tp) eqn:Hj.
  { injection H as <-. apply eb_assign; tauto. }
  destruct (remove_none tp) as [tp'|] eqn:Hr; cbn [mbind result_bind bind] in H;
    [|discriminate].
  pose proof (het_remove_none _ _ Hr) as Hhet.
  destruct (base_of tp') as [base| | |] eqn:Hbase; try discriminate.
  destruct (issubclass_SimpleJson base).
  { injection H as <-. apply eb_assign; tauto. }
  destruct (issubclass_Mapping base) eqn:Hm.
  { (* mapping *)
    destruct (get_args tp') as [|key_type [|value_type [|]]] eqn:Hargs; try discriminate.
    destruct (get_const (VClass base) cg) as [base_class_name cg0] eqn:Hconst.
    rewrite get_vars_spec in H. cbn [seq map] in H.
    destruct (_compile_json_deserializer fuel key_type _ _ _) as [cg1|] eqn:E1;
      cbn [mbind result_bind bind] in H; [|discriminate].
    destruct (_compile_json_deserializer fuel value_type _ _ _) as [cg2|] eqn:E2;
      cbn [mbind result_bind bind] in H; [|discriminate].
    injection H as <-. apply IH in E1, E2.
    destruct (eb_get_const_eq (has_empty_tuple tp = false ∧ tidy_target out_var = true
                               ∧ tidy_expr in_var = true) _ _ _ _ Hconst) as [Hcg0 Hname].
    assert (Hk : has_empty_tuple tp = false → has_empty_tuple key_type = false).
    { intros He. eapply het_arg; [apply (Hhet He)|]. rewrite Hargs. by left. }
    assert (Hv : has_empty_tuple tp = false → has_empty_tuple value_type = false).
    { intros He. eapply het_arg; [apply (Hhet He)|]. rewrite Hargs. right. by left. }
    eapply eb_trans; cycle 1.
    { eapply eb_for; cycle 1.
      - eapply eb_trans; [eapply eb_weaken; [|exact E1]|].
        { intros (He & Ho & Hi). split; [auto|]. split; tidy_solve. }
        eapply eb_trans; [eapply eb_weaken; [|exact E2]|].
        { intros (He & Ho & Hi). split; [auto|]. split; tidy_solve. }
        apply eb_assign; intros (He & Ho & Hi); tidy_solve.
      - intros (He & Ho & Hi). tidy_solve. }
    eapply eb_trans; [exact Hcg0|].
    eapply eb_trans; [apply (eb_counter _ (N.of_nat 2))|].
    apply eb_assign; [tauto|].
    intros _. rewrite Hname. tidy_solve. }
  destruct (issubclass_Collection base) eqn:Hcoll.
  { destruct (bool_decide (base = tuple_) && negb (is_variadic (get_args tp'))) eqn:Ht.
    - (* fixed tuple *)
      apply andb_prop in Ht as [->%bool_decide_eq_true _].
      destruct (for_enumerate _ _ _ _) as [[out cg1]|] eqn:E;
        cbn [mbind result_bind bind] in H; [|discriminate].
      injection H as <-.
      apply (eb_tuple_loop
               (has_empty_tuple tp = false ∧ tidy_target out_var = true
                ∧ tidy_expr in_var = true)
               (_compile_json_deserializer fuel) (λ i, Subscript in_var (Num i))) in E
        as [Hb (names & -> & Hlen & Hnames)].
      + eapply eb_trans; [exact Hb|]. apply eb_assign; [tauto|].
        intros (He & Ho & Hi). apply tuple_comma_ok; [|done].
        specialize (het_tuple_args tp' (Hhet He) Hbase). by destruct names, (get_args tp').
      + intros elem i k cg0 cg0' Hin Hc. apply IH in Hc.
        eapply eb_weaken; [|exact Hc]. intros (He & Ho & Hi).
        split; [by eapply het_arg; [apply Hhet|]|].
        split; tidy_solve.
    - (* sequence *)
      destruct (strip_ellipsis (get_args tp')) as [args|] eqn:Hs;
        cbn [mbind result_bind bind] in H; [|discriminate].
      destruct args as [|elem [|]]; try discriminate.
      destruct (get_const (VClass base) cg) as [base_class_name cg0] eqn:Hconst.
      cbn [get_var] in H.
      destruct (_compile_json_deserializer fuel elem _ _ _) as [cg1|] eqn:E;
        cbn [mbind result_bind bind] in H; [|discriminate].
      injection H as <-. apply IH in E.
      destruct (eb_get_const_eq (has_empty_tuple tp = false ∧ tidy_target out_var = true
                                 ∧ tidy_expr in_var = true) _ _ _ _ Hconst) as [Hcg0 Hname].
      assert (Helem : has_empty_tuple tp = false → has_empty_tuple elem = false).
      { intros He. eapply het_arg; [apply (Hhet He)|].
        eapply strip_ellipsis_elem; [exact Hs|by left]. }
      eapply eb_trans; cycle 1.
      { eapply eb_trans; cycle 1.
        { apply eb_assign; [tauto|]. intros (He & Ho & Hi).
          rewrite Hname. tidy_solve. }
        eapply eb_for; cycle 1.
        - eapply eb_trans; [eapply eb_weaken; [|exact E]|].
          { intros (He & Ho & Hi). split; [auto|]. split; tidy_solve. }
          apply eb_statement; [done|].
          intros (He & Ho & Hi). tidy_solve.
        - intros (He & Ho & Hi). tidy_solve. }
      eapply eb_trans; [exact Hcg0|].
      eapply eb_trans; [apply (eb_counter _ 1)|].
      apply eb_assign; [tauto|]. done. }
  destruct (issubclass base bytes_).
  { injection H as <-. eapply eb_trans; [apply eb_ensure_import; by left|].
    apply eb_assign; [tauto|]. intros (_ & _ & Hi). tidy_solve. }
  destruct (issubclass base datetime_); [|discriminate].
  injection H as <-. eapply eb_trans; [apply eb_ensure_import; by right|].
  apply eb_assign; [tauto|]. intros (_ & _ & Hi). tidy_solve.
Qed.

(** ** X11 wrapper *)

(** X11. Line numbers and source text agree.  For a routine compiled from a
    builder whose statements hold no line break, the source splits into one
    line per statement, and when the program raises on a line the call
    attaches the note made from the text of the statement with that number,
    lets the exception go on, and leaves the source registered. *)
Theorem X11_failing_call_shows_its_line (self : CodeGenerator) (name in_var out_var : string)
    (r : CompiledRoutine) (data : value) (cache : gmap string linecache_entry)
    (lineno : nat) (e : exc_class) :
  code_generator.compile self name in_var out_var = Ok r →
  forallb one_line (map line_text (statements self)) = true →
  run (routine_consts r) (routine_code r) {[ routine_in_var r := data ]}
  = Raise (lineno, e) →
  splitlines (routine_src r) = map line_text (statements self)
  ∧ ∃ statement,
      0 < lineno
      ∧ statements self !! (lineno - 1) = Some statement
      ∧ func r data cache
        = (Raise {| exc := e; notes := [diagnostic_note r (line_text statement)];
                    tb_next_lineno := Some lineno |},
           <[routine_name r := registered r]> cache).
Proof. apply failing_call_note. Qed.

Lemma X11_witness :
  splitlines
    (routine_src (built (code_generator.compile
                           (assign (Name "out") (Call (Attribute (Name "inp") "isoformat") [])
                              code_generator.new) "routine" "inp" "out")))
  = ["out = inp.isoformat()"].
Proof.
  refine (proj1 (X11_failing_call_shows_its_line
                   (assign (Name "out") (Call (Attribute (Name "inp") "isoformat") [])
                      code_generator.new) "routine" "inp" "out" _ VNone ∅ 1 AttributeError
                   _ _ _)); vm_compute; reflexivity.
Defined.

(** ** The compilers only append *)

(** X12. Whenever one of the two compilers returns, it has only added to the
    builder: the statements it found are still there, in front; what it added
    is laid out as blocks at the indentation it was called at; the
    indentation is back where it was; the counter is no lower; the constants
    of names handed out before, and every constant that is neither a
    generated name nor one of the modules [base64] and [datetime], are
    untouched. *)
Theorem X12_compilers_only_append (fuel : nat) (type_ : TypeHint) (in_var out_var : expr)
    (cg cg' : CodeGenerator) :
  _compile_json_serializer fuel type_ in_var out_var cg = Ok cg'
  ∨ _compile_json_deserializer fuel type_ in_var out_var cg = Ok cg' →
  (∃ emitted, statements cg' = statements cg ++ emitted
              ∧ shape (current_indent cg) emitted)
  ∧ current_indent cg' = current_indent cg
  ∧ (var_i cg ≤ var_i cg')%N
  ∧ (∀ i, (i < var_i cg)%N → consts cg' !! var_name i = consts cg !! var_name i)
  ∧ (∀ k, (∀ i, k ≠ var_name i) → k ≠ "base64" → k ≠ "datetime" →
          consts cg' !! k = consts cg !! k).
Proof.
  intros H.
  assert (Hb : emits_block (has_empty_tuple type_ = false ∧ tidy_target out_var = true
                            ∧ tidy_expr in_var = true) cg cg').
  { destruct H as [H|H]; [by eapply serializer_emits|by eapply deserializer_emits]. }
  destruct Hb as (em & (Hs & Hi & Hv & Hc & Ho) & Hsh & _).
  split; [by exists em|]. split; [lia|]. done.
Qed.

Lemma X12_witness :
  ∃ cg', _compile_json_deserializer 5 (Sequence Timestamp) (Name "inp") (Name "out")
           code_generator.new = Ok cg'
         ∧ current_indent cg' = current_indent code_generator.new.
Proof.
  eexists. split; [vm_compute; reflexivity|].
  refine (proj1 (proj2 (X12_compilers_only_append 5 (Sequence Timestamp) (Name "inp") (Name "out")
                          code_generator.new _ (or_intror _)))).
  vm_compute; reflexivity.
Defined.

(** ** What a build can raise *)

Lemma emitted_from_new P cg :
  emits_block P code_generator.new cg → P →
  syntax_ok (statements cg) = true
  ∧ forallb one_line (map line_text (statements cg)) = true.
Proof.
  intros (em & (Hs & _) & Hsh & Hok) HP. cbn in Hs, Hsh. rewrite Hs.
  destruct (tidy_statements em (Hok HP)) as [Hst Hone].
  split; [by apply shape_syntax_ok|done].
Qed.











(** ** A failing compiled routine always carries its note *)

(** X15. For a routine built by [compile_json_serializer] or
    [compile_json_deserializer] (the descriptor holding no fixed tuple
    without members): when the generated program raises on a line, that line
    exists in the registered source, the call attaches the note made from it,
    and the caller sees the exception the program raised. *)
Theorem X15_compiled_failure_carries_note (type_ : TypeHint) (r : CompiledRoutine)
    (data : value) (cache : gmap string linecache_entry) (lineno : nat) (e : exc_class) :
  has_empty_tuple type_ = false →
  compile_json_serializer type_ = Ok r ∨ compile_json_deserializer type_ = Ok r →
  run (routine_consts r) (routine_code r) {[ "inp" := data ]} = Raise (lineno, e) →
  ∃ line,
    0 < lineno
    ∧ splitlines (routine_src r) !! (lineno - 1) = Some line
    ∧ func r data cache
      = (Raise {| exc := e; notes := [diagnostic_note r line];
                  tb_next_lineno := Some lineno |},
         <[routine_name r := registered r]> cache)
    ∧ call_routine r data = Raise e.
Proof.
  intros Hhet Hbuild Hrun.
  assert (∃ cg name, code_generator.compile cg name "inp" "out" = Ok r
                     ∧ forallb one_line (map line_text (statements cg)) = true)
    as (cg & name & Hc & Hone).
  { destruct Hbuild as [H|H].
    - unfold compile_json_serializer in H.
      destruct (_compile_json_serializer _ _ _ _ _) as [cg|] eqn:E; [|discriminate].
      cbn [mbind result_bind bind] in H. eexists _, _. split; [exact H|].
      apply serializer_emits in E. by apply (emitted_from_new _ _ E).
    - unfold compile_json_deserializer in H.
      destruct (_compile_json_deserializer _ _ _ _ _) as [cg|] eqn:E; [|discriminate].
      cbn [mbind result_bind bind] in H. eexists _, _. split; [exact H|].
      apply deserializer_emits in E. by apply (emitted_from_new _ _ E). }
  assert (Hin : routine_in_var r = "inp").
  { unfold code_generator.compile in Hc. destruct (syntax_ok _); [|discriminate].
    by injection Hc as <-. }
  rewrite <- Hin in Hrun.
  destruct (failing_call_note cg name "inp" "out" r data cache lineno e Hc Hone Hrun)
    as (Hlines & statement & Hpos & Hst & Hfunc).
  exists (line_text statement). split; [done|]. split.
  { by rewrite Hlines, list_lookup_fmap, Hst. }
  split; [done|].
  destruct (failing_call_note cg name "inp" "out" r data ∅ lineno e Hc Hone Hrun)
    as (_ & statement' & _ & Hst' & Hfunc').
  unfold call_routine. by rewrite Hfunc'.
Qed.

Lemma X15_witness :
  ∃ line, splitlines (routine_src (built (compile_json_serializer Timestamp))) !! 0
          = Some line
          ∧ call_routine (built (compile_json_serializer Timestamp)) VNone
            = Raise AttributeError.
Proof.
  destruct (X15_compiled_failure_carries_note Timestamp (built (compile_json_serializer Timestamp))
              VNone ∅ 1 AttributeError eq_refl (or_introl eq_refl)) as (line & _ & H1 & _ & H2).
  { vm_compute. reflexivity. }
  exists line. split; [exact H1|exact H2].
Defined.

(** ** Homogeneous tuples of timestamps *)




(** ** The serializer of a fixed tuple *)

Lemma program_lines_cons ind s rest :
  is_comment s = false →
  ∃ tail, program_lines ((ind, s) :: rest) = (1, Z.to_nat ind, s) :: tail.
Proof.
  intros Hs. unfold program_lines. cbn [imap].
  rewrite filter_cons_True by (simpl; by rewrite Hs). by eexists.
Qed.

Lemma serializer_first_member fuel a cg :
  issubclass_json_type a = true ∨ a = Timestamp →
  ∃ e, _compile_json_serializer (S fuel) a (Subscript (Name "out") (Num 0)) (Name "var0") cg
       = Ok (add_statement (AssignmentStatement (Target (Name "var0")) e) cg)
       ∧ ∀ G locals, locals !! "out" = None → G !! "out" = None →
                     eval G locals e = Raise NameError.
Proof.
  intros [Hj | ->].
  - exists (Subscript (Name "out") (Num 0)). split.
    + by rewrite serializer_json_type.
    + intros G locals Hl HG. cbn [eval]. unfold lookup_name. by rewrite Hl, HG.
  - exists (Call (Attribute (Subscript (Name "out") (Num 0)) "isoformat") []). split.
    + reflexivity.
    + intros G locals Hl HG. cbn [eval]. unfold lookup_name. by rewrite Hl, HG.
Qed.

(** X17. The fixed-tuple branch of the serializer reads [out_var[i]] where the
    input is [in_var[i]].  For a fixed tuple that is not wire-compatible and
    whose first member is wire-compatible or a timestamp, whenever the
    routine can be built at all, every call of it raises [NameError]: the
    first line of the program reads [out[0]] before [out] is bound. *)
Theorem X17_fixed_tuple_serializer_reads_unbound_name (a : TypeHint) (args : list TypeHint)
    (data : value) :
  issubclass_json_type a = true ∨ a = Timestamp →
  issubclass_json_type (Tuple (a :: args)) = false →
  is_variadic (a :: args) = false →
  has_empty_tuple (Tuple (a :: args)) = false →
  is_ok (compile_json_serializer (Tuple (a :: args))) = true →
  serialize_json data (Tuple (a :: args)) = Raise NameError.
Proof.
  intros Ha Hj Hvar Hhet Hok.
  unfold serialize_json, Tuple in *.
  destruct (compile_json_serializer (Generic tuple_ (a :: args))) as [r|] eqn:Hr;
    [|discriminate]. cbn [mbind result_bind bind].
  pose proof Hr as Hbuild. unfold compile_json_serializer in Hbuild.
  destruct (_compile_json_serializer _ _ _ _ _) as [cg|] eqn:E; [|discriminate].
  cbn [mbind result_bind bind] in Hbuild.
  (* the builder at the end *)
  pose proof (serializer_emits _ _ _ _ _ _ E) as (em & (Hs & _ & _ & _ & Ho) & _ & Htidy).
  cbn [statements code_generator.new app] in Hs.
  assert (Hone : forallb one_line (map line_text (statements cg)) = true).
  { rewrite Hs. by apply tidy_statements, Htidy. }
  assert (HG : consts cg !! "out" = None).
  { rewrite Ho; [done| |done|done]. intros i. apply not_eq_sym, var_name_ne_out. }
  (* its first statement *)
  assert (∃ e rest, statements cg = (0%Z, AssignmentStatement (Target (Name "var0")) e) :: rest
                    ∧ ∀ G locals, locals !! "out" = None → G !! "out" = None →
                                  eval G locals e = Raise NameError)
    as (e & rest & Hfirst & He).
  { cbn [hint_size map] in E.
    remember (S (S (list_sum (hint_size a :: map hint_size args)))) as f eqn:Hf.
    cbn [_compile_json_serializer] in E. rewrite Hj in E.
    cbn [remove_none is_union mbind result_bind bind base_of get_args] in E.
    change (issubclass_SimpleJson tuple_) with false in E.
    change (issubclass_Mapping tuple_) with false in E.
    change (issubclass_Collection tuple_) with true in E.
    rewrite Hvar in E.
    change (bool_decide (tuple_ = tuple_) && negb false) with true in E.
    cbv iota in E. cbn [for_enumerate get_var] in E. rewrite Hf in E.
    match type of E with
    | context [_compile_json_serializer (S ?f) a _ _ ?c] =>
        destruct (serializer_first_member f a c Ha) as (e & Hfirst & He)
    end.
    change (var_name (var_i code_generator.new)) with "var0" in E.
    rewrite Hfirst in E. cbn [mbind result_bind bind] in E.
    destruct (for_enumerate _ _ _ _) as [[out cg2]|] eqn:E2; [|discriminate].
    cbn [mbind result_bind bind] in E. injection E as <-.
    apply (eb_tuple_loop False (_compile_json_serializer _)
             (λ i, Subscript (Name "out") (Num i))) in E2
      as [(em2 & (Hs2 & _) & _) _].
    - exists e. eexists. split; [|exact He].
      rewrite assign_eq. cbn [statements]. rewrite Hs2. cbn [add_statement statements app].
      reflexivity.
    - intros elem i k c c' _ Hc. eapply eb_weaken; [|by eapply serializer_emits]. done. }
  (* the run stops on line 1 *)
  assert (Hc : routine_code r = program_lines (statements cg)
               ∧ routine_consts r = consts cg ∧ routine_in_var r = "inp").
  { unfold code_generator.compile in Hbuild. destruct (syntax_ok _); [|discriminate].
    by injection Hbuild as <-. }
  destruct Hc as (Hcode & Hconsts & Hin).
  assert (Hrun : run (routine_consts r) (routine_code r) {[ routine_in_var r := data ]}
                 = Raise (1, NameError)).
  { rewrite Hcode, Hconsts, Hin, Hfirst.
    destruct (program_lines_cons 0 (AssignmentStatement (Target (Name "var0")) e) rest)
      as [tail Htail]; [done|].
    rewrite Htail. unfold run. cbn [exec length].
    rewrite He; [done|by rewrite lookup_singleton_ne|done]. }
  destruct (failing_call_note cg _ "inp" "out" r data ∅ 1 NameError Hbuild Hone Hrun)
    as (_ & statement & _ & _ & Hfunc).
  unfold call_routine. by rewrite Hfunc.
Qed.

Lemma X17_witness :
  serialize_json (VTuple [VInt 1; VDatetime "2024-01-01T00:00:00"]) (Tuple [Int; Timestamp])
  = Raise NameError.
Proof.
  exact (X17_fixed_tuple_serializer_reads_unbound_name Int [Timestamp]
           (VTuple [VInt 1; VDatetime "2024-01-01T00:00:00"])
           (or_introl eq_refl) eq_refl eq_refl eq_refl eq_refl).
Defined.

(** ** Mappings of timestamps *)








(** ** The fields of a SimpleSerializable *)

Section serialize_fields.
Import simple_serializable.

Lemma dict_get_store {A} (d : list (string * A)) k v k' :
  dict_get (dict_store d k v) k' = if String.eqb k k' then Some v else dict_get d k'.
Proof.
  induction d as [|[k0 v0] d IH]; cbn [dict_store dict_get]; [done|].
  destruct (String.eqb_spec k0 k) as [->|Hne]; cbn [dict_get].
  - by destruct (String.eqb k k').
  - rewrite IH. destruct (String.eqb_spec k0 k') as [->|Hne']; [|done].
    by rewrite (proj2 (String.eqb_neq k k')).
Qed.

Lemma dict_store_keys {A} (d : list (string * A)) k v :
  map fst (dict_store d k v) = if bool_decide (k ∈ map fst d) then map fst d
                               else map fst d ++ [k].
Proof.
  induction d as [|[k0 v0] d IH]; cbn [dict_store map fst]; [done|].
  destruct (String.eqb_spec k0 k) as [->|Hne]; cbn [map fst].
  - rewrite bool_decide_eq_true_2; [done|by left].
  - rewrite IH. case_bool_decide as Hin.
    + rewrite bool_decide_eq_true_2; [done|by right].
    + rewrite bool_decide_eq_false_2; [done|].
      intros [?|?]%elem_of_cons; [congruence|done].
Qed.

Lemma dict_or_get {A} (e d : list (string * A)) k :
  NoDup (map fst e) →
  dict_get (dict_or d e) k = match dict_get e k with Some v => Some v | None => dict_get d k end.
Proof.
  unfold dict_or. revert d. induction e as [|[k0 v0] e IH]; intros d Hnd; [done|].
  cbn [fold_left dict_get map fst] in *. apply NoDup_cons in Hnd as [Hk0 Hnd].
  rewrite IH by done. rewrite dict_get_store.
  destruct (String.eqb_spec k0 k) as [->|Hne]; [|done].
  assert (dict_get e k = None) as ->; [|done].
  clear -Hk0. induction e as [|[k1 v1] e IH]; [done|]. cbn [dict_get].
  destruct (String.eqb_spec k1 k) as [->|Hne].
  - destruct Hk0. cbn. by left.
  - apply IH. intros Hin. apply Hk0. cbn. by right.
Qed.

Lemma filter_ext_elem {A} (P Q : A → Prop) `{∀ x, Decision (P x)} `{∀ x, Decision (Q x)}
    (l : list A) :
  (∀ x, x ∈ l → P x ↔ Q x) → filter P l = filter Q l.
Proof.
  induction l as [|x l IH]; intros Hext; [done|].
  rewrite !filter_cons. rewrite IH by (intros y Hy; apply Hext; by right).
  destruct (decide (P x)) as [HP|HP], (decide (Q x)) as [HQ|HQ]; try done.
  - destruct HQ. apply Hext; [by left|done].
  - destruct HP. apply Hext; [by left|done].
Qed.

Lemma dict_or_keys {A} (e d : list (string * A)) :
  NoDup (map fst e) →
  map fst (dict_or d e) = map fst d ++ filter (λ k, k ∉ map fst d) (map fst e).
Proof.
  unfold dict_or. revert d. induction e as [|[k0 v0] e IH]; intros d Hnd.
  - cbn. by rewrite app_nil_r.
  - cbn [fold_left map fst] in *. apply NoDup_cons in Hnd as [Hk0 Hnd].
    rewrite IH by done. rewrite dict_store_keys. case_bool_decide as Hin.
    + by rewrite filter_cons_False by (by intros ?).
    + rewrite filter_cons_True by done. rewrite <- app_assoc. cbn [app]. do 2 f_equal.
      apply filter_ext_elem. intros k Hk. rewrite elem_of_app, list_elem_of_singleton.
      split; [tauto|]. intros Hn [?| ->]; done.
Qed.

Lemma filter_not_in_nil (l : list string) : filter (λ k, k ∉ @nil string) l = l.
Proof.
  induction l as [|k l IHl]; [done|].
  rewrite filter_cons_True by apply not_elem_of_nil. by rewrite IHl.
Qed.

Lemma dict_pop_keys {A} (d : list (string * A)) k :
  map fst (dict_pop d k) = filter (λ k', k' ≠ k) (map fst d).
Proof.
  unfold dict_pop. induction d as [|[k0 v0] d IH]; [done|].
  cbn [map fst]. rewrite !filter_cons. cbn [fst].
  destruct (decide (k0 ≠ k)); cbn [map fst]; by rewrite IH.
Qed.

Lemma dict_pop_get {A} (d : list (string * A)) k k' :
  dict_get (dict_pop d k) k' = if String.eqb k k' then None else dict_get d k'.
Proof.
  unfold dict_pop. induction d as [|[k0 v0] d IH]; cbn [dict_get].
  - by destruct (String.eqb k k').
  - rewrite filter_cons. destruct (decide (k0 ≠ k)) as [Hne|Heq]; cbn [dict_get].
    + rewrite IH. destruct (String.eqb_spec k0 k') as [->|]; [|done].
      by rewrite (proj2 (String.eqb_neq k k')).
    + apply dec_stable in Heq as ->. rewrite IH.
      by destruct (String.eqb k k').
Qed.

Lemma dict_pops_keys {A} (excl : list string) (d : list (string * A)) :
  map fst (fold_left dict_pop excl d) = filter (λ k, k ∉ excl) (map fst d).
Proof.
  revert d. induction excl as [|x excl IH]; intros d.
  - cbn [fold_left]. by rewrite filter_not_in_nil.
  - cbn [fold_left]. rewrite IH, dict_pop_keys, list_filter_filter.
    apply list_filter_iff. intros k. rewrite not_elem_of_cons. tauto.
Qed.

Lemma dict_pops_get {A} (excl : list string) (d : list (string * A)) k :
  dict_get (fold_left dict_pop excl d) k
  = if bool_decide (k ∈ excl) then None else dict_get d k.
Proof.
  revert d. induction excl as [|x excl IH]; intros d; [done|].
  cbn [fold_left]. rewrite IH, dict_pop_get.
  destruct (String.eqb_spec x k) as [->|Hne].
  - rewrite (bool_decide_eq_true_2 (k ∈ k :: excl)) by (by left). by case_bool_decide.
  - case_bool_decide as Hin.
    + rewrite bool_decide_eq_true_2; [done|by right].
    + rewrite bool_decide_eq_false_2; [done|].
      intros [?|?]%elem_of_cons; [congruence|done].
Qed.

Lemma fields_not_classvar l :
  filter (λ field, _field_type field ≠ _FIELD_CLASSVAR) (fields l) = fields l.
Proof.
  unfold fields. apply list_filter_filter_r. intros f ->. discriminate.
Qed.

(** X19. The fields [_get_serialize_fields] returns, for a class whose
    dataclass fields and whose [__serialize_fields__] have distinct names: the
    true dataclass fields in their order, then the names that only
    [__serialize_fields__] has, without the excluded ones; no name twice; an
    excluded name is absent; any other name has the type
    [__serialize_fields__] gives it, and the declared type if it gives none.
    The test on [ClassVar] fields in the source filters nothing, since
    [dataclasses.fields] has already left them out. *)
Theorem X19_serialize_fields_of_a_class (__dataclass_fields__ : list Field)
    (__serialize_fields__ : list (string * TypeHint)) (__exclude_fields__ : list string) :
  NoDup (map name __dataclass_fields__) →
  NoDup (map fst __serialize_fields__) →
  let declared :=
    map (λ field, (name field, type field)) (fields __dataclass_fields__) in
  let out :=
    _get_serialize_fields __dataclass_fields__ __serialize_fields__ __exclude_fields__ in
  map fst out
  = filter (λ k, k ∉ __exclude_fields__)
      (map fst declared
       ++ filter (λ k, k ∉ map fst declared) (map fst __serialize_fields__))
  ∧ NoDup (map fst out)
  ∧ (∀ k, k ∈ __exclude_fields__ → dict_get out k = None)
  ∧ (∀ k, k ∉ __exclude_fields__ →
          dict_get out k = match dict_get __serialize_fields__ k with
                           | Some t => Some t
                           | None => dict_get declared k
                           end).
Proof.
  intros Hnames Hsf declared out.
  assert (Hdecl : NoDup (map fst declared)).
  { subst declared. rewrite map_map. cbn [fst].
    change (map (λ x, name x) (fields __dataclass_fields__))
      with (name <$> filter (λ f, _field_type f = _FIELD) __dataclass_fields__).
    clear -Hnames. induction __dataclass_fields__ as [|f l IH]; [constructor|].
    cbn [map] in Hnames. apply NoDup_cons in Hnames as [Hf Hl].
    rewrite filter_cons. destruct (decide _); [|by apply IH].
    cbn [fmap list_fmap]. apply NoDup_cons. split; [|by apply IH].
    intros (f' & Heq & [_ Hin]%list_elem_of_filter)%list_elem_of_fmap.
    apply Hf. apply list_elem_of_fmap. by exists f'. }
  assert (Hkeys0 : map fst (dict_or [] declared) = map fst declared).
  { rewrite dict_or_keys by done. cbn [map app]. apply filter_not_in_nil. }
  assert (Hget0 : ∀ k, dict_get (dict_or [] declared) k = dict_get declared k).
  { intros k. rewrite dict_or_get by done. by destruct (dict_get declared k). }
  assert (Hout : out = fold_left dict_pop __exclude_fields__
                         (dict_or (dict_or [] declared) __serialize_fields__)).
  { subst out declared. unfold _get_serialize_fields. by rewrite fields_not_classvar. }
  assert (Hkeys : map fst out
                  = filter (λ k, k ∉ __exclude_fields__)
                      (map fst declared
                       ++ filter (λ k, k ∉ map fst declared) (map fst __serialize_fields__))).
  { rewrite Hout, dict_pops_keys, dict_or_keys, Hkeys0 by done. done. }
  split; [exact Hkeys|]. split; [|split].
  - rewrite Hkeys. apply NoDup_filter, NoDup_app. split; [done|]. split.
    + intros k Hk [Hn _]%list_elem_of_filter. done.
    + by apply NoDup_filter.
  - intros k Hk. rewrite Hout, dict_pops_get. by rewrite bool_decide_eq_true_2.
  - intros k Hk. rewrite Hout, dict_pops_get, bool_decide_eq_false_2 by done.
    rewrite dict_or_get by done. by rewrite Hget0.
Qed.

End serialize_fields.

Lemma X19_witness :
  map fst (simple_serializable._get_serialize_fields
             [simple_serializable.mkField "a" Int simple_serializable._FIELD;
              simple_serializable.mkField "b" Timestamp simple_serializable._FIELD;
              simple_serializable.mkField "c" Int simple_serializable._FIELD_CLASSVAR]
             [("b", String_); ("d", Int)] ["a"])
  = ["b"; "d"].
Proof.
  refine (eq_trans (proj1 (X19_serialize_fields_of_a_class
            [simple_serializable.mkField "a" Int simple_serializable._FIELD;
             simple_serializable.mkField "b" Timestamp simple_serializable._FIELD;
             simple_serializable.mkField "c" Int simple_serializable._FIELD_CLASSVAR]
            [("b", String_); ("d", Int)] ["a"] _ _)) _).
  - apply (bool_decide_unpack _). vm_compute. exact I.
  - apply (bool_decide_unpack _). vm_compute. exact I.
  - vm_compute. reflexivity.
Defined.
(** ** The serializer of a class *)



